(** * FullSnap: scroll planning, segment planning, viewport stitching,
      whitespace-aware pagination and the capture store.

    A shallow embedding of the algorithmic core of the extension:

    - [ServiceWorker]: [calculateScrollPositions], [computeCaptureStrategy],
      [buildCaptureSegments] and [roundTo] of background/service-worker.js;
    - [Offscreen]: [determineCanvasStrategy], [prepareCanvas] and
      [stitchViewport] of the offscreen document;
    - [Viewer]: [detectBackgroundBrightness], [buildRowScores],
      [findAllWhitespaceBands] and [appendCanvasToPagedPdf] of the viewer;
    - [CaptureFlow] and [FullPageCapture]: the plan, the messages and the
      segment loop of [captureFullPage];
    - [PdfExport]: the page bookkeeping of [appendCanvasToPagedPdf],
      [savePagedMultipartPdf] and [buildPdfForSingleCanvas];
    - [PagedPdf]: the rendering of the slices (Step 4 of
      [appendCanvasToPagedPdf], with the exception of [toDataURL] on a
      canvas that is not origin-clean) and [downloadPDF];
    - [CaptureStore]: the IndexedDB store of shared/constants.js;
      [OffscreenStore]: [storeCurrentSegment]; [Worker]: the pending capture
      and the store queries of the service worker;
    - [Retry]: [captureWithRetry] and the chunk loop of [blobToDataUrl];
    - [Zoom]: the zoom handlers of the viewer;
    - [Annotation]: the annotation engine of viewer/annotation.js.

    Numbers.  DOM lengths (scroll height, viewport size, canvas size, pixel
    rows) are integers and are modelled in [Z].  Scale factors, millimetre
    lengths and band centres are modelled as exact rationals [Q]: the
    arithmetic of the source is carried out without the rounding error of IEEE
    doubles (and of the [Float32Array] that holds the row scores).  The
    concrete runs quoted below stay away from the ties where that rounding
    could change a comparison, a [Math.round] or a [Math.ceil], and the
    theorems on the stitched canvas assume it of the capture
    ([roundsAsComputed]).  [Infinity] is modelled by [None] where the
    source uses it as the initial best distance. *)

From Stdlib Require Import String.
From Stdlib Require Import ZArith QArith Qround Qminmax Qabs.
From Stdlib Require Import List Sorted Bool Lia Lqa DecimalString.
Import ListNotations.

Open Scope Z_scope.

(* ================================================================== *)
(** * JavaScript primitives *)
(* ================================================================== *)

Module Js.

(** [Math.round]: nearest integer, ties towards +infinity. *)
Definition round (x : Q) : Z := Qfloor (x + (1 # 2)).

(** [Math.floor] and [Math.ceil]. *)
Definition floor (x : Q) : Z := Qfloor x.
Definition ceil (x : Q) : Z := Qceiling x.

(** [x < y] on numbers. *)
Definition ltb (x y : Q) : bool := negb (Qle_bool y x).

(** [x || d] on numbers: [0] is falsy. *)
Definition orZ (x d : Z) : Z := if x =? 0 then d else x.
Definition orQ (x d : Q) : Q := if Qeq_bool x 0 then d else x.

(** A call either returns a value or throws an [Error] with a message. *)
Inductive completion (A : Type) : Type :=
| Return (a : A)
| Throw (msg : string).
Arguments Return {A} a.
Arguments Throw {A} msg.

Definition bind {A B} (c : completion A) (k : A -> completion B) : completion B :=
  match c with
  | Return a => k a
  | Throw msg => Throw msg
  end.

End Js.

(* ================================================================== *)
(** * shared/constants.js *)
(* ================================================================== *)

Module CAPTURE_LIMITS.
Definition MAX_CANVAS_DIMENSION : Z := 16384.
Definition MAX_CANVAS_AREA : Z := 100000000.
Definition STITCH_CONCURRENCY : Z := 1.
End CAPTURE_LIMITS.

(* ================================================================== *)
(** * background/service-worker.js *)
(* ================================================================== *)

Module ServiceWorker.

Import CAPTURE_LIMITS.

(** The page metrics answered by the content script: [scrollHeight],
    [innerWidth], [innerHeight] are integers, [devicePixelRatio] is not. *)
Record Metrics : Type := {
  totalHeight : Z;
  viewportWidth : Z;
  viewportHeight : Z;
  devicePixelRatio : Q
}.

(** ** calculateScrollPositions *)

(** [while (y + viewportHeight <= totalHeight) { positions.push(y); y += viewportHeight; }]
    One unit of fuel per iteration; [None] when the fuel runs out. *)
Fixpoint scrollLoop (fuel : nat) (totalHeight viewportHeight y : Z)
         (positions : list Z) : option (list Z * Z) :=
  if y + viewportHeight <=? totalHeight then
    match fuel with
    | O => None
    | S fuel' =>
        scrollLoop fuel' totalHeight viewportHeight (y + viewportHeight)
                   (positions ++ [y])
    end
  else Some (positions, y).

(** [[...new Set(positions)]]: the distinct values in order of first
    occurrence; [seen] holds the values already inserted. *)
Fixpoint setValues (seen : list Z) (positions : list Z) : list Z :=
  match positions with
  | [] => []
  | p :: rest =>
      if existsb (Z.eqb p) seen then setValues seen rest
      else p :: setValues (p :: seen) rest
  end.

(** [.sort((a, b) => a - b)]: ascending numeric order. *)
Fixpoint insertAscending (a : Z) (sorted : list Z) : list Z :=
  match sorted with
  | [] => [a]
  | b :: rest => if a <=? b then a :: sorted else b :: insertAscending a rest
  end.

Definition sortAscending (l : list Z) : list Z :=
  fold_right insertAscending [] l.

Definition calculateScrollPositions (fuel : nat) (totalHeight viewportHeight : Z)
  : option (list Z) :=
  if totalHeight <=? viewportHeight then Some [0]
  else
    match scrollLoop fuel totalHeight viewportHeight 0 [] with
    | None => None
    | Some (positions, y) =>
        let positions :=
          if y <? totalHeight then positions ++ [totalHeight - viewportHeight]
          else positions in
        Some (sortAscending (setValues [] positions))
    end.

(** ** roundTo and computeCaptureStrategy *)

Definition roundTo (value : Q) (decimals : Z) : Q :=
  let factor := Qpower 10 decimals in
  (inject_Z (Js.round (value * factor)) / factor)%Q.

Record CaptureStrategy : Type := {
  effectiveDpr : Q;
  maxSegmentHeightCss : Z;
  viewportsPerSegment : Z
}.

(** The width and height the strategy works with:
    [Math.max(1, metrics.viewportWidth || 1)]. *)
Definition safeViewportWidth (metrics : Metrics) : Z :=
  Z.max 1 (Js.orZ (viewportWidth metrics) 1).
Definition safeViewportHeight (metrics : Metrics) : Z :=
  Z.max 1 (Js.orZ (viewportHeight metrics) 1).

(** [Math.max(0.5, Math.min(dpr, maxDprByWidth))], before rounding. *)
Definition clampedDpr (metrics : Metrics) : Q :=
  let dpr := Js.orQ (devicePixelRatio metrics) 1 in
  let maxDprByWidth :=
    (inject_Z MAX_CANVAS_DIMENSION / inject_Z (safeViewportWidth metrics))%Q in
  Qmax (1 # 2) (Qmin dpr maxDprByWidth).

Definition computeCaptureStrategy (metrics : Metrics)
  : Js.completion CaptureStrategy :=
  let viewportWidth := safeViewportWidth metrics in
  let viewportHeight := safeViewportHeight metrics in
  let effectiveDpr := roundTo (clampedDpr metrics) 3 in
  if Qle_bool effectiveDpr 0 then
    Js.Throw "Unable to compute safe capture scale"%string
  else
    let maxHeightByDimension :=
      Js.floor (inject_Z MAX_CANVAS_DIMENSION / effectiveDpr) in
    let maxHeightByArea :=
      Js.floor (inject_Z MAX_CANVAS_AREA
                / (inject_Z viewportWidth * effectiveDpr * effectiveDpr)) in
    let maxSegmentHeightCss :=
      Z.max viewportHeight (Z.min maxHeightByDimension maxHeightByArea) in
    if maxSegmentHeightCss <=? 0 then
      Js.Throw "Page is too large to capture with current browser limits"%string
    else
      let viewportsPerSegment :=
        Z.max 1 (Js.floor (inject_Z maxSegmentHeightCss / inject_Z viewportHeight)) in
      Js.Return {| effectiveDpr := effectiveDpr;
                   maxSegmentHeightCss := maxSegmentHeightCss;
                   viewportsPerSegment := viewportsPerSegment |}.

(** ** buildCaptureSegments *)

Record Segment : Type := {
  index : nat;
  startPositionIndex : nat;
  positions : list Z;
  startY : Z;
  endY : Z;
  height : Z
}.

(** [positions.slice(i, j)]. *)
Definition slice (positions : list Z) (i j : nat) : list Z :=
  firstn (j - i) (skipn i positions).

(** The body of the [for] loop: the segment pushed at index [i].  The loop
    guard [i < positions.length] makes the slice non-empty, so [slice[0]]
    and [slice[slice.length - 1]] are defined. *)
Definition segmentAt (positions : list Z) (viewportHeight totalHeight : Z)
           (viewportsPerSegment : nat) (segmentsLength i : nat) : Segment :=
  let slice := slice positions i (i + viewportsPerSegment) in
  let startY := nth 0 slice 0 in
  let endY := Z.min totalHeight (nth (length slice - 1) slice 0 + viewportHeight) in
  {| index := segmentsLength;
     startPositionIndex := i;
     positions := slice;
     startY := startY;
     endY := endY;
     height := endY - startY |}.

(** [for (let i = 0; i < positions.length; i += viewportsPerSegment)]. *)
Fixpoint segmentLoop (fuel : nat) (positions : list Z)
         (viewportHeight totalHeight : Z) (viewportsPerSegment : nat)
         (i : nat) (segments : list Segment) : option (list Segment) :=
  if (i <? length positions)%nat then
    match fuel with
    | O => None
    | S fuel' =>
        segmentLoop fuel' positions viewportHeight totalHeight viewportsPerSegment
          (i + viewportsPerSegment)
          (segments ++ [segmentAt positions viewportHeight totalHeight
                                  viewportsPerSegment (length segments) i])
    end
  else Some segments.

Definition buildCaptureSegments (fuel : nat) (positions : list Z)
           (viewportHeight totalHeight : Z) (viewportsPerSegment : nat)
  : option (list Segment) :=
  segmentLoop fuel positions viewportHeight totalHeight viewportsPerSegment 0 [].

End ServiceWorker.

(* ================================================================== *)
(** * The offscreen document: canvas preparation and stitching *)
(* ================================================================== *)

Module Offscreen.

Import CAPTURE_LIMITS.

Record CanvasStrategy : Type := {
  scale : Q;
  canvasWidth : Z;
  canvasHeight : Z
}.

(** [width] and [height] arrive as integers, so [Math.floor] leaves them
    unchanged; [dpr] is finite. *)
Definition determineCanvasStrategy (width height : Z) (dpr : Q)
  : Js.completion CanvasStrategy :=
  let safeWidth := Z.max 1 width in
  let safeHeight := Z.max 1 height in
  let safeDpr := Qmax (1 # 2) dpr in
  let physicalWidth := Js.round (inject_Z safeWidth * safeDpr) in
  let physicalHeight := Js.round (inject_Z safeHeight * safeDpr) in
  let area := physicalWidth * physicalHeight in
  if MAX_CANVAS_DIMENSION <? physicalWidth then
    Js.Throw "Requested canvas width exceeds safe browser limits"%string
  else if MAX_CANVAS_DIMENSION <? physicalHeight then
    Js.Throw "Requested canvas height exceeds safe browser limits"%string
  else if MAX_CANVAS_AREA <? area then
    Js.Throw "Requested canvas area exceeds safe browser limits"%string
  else
    Js.Return {| scale := safeDpr;
                 canvasWidth := physicalWidth;
                 canvasHeight := physicalHeight |}.

(** A decoded viewport capture. *)
Record Image : Type := {
  naturalWidth : Z;
  naturalHeight : Z
}.

(** The STITCH_VIEWPORT message.  [dataUrl] is given by what
    [loadImageWithTimeout] makes of it: the decoded image, or [None] when
    loading fails. *)
Record StitchMessage : Type := {
  dataUrl : option Image;
  yOffset : Z;
  viewportHeight : Z;
  totalHeight : Z;
  isFirst : bool;
  isLast : bool
}.

(** One [ctx.drawImage(img, sx, sy, sw, sh, dx, dy, dw, dh)] call, with the
    message that issued it. *)
Record DrawCall : Type := {
  issuedBy : StitchMessage;
  sx : Z; sy : Z; sw : Z; sh : Z;
  dx : Z; dy : Z; dw : Z; dh : Z
}.

(** The canvas element: its size, the ad-hoc [_lastDrawnBottomY] property
    and the [drawImage] calls it has received, oldest first. *)
Record Canvas : Type := {
  width : Z;
  height : Z;
  lastDrawnBottomY : Z;
  drawn : list DrawCall
}.

(** The globals [canvas] (with its [ctx]) and [canvasStrategy]. *)
Record Document : Type := {
  canvas : option Canvas;
  canvasStrategy : option CanvasStrategy
}.


Definition prepareCanvas (viewportWidth totalHeight : Z) (dpr : Q)
  : Js.completion Document :=
  Js.bind (determineCanvasStrategy viewportWidth totalHeight dpr)
    (fun strategy =>
       Js.Return {| canvas := Some {| width := canvasWidth strategy;
                                      height := canvasHeight strategy;
                                      lastDrawnBottomY := 0;
                                      drawn := [] |};
                    canvasStrategy := Some strategy |}).

(** The crop of an overlapping viewport: [(srcCropY, destCropY)]. *)
Definition overlapCrop (message : StitchMessage) (alreadyDrawnUpTo : Z)
           (drawY drawHeight srcH : Z) : Z * Z :=
  if negb (isFirst message) && (0 <? yOffset message) then
    let expectedPosNoOverlap := drawY in
    if expectedPosNoOverlap <? alreadyDrawnUpTo then
      let overlapPx := alreadyDrawnUpTo - expectedPosNoOverlap in
      (Js.round ((inject_Z overlapPx / inject_Z drawHeight) * inject_Z srcH),
       alreadyDrawnUpTo)
    else (0, drawY)
  else (0, drawY).

Definition stitchViewport (doc : Document) (message : StitchMessage)
  : Js.completion Document :=
  match canvas doc, canvasStrategy doc with
  | Some cv, Some strategy =>
      match dataUrl message with
      | None => Js.Throw "Failed to load viewport image"%string
      | Some img =>
          let canvasScale := scale strategy in
          let drawY := Js.round (inject_Z (yOffset message) * canvasScale) in
          let srcW := naturalWidth img in
          let srcH := naturalHeight img in
          let drawWidth := width cv in
          let drawHeight :=
            Js.round (inject_Z (viewportHeight message) * canvasScale) in
          let '(srcCropY, destCropY) :=
            overlapCrop message (Js.orZ (lastDrawnBottomY cv) 0)
                        drawY drawHeight srcH in
          let srcDrawH := srcH - srcCropY in
          let destDrawH := drawHeight - (destCropY - drawY) in
          let drawn' :=
            if (0 <? srcDrawH) && (0 <? destDrawH) then
              drawn cv ++ [{| issuedBy := message;
                              sx := 0; sy := srcCropY; sw := srcW; sh := srcDrawH;
                              dx := 0; dy := destCropY; dw := drawWidth;
                              dh := destDrawH |}]
            else drawn cv in
          Js.Return {| canvas := Some {| width := width cv;
                                         height := height cv;
                                         lastDrawnBottomY := destCropY + destDrawH;
                                         drawn := drawn' |};
                       canvasStrategy := Some strategy |}
      end
  | _, _ => Js.Throw "Canvas not prepared before stitching"%string
  end.

(** The service worker sends one STITCH_VIEWPORT message per position of the
    segment and awaits each stitch before the next
    ([STITCH_CONCURRENCY] = 1); the first failure aborts the capture. *)
Fixpoint stitchAll (doc : Document) (messages : list StitchMessage)
  : Js.completion Document :=
  match messages with
  | [] => Js.Return doc
  | message :: rest =>
      Js.bind (stitchViewport doc message) (fun doc' => stitchAll doc' rest)
  end.

(** The physical rows a capture's viewport maps to: its window
    [[drawY, drawY + drawHeight)]. *)
Definition drawYOf (canvasScale : Q) (message : StitchMessage) : Z :=
  Js.round (inject_Z (yOffset message) * canvasScale).
Definition drawHeightOf (canvasScale : Q) (message : StitchMessage) : Z :=
  Js.round (inject_Z (viewportHeight message) * canvasScale).
Definition inWindow (canvasScale : Q) (row : Z) (message : StitchMessage) : bool :=
  (drawYOf canvasScale message <=? row)
  && (row <? drawYOf canvasScale message + drawHeightOf canvasScale message).

(** The [drawImage] calls whose destination rectangle contains [row]. *)
Definition writes (row : Z) (call : DrawCall) : bool :=
  (dy call <=? row) && (row <? dy call + dh call).
Definition writersOf (row : Z) (calls : list DrawCall) : list DrawCall :=
  filter (writes row) calls.

End Offscreen.

(* ================================================================== *)
(** * The viewer: whitespace bands and PDF pagination *)
(* ================================================================== *)

Module Viewer.

(** ** Pixel analysis *)

(** [data[off]] of the [Uint8ClampedArray] returned by [getImageData]; the
    analysis only reads offsets below [4 * width * height]. *)
Definition pixel (data : list Z) (off : Z) : Z := nth (Z.to_nat off) data 0.

(** [(data[off] + data[off + 1] + data[off + 2]) / 3] at row [r], column [c]. *)
Definition brightnessAt (data : list Z) (canvasWidth r c : Z) : Q :=
  let off := (r * canvasWidth + c) * 4 in
  (inject_Z (pixel data off + pixel data (off + 1) + pixel data (off + 2)) / 3)%Q.

(** [for (let c = 0; c < canvasWidth; c += sampleStride)]: the columns visited. *)
Fixpoint sampledColumns (fuel : nat) (c canvasWidth sampleStride : Z) : list Z :=
  match fuel with
  | O => []
  | S fuel' =>
      if c <? canvasWidth then
        c :: sampledColumns fuel' (c + sampleStride) canvasWidth sampleStride
      else []
  end.

Definition columnsOf (canvasWidth sampleStride : Z) : list Z :=
  sampledColumns (Z.to_nat canvasWidth) 0 canvasWidth sampleStride.

(** [for (let r = from; r < from + count; r++)]: the rows visited. *)
Definition rowsFrom (from : Z) (count : nat) : list Z :=
  map (fun k => from + Z.of_nat k) (seq 0 count).

Definition sumQ (l : list Q) : Q := fold_left Qplus l 0%Q.

Definition buildRowScores (data : list Z) (canvasWidth canvasHeight sampleStride : Z)
           (bgBrightness : Q) : list Q :=
  map (fun r =>
         let deviations :=
           map (fun c => Qabs (brightnessAt data canvasWidth r c - bgBrightness))
               (columnsOf canvasWidth sampleStride) in
         let n := Z.of_nat (length deviations) in
         if 0 <? n then (sumQ deviations / inject_Z n)%Q else 0%Q)
      (rowsFrom 0 (Z.to_nat canvasHeight)).

Definition detectBackgroundBrightness (data : list Z)
           (canvasWidth canvasHeight sampleStride : Z) : Q :=
  let edgeRows := Z.max 1 (Js.round (inject_Z canvasHeight * (3 # 100))) in
  let rows := rowsFrom 0 (Z.to_nat edgeRows)
              ++ rowsFrom (canvasHeight - edgeRows) (Z.to_nat edgeRows) in
  let samples :=
    flat_map (fun r => map (fun c => brightnessAt data canvasWidth r c)
                           (columnsOf canvasWidth sampleStride)) rows in
  let n := Z.of_nat (length samples) in
  if 0 <? n then (sumQ samples / inject_Z n)%Q else 255%Q.

Record Band : Type := {
  start : Z;
  end_ : Z;
  centre : Q;
  width : Z
}.

(** The scan of [findAllWhitespaceBands] from row [r], with [n] rows left to
    visit.  [rowScores[r]] of a row outside the array is [undefined], which
    is not below any threshold. *)
Fixpoint bandScan (n : nat) (rowScores : list Q) (r toY : Z)
         (blankThreshold : Q) (minBandPx : Z)
         (bandStart : Z) (bands : list Band) : list Band :=
  match n with
  | O => bands
  | S n' =>
      let isBlank :=
        (r <=? toY)
        && match nth_error rowScores (Z.to_nat r) with
           | Some score => (0 <=? r) && Js.ltb score blankThreshold
           | None => false
           end in
      if isBlank then
        bandScan n' rowScores (r + 1) toY blankThreshold minBandPx
                 (if bandStart <? 0 then r else bandStart) bands
      else if 0 <=? bandStart then
        let bandEnd := r - 1 in
        let width := bandEnd - bandStart + 1 in
        bandScan n' rowScores (r + 1) toY blankThreshold minBandPx (-1)
                 (if minBandPx <=? width then
                    bands ++ [{| start := bandStart;
                                 end_ := bandEnd;
                                 centre := (inject_Z (bandStart + bandEnd) / 2)%Q;
                                 width := width |}]
                  else bands)
      else
        bandScan n' rowScores (r + 1) toY blankThreshold minBandPx bandStart bands
  end.

(** [for (let r = fromY; r <= toY + 1; r++)]. *)
Definition findAllWhitespaceBands (rowScores : list Q) (fromY toY : Z)
           (blankThreshold : Q) (minBandPx : Z) : list Band :=
  bandScan (Z.to_nat (toY + 1 - fromY + 1)) rowScores fromY toY
           blankThreshold minBandPx (-1) [].

(** ** appendCanvasToPagedPdf *)

Definition sampleStride : Z := 4.
Definition MIN_BAND_PX : Z := 2.
Definition BLANK_ROW_THRESHOLD : Q := 12.
Definition OVERLAP_PX : Z := 60.
Definition FOOTER_LINE_HEIGHT_MM : Q := 35 # 10.
Definition FOOTER_PADDING_MM : Q := 25 # 10.
Definition margin : Q := 10.

(** The raster to export.  [getImageData] is [None] when reading the pixels
    throws (a tainted canvas, a missing context). *)
Record SourceCanvas : Type := {
  canvasWidth : Z;
  canvasHeight : Z;
  getImageData : option (list Z)
}.

(** What the function reads from its surroundings: [window.devicePixelRatio]
    and the footer lines it builds from [settings] and [captureMeta]. *)
Record ExportContext : Type := {
  windowDevicePixelRatio : Q;
  footerLines : list string
}.

(** The [try] block that computes [allBands]; [null] is [None]. *)
Definition readBands (canvas : SourceCanvas) : option (list Band) :=
  match getImageData canvas with
  | None => None
  | Some data =>
      let bgBrightness :=
        detectBackgroundBrightness data (canvasWidth canvas) (canvasHeight canvas)
                                   sampleStride in
      let rowScores :=
        buildRowScores data (canvasWidth canvas) (canvasHeight canvas)
                       sampleStride bgBrightness in
      Some (findAllWhitespaceBands rowScores 0 (canvasHeight canvas - 1)
                                   BLANK_ROW_THRESHOLD MIN_BAND_PX)
  end.

(** The lengths the page loop depends on. *)
Record PageGeometry : Type := {
  canvas_height : Z;
  imgHeightMm : Q;
  scale : Q;
  imageContentH : Q
}.

Definition pageGeometry (ctx : ExportContext) (canvas : SourceCanvas)
           (pageSize : string) : PageGeometry :=
  let pageDims : Q * Q :=
    if String.eqb pageSize "a4" then (210, 297)%Q
    else (2159 # 10, 2794 # 10)%Q in
  let dpr := Z.max 1 (Js.round (Js.orQ (windowDevicePixelRatio ctx) 1)) in
  let pxToMm := ((254 # 10) / (96 * inject_Z dpr))%Q in
  let imgWidthMm := (inject_Z (canvasWidth canvas) * pxToMm)%Q in
  let imgHeightMm := (inject_Z (canvasHeight canvas) * pxToMm)%Q in
  let contentW := (fst pageDims - 2 * margin)%Q in
  let contentH := (snd pageDims - 2 * margin)%Q in
  let scale := (contentW / imgWidthMm)%Q in
  let lineCount := Z.of_nat (length (footerLines ctx)) in
  let footerReservedMm :=
    if 0 <? lineCount then
      (FOOTER_PADDING_MM + inject_Z lineCount * FOOTER_LINE_HEIGHT_MM)%Q
    else 0%Q in
  let imageContentH := (contentH - footerReservedMm)%Q in
  {| canvas_height := canvasHeight canvas;
     imgHeightMm := imgHeightMm;
     scale := scale;
     imageContentH := imageContentH |}.

Definition scaledHeight (g : PageGeometry) : Q := (imgHeightMm g * scale g)%Q.

Definition pagesNeeded (g : PageGeometry) : Z :=
  Js.ceil (scaledHeight g / imageContentH g).

(** Source pixels that fill one page's image area. *)
Definition contentHPx (g : PageGeometry) : Q :=
  ((imageContentH g / scale g / imgHeightMm g) * inject_Z (canvas_height g))%Q.

(** Step 1: the nominal bottom edge of page [page]. *)
Definition nominalEndY (g : PageGeometry) (page : Z) : Z :=
  let sourceEndMm :=
    Qmin (inject_Z (page + 1) * imageContentH g / scale g) (imgHeightMm g) in
  Z.min (Js.round ((sourceEndMm / imgHeightMm g) * inject_Z (canvas_height g)))
        (canvas_height g).

(** [dist < bestDist], where [bestDist] starts as [Infinity]. *)
Definition closer (dist : Q) (bestDist : option Q) : bool :=
  match bestDist with
  | None => true
  | Some best => Js.ltb dist best
  end.

(** Pass 1: bands at or after [nominalEndY]; returns [(bestDist, bestBandForPage)]. *)
Fixpoint pass1 (allBands : list Band) (prevCutY nominalEndY : Z) (contentHPx : Q)
         (bestDist : option Q) (bestBandForPage : option Band)
  : option Q * option Band :=
  match allBands with
  | [] => (bestDist, bestBandForPage)
  | band :: rest =>
      if end_ band <=? prevCutY then
        pass1 rest prevCutY nominalEndY contentHPx bestDist bestBandForPage
      else if Js.ltb (centre band) (inject_Z nominalEndY) then
        pass1 rest prevCutY nominalEndY contentHPx bestDist bestBandForPage
      else
        let dist := (centre band - inject_Z nominalEndY)%Q in
        let '(bestDist, bestBandForPage) :=
          if closer dist bestDist then (Some dist, Some band)
          else (bestDist, bestBandForPage) in
        if Js.ltb (contentHPx * (1 # 2)) dist then (bestDist, bestBandForPage)
        else pass1 rest prevCutY nominalEndY contentHPx bestDist bestBandForPage
  end.

(** Pass 2: bands before [nominalEndY]. *)
Fixpoint pass2 (allBands : list Band) (prevCutY nominalEndY : Z)
         (bestDist : option Q) (bestBandForPage : option Band)
  : option Q * option Band :=
  match allBands with
  | [] => (bestDist, bestBandForPage)
  | band :: rest =>
      if end_ band <=? prevCutY then
        pass2 rest prevCutY nominalEndY bestDist bestBandForPage
      else if Qle_bool (inject_Z nominalEndY) (centre band) then
        pass2 rest prevCutY nominalEndY bestDist bestBandForPage
      else
        let dist := (inject_Z nominalEndY - centre band)%Q in
        if closer dist bestDist then
          pass2 rest prevCutY nominalEndY (Some dist) (Some band)
        else pass2 rest prevCutY nominalEndY bestDist bestBandForPage
  end.

(** Step 2: [(refinedEndY, useOverlap, bestBandForPage)]. *)
Definition selectCut (g : PageGeometry) (allBands : option (list Band))
           (page prevCutY : Z) : Z * bool * option Band :=
  let nominalEndY := nominalEndY g page in
  match allBands with
  | Some bands =>
      if page <? pagesNeeded g - 1 then
        let bestBandForPage :=
          match snd (pass1 bands prevCutY nominalEndY (contentHPx g) None None) with
          | Some band => Some band
          | None => snd (pass2 bands prevCutY nominalEndY None None)
          end in
        match bestBandForPage with
        | Some band => (start band, false, Some band)
        | None => (nominalEndY, true, None)
        end
      else (nominalEndY, false, None)
  | None => (nominalEndY, false, None)
  end.

(** One exported page: the source rectangle drawn into the slice canvas,
    whether it backs up by the overlap, the band that was consumed, and
    [nextCutY], the value Step 6 assigns to [prevCutY]. *)
Record PageSlice : Type := {
  srcY : Z;
  srcH : Z;
  usedOverlap : bool;
  consumedBand : option Band;
  nextCutY : Z
}.

(** The slice height before the safety guard: [refinedEndY - srcY] of Step 3. *)
Definition refinedHeight (refinedEndY : Z) (useOverlap : bool) (prevCutY : Z) : Z :=
  let srcY := if useOverlap && (0 <? prevCutY) then Z.max 0 (prevCutY - OVERLAP_PX)
              else prevCutY in
  refinedEndY - srcY.

(** Steps 2, 3 and 6 for one page. *)
Definition pageStep (g : PageGeometry) (allBands : option (list Band))
           (page prevCutY : Z) : PageSlice :=
  let '(refinedEndY, useOverlap, bestBandForPage) :=
    selectCut g allBands page prevCutY in
  let srcY := if useOverlap && (0 <? prevCutY) then Z.max 0 (prevCutY - OVERLAP_PX)
              else prevCutY in
  let srcH := refinedEndY - srcY in
  let '(srcY, refinedEndY, srcH, useOverlap, bestBandForPage) :=
    if Js.ltb (inject_Z srcH) (contentHPx g * (5 # 100)) then
      let refinedEndY :=
        Z.min (prevCutY + Js.round (contentHPx g)) (canvas_height g) in
      (prevCutY, refinedEndY, refinedEndY - prevCutY, false, None)
    else (srcY, refinedEndY, srcH, useOverlap, bestBandForPage) in
  let srcH := Z.max 1 (Z.min srcH (Js.round (contentHPx g))) in
  {| srcY := srcY;
     srcH := srcH;
     usedOverlap := useOverlap;
     consumedBand := bestBandForPage;
     nextCutY := match bestBandForPage with
                 | Some band => end_ band + 1
                 | None => refinedEndY
                 end |}.

(** [for (let page = 0; page < pagesNeeded; page++)], with [n] pages left. *)
Fixpoint pageLoop (n : nat) (g : PageGeometry) (allBands : option (list Band))
         (page prevCutY : Z) : list PageSlice :=
  match n with
  | O => []
  | S n' =>
      let slice := pageStep g allBands page prevCutY in
      slice :: pageLoop n' g allBands (page + 1) (nextCutY slice)
  end.

Definition paginate (g : PageGeometry) (allBands : option (list Band))
  : list PageSlice :=
  pageLoop (Z.to_nat (pagesNeeded g)) g allBands 0 0.

(** The pages added to the PDF, one slice each. *)
Definition appendCanvasToPagedPdf (ctx : ExportContext) (canvas : SourceCanvas)
           (pageSize : string) : list PageSlice :=
  paginate (pageGeometry ctx canvas pageSize) (readBands canvas).

End Viewer.

(* ================================================================== *)
(** * Vocabulary of the properties and the inputs of the examples *)
(* ================================================================== *)

Section PlannerVocabulary.

Import ServiceWorker.

(** The offsets [y, y + step, ..., y + (n-1) * step]. *)
Fixpoint multiples (n : nat) (y step : Z) : list Z :=
  match n with
  | O => []
  | S n' => y :: multiples n' (y + step) step
  end.

(** The closed form of the plan of a page at least one viewport tall: the
    whole steps, then the clamped final offset when they fall short. *)
Definition planOf (totalHeight viewportHeight : Z) : list Z :=
  let k := totalHeight / viewportHeight in
  multiples (Z.to_nat k) 0 viewportHeight
  ++ (if k * viewportHeight <? totalHeight then [totalHeight - viewportHeight] else []).

(** [y] lies in the window of one of the offsets. *)
Definition covered (viewportHeight : Z) (offsets : list Z) (y : Z) : Prop :=
  exists p, In p offsets /\ p <= y < p + viewportHeight.

(** The number of iterations of the segment loop. *)
Definition chunkCount (len viewportsPerSegment : nat) : nat :=
  ((len + viewportsPerSegment - 1) / viewportsPerSegment)%nat.

(** The closed form of the segment list: chunk [k] starts at position
    [k * viewportsPerSegment]. *)
Definition segmentsOf (positions : list Z) (viewportHeight totalHeight : Z)
           (viewportsPerSegment : nat) : list Segment :=
  map (fun k => segmentAt positions viewportHeight totalHeight viewportsPerSegment
                          k (k * viewportsPerSegment))
      (seq 0 (chunkCount (length positions) viewportsPerSegment)).

(** The first segment starts at the top of the page and the last one ends at
    its bottom. *)
Definition coversPage (totalHeight : Z) (segments : list Segment) : Prop :=
  (exists s, nth_error segments 0 = Some s /\ startY s = 0)
  /\ (exists s, nth_error segments (length segments - 1) = Some s
                /\ endY s = totalHeight).

(** Consecutive segments leave no gap: each starts where its predecessor
    ends, except that a last segment made of the clamped final offset alone
    starts inside its predecessor, less than one viewport before its end. *)
Definition chained (totalHeight viewportHeight : Z) (segments : list Segment) : Prop :=
  forall k s s',
    nth_error segments k = Some s ->
    nth_error segments (S k) = Some s' ->
    startY s' = endY s
    \/ (S (S k) = length segments
        /\ positions s' = [totalHeight - viewportHeight]
        /\ endY s - viewportHeight < startY s' < endY s).

(** A 1280 x 720 viewport at a device pixel ratio of 1.5. *)
Definition laptopMetrics : Metrics :=
  {| totalHeight := 5000; viewportWidth := 1280;
     viewportHeight := 720; devicePixelRatio := 3 # 2 |}.

Definition laptopStrategy : CaptureStrategy :=
  {| effectiveDpr := 1500 # 1000;
     maxSegmentHeightCss := 10922;
     viewportsPerSegment := 15 |}.

End PlannerVocabulary.

Section StitcherVocabulary.

Import Offscreen.

(** The captures of a segment arrive in increasing scroll order, starting at or
    below the top of the segment; only the very first capture of the page
    carries [isFirst]. *)
Definition inScrollOrder (messages : list StitchMessage) : Prop :=
  match messages with
  | [] => True
  | first :: rest =>
      0 <= yOffset first
      /\ StronglySorted (fun a b => yOffset a < yOffset b) messages
      /\ Forall (fun m => isFirst m = false) rest
  end.

(** A capture of a segment stitched at scale [canvasScale]: it has the
    segment's viewport height and its image loads with more than half as many
    rows as its window on the canvas. *)
Definition segmentCapture (canvasScale : Q) (viewportHeightCss : Z)
           (m : StitchMessage) : Prop :=
  viewportHeight m = viewportHeightCss
  /\ exists img,
      dataUrl m = Some img
      /\ Js.round (inject_Z viewportHeightCss * canvasScale) < 2 * naturalHeight img.

(** The captures processed so far end at [bottom]: the window of the latest
    one ends there and no earlier one starts later. *)
Definition windowsEndAt (canvasScale : Q) (drawHeight : Z)
           (processed : list StitchMessage) (bottom : Z) : Prop :=
  (exists m, In m processed /\ drawYOf canvasScale m = bottom - drawHeight)
  /\ (forall m, In m processed -> drawYOf canvasScale m <= bottom - drawHeight).

(** Each row has been written by the first processed capture covering it,
    and by no other. *)
Definition writtenByFirst (canvasScale : Q) (processed : list StitchMessage)
           (calls : list DrawCall) : Prop :=
  forall row,
    map issuedBy (writersOf row calls)
    = match find (inWindow canvasScale row) processed with
      | Some m => [m]
      | None => []
      end.

(** Two captures of a 1000-pixel viewport at offsets 0 and 500, stitched into
    a segment of 1500 pixels at scale 1. *)
Definition captureAt (offset : Z) (first : bool) : StitchMessage :=
  {| dataUrl := Some {| naturalWidth := 100; naturalHeight := 1000 |};
     yOffset := offset;
     viewportHeight := 1000;
     totalHeight := 1500;
     isFirst := first;
     isLast := negb first |}.

Definition preparedSegment : Document :=
  {| canvas := Some {| width := 100; height := 1500;
                       lastDrawnBottomY := 0; drawn := [] |};
     canvasStrategy := Some {| scale := Qmax (1 # 2) 1;
                               canvasWidth := 100; canvasHeight := 1500 |} |}.

(** Two captures of the same viewport one pixel apart, whose images have only
    400 rows, stitched into a segment of 1001 pixels at scale 1. *)
Definition lowResolutionCaptureAt (offset : Z) (first : bool) : StitchMessage :=
  {| dataUrl := Some {| naturalWidth := 40; naturalHeight := 400 |};
     yOffset := offset;
     viewportHeight := 1000;
     totalHeight := 1001;
     isFirst := first;
     isLast := negb first |}.

Definition preparedOddSegment : Document :=
  {| canvas := Some {| width := 100; height := 1001;
                       lastDrawnBottomY := 0; drawn := [] |};
     canvasStrategy := Some {| scale := Qmax (1 # 2) 1;
                               canvasWidth := 100; canvasHeight := 1001 |} |}.

End StitcherVocabulary.

Section PaginatorVocabulary.

Import Viewer.

(** [prevCutY] at the start of page [k]. *)
Fixpoint prevCutYAt (g : PageGeometry) (allBands : option (list Band)) (k : nat) : Z :=
  match k with
  | O => 0
  | S k' => nextCutY (pageStep g allBands (Z.of_nat k') (prevCutYAt g allBands k'))
  end.

(** The band object that [findAllWhitespaceBands] pushes for the rows
    [first] to [last]. *)
Definition bandAt (first last : Z) : Band :=
  {| start := first; end_ := last;
     centre := (inject_Z (first + last) / 2)%Q;
     width := last - first + 1 |}.

(** The geometry of the regression scenario: a raster of 1000 rows at one
    millimetre per row and pages of 500 millimetres, hence of 500 rows. *)
Definition regressionGeometry : PageGeometry :=
  {| canvas_height := 1000; imgHeightMm := 1000; scale := 1; imageContentH := 500 |}.

(** An export at a device pixel ratio of 1, without footer. *)
Definition plainContext : ExportContext :=
  {| windowDevicePixelRatio := 1; footerLines := [] |}.

(** The geometry of such an export on A4 for a raster [width] x [height]; a
    raster 380 pixels wide gets pages of 554 source rows. *)
Definition a4Geometry (width height : Z) : PageGeometry :=
  pageGeometry plainContext
               {| canvasWidth := width; canvasHeight := height; getImageData := None |}
               "a4".

(** A raster 380 x 2000 whose pixels cannot be read. *)
Definition taintedCanvas : SourceCanvas :=
  {| canvasWidth := 380; canvasHeight := 2000; getImageData := None |}.

(** The bands lie above the bottom of the raster. *)
Definition bandsWithin (g : PageGeometry) (allBands : option (list Band)) : Prop :=
  match allBands with
  | None => True
  | Some bands => Forall (fun band => end_ band < canvas_height g) bands
  end.






End PaginatorVocabulary.

(* ================================================================== *)
(** * background/service-worker.js: the capture flow *)
(* ================================================================== *)

Module CaptureFlow.

Import ServiceWorker.

(** ** captureFullPage: the plan *)

(** [positions], [strategy] and [segments] as [captureFullPage] computes them
    from the metrics of the content script.  [None] when a loop runs out of
    fuel; a [Throw] is the error of [computeCaptureStrategy]. *)
Record CapturePlan : Type := {
  plannedPositions : list Z;
  plannedStrategy : CaptureStrategy;
  plannedSegments : list Segment
}.

Definition planCapture (fuel : nat) (metrics : Metrics)
  : option (Js.completion CapturePlan) :=
  match calculateScrollPositions fuel (totalHeight metrics) (viewportHeight metrics) with
  | None => None
  | Some positions =>
      match computeCaptureStrategy metrics with
      | Js.Throw msg => Some (Js.Throw msg)
      | Js.Return strategy =>
          match buildCaptureSegments fuel positions (viewportHeight metrics)
                                     (totalHeight metrics)
                                     (Z.to_nat (viewportsPerSegment strategy)) with
          | None => None
          | Some segments =>
              Some (Js.Return {| plannedPositions := positions;
                                 plannedStrategy := strategy;
                                 plannedSegments := segments |})
          end
      end
  end.

(** ** captureFullPage: the messages of one segment *)

(** The STITCH_VIEWPORT message of iteration [i] of the inner loop.
    [decoded globalIndex] is what the offscreen document makes of the
    screenshot taken at that position. *)
Definition stitchMessageAt (metrics : Metrics) (positionsLength : nat)
           (decoded : nat -> option Offscreen.Image) (segment : Segment) (i : nat)
  : Offscreen.StitchMessage :=
  let globalIndex := (startPositionIndex segment + i)%nat in
  {| Offscreen.dataUrl := decoded globalIndex;
     Offscreen.yOffset := nth i (positions segment) 0 - startY segment;
     Offscreen.viewportHeight := viewportHeight metrics;
     Offscreen.totalHeight := height segment;
     Offscreen.isFirst := (globalIndex =? 0)%nat;
     Offscreen.isLast := (globalIndex =? positionsLength - 1)%nat |}.

(** [for (let i = 0; i < segment.positions.length; i++)]: one message per
    position of the segment. *)
Definition stitchMessagesOf (metrics : Metrics) (positionsLength : nat)
           (decoded : nat -> option Offscreen.Image) (segment : Segment)
  : list Offscreen.StitchMessage :=
  map (stitchMessageAt metrics positionsLength decoded segment)
      (seq 0 (length (positions segment))).

(** PREPARE_CANVAS followed by the stitches of the segment, each awaited
    before the next; the error of the preparation is rethrown with a prefix. *)
Definition stitchSegment (metrics : Metrics) (strategy : CaptureStrategy)
           (positionsLength : nat) (decoded : nat -> option Offscreen.Image)
           (segment : Segment) : Js.completion Offscreen.Document :=
  match Offscreen.prepareCanvas (viewportWidth metrics) (height segment)
                                (effectiveDpr strategy) with
  | Js.Throw msg => Js.Throw ("Canvas preparation failed: " ++ msg)%string
  | Js.Return doc =>
      Offscreen.stitchAll doc
        (stitchMessagesOf metrics positionsLength decoded segment)
  end.

End CaptureFlow.

Section CaptureFlowVocabulary.

(** The [j]-th planned offset: [j] viewports down, clamped to the last full
    viewport of the page. *)
Definition offsetAt (totalHeight viewportHeight : Z) (j : nat) : Z :=
  Z.max 0 (Z.min (Z.of_nat j * viewportHeight) (totalHeight - viewportHeight)).

(** Consecutive entries are at most [step] apart. *)
Definition stepsWithin (step : Z) (l : list Z) : Prop :=
  forall j, (S j < length l)%nat -> nth (S j) l 0 <= nth j l 0 + step.

(** The code computes its scale factors and their products in binary64
    and rounds them with [Math.round]; here they are computed exactly.  The
    two agree on a product that is not halfway between two integers, or
    whose factors and value are binary64 numbers.  [atTie x]: [x] lies
    halfway between two integers. *)
Definition atTie (x : Q) : bool :=
  Qeq_bool (x - inject_Z (Qfloor x)) (1 # 2).

(** [x] is at least a thousandth away from every such point. *)
Definition clearOfTies (x : Q) : bool :=
  Qle_bool (1 # 1000) (Qabs (x - inject_Z (Qfloor x) - (1 # 2))).

(** A ratio that is a whole number of eighths is a binary64 number, and so
    are its products with the row numbers of a page. *)
Definition binaryRatio (e : Q) : bool :=
  Qeq_bool (inject_Z (Qfloor (e * 8))) (e * 8).

(** The capture of [metrics] at the ratio [e] rounds in binary64 as it does
    here: the ratio itself is rounded away from a tie, and neither the page
    height nor the viewport width maps to a tie unless the ratio is a
    binary64 number. *)
Definition roundsAsComputed (metrics : ServiceWorker.Metrics) (e : Q) : Prop :=
  clearOfTies (ServiceWorker.clampedDpr metrics * 1000) = true
  /\ (binaryRatio e = true
      \/ (atTie (inject_Z (ServiceWorker.totalHeight metrics) * e) = false
          /\ atTie (inject_Z (ServiceWorker.viewportWidth metrics) * e) = false)).

(** A 1280 x 720 viewport at a device pixel ratio of 1.5 on a page of 2500
    pixels; its four positions make one segment. *)
Definition shortPageMetrics : ServiceWorker.Metrics :=
  {| ServiceWorker.totalHeight := 2500; ServiceWorker.viewportWidth := 1280;
     ServiceWorker.viewportHeight := 720;
     ServiceWorker.devicePixelRatio := 3 # 2 |}.

Definition shortPageSegment : ServiceWorker.Segment :=
  {| ServiceWorker.index := 0; ServiceWorker.startPositionIndex := 0;
     ServiceWorker.positions := [0; 720; 1440; 1780];
     ServiceWorker.startY := 0; ServiceWorker.endY := 2500;
     ServiceWorker.height := 2500 |}.

(** Every screenshot decodes to an image at the native resolution. *)
Definition nativeScreenshot (globalIndex : nat) : option Offscreen.Image :=
  Some {| Offscreen.naturalWidth := 1920; Offscreen.naturalHeight := 1080 |}.

(** The canvas prepared for a segment of 2500 pixels of a viewport 1280
    pixels wide at the ratio 1.5. *)
Definition laptopSegmentCanvas : Offscreen.Document :=
  {| Offscreen.canvas :=
       Some {| Offscreen.width := 1920; Offscreen.height := 3750;
               Offscreen.lastDrawnBottomY := 0; Offscreen.drawn := [] |};
     Offscreen.canvasStrategy :=
       Some {| Offscreen.scale := 1500 # 1000;
               Offscreen.canvasWidth := 1920;
               Offscreen.canvasHeight := 3750 |} |}.

End CaptureFlowVocabulary.

Section BandVocabulary.

Import Viewer.

(** [rowScores[r] < blankThreshold]; a row outside the array is not blank. *)
Definition blankRow (rowScores : list Q) (blankThreshold : Q) (r : Z) : bool :=
  match nth_error rowScores (Z.to_nat r) with
  | Some score => (0 <=? r) && Js.ltb score blankThreshold
  | None => false
  end.

(** The rows of the band are blank rows of the scan [fromY..toY], and the
    band cannot be extended at either end. *)
Definition maximalBlankRun (rowScores : list Q) (fromY toY : Z) (blankThreshold : Q)
           (band : Band) : Prop :=
  fromY <= start band <= end_ band /\ end_ band <= toY
  /\ (forall r, start band <= r <= end_ band ->
        blankRow rowScores blankThreshold r = true)
  /\ (start band = fromY
      \/ blankRow rowScores blankThreshold (start band - 1) = false)
  /\ (end_ band = toY
      \/ blankRow rowScores blankThreshold (end_ band + 1) = false).

(** At least one row lies between the two bands. *)
Definition bandsApart (a b : Band) : Prop := end_ a + 1 < start b.

(** Seven rows: two blank, one inked, three blank, one inked. *)
Definition sevenRowScores : list Q := [0; 0; 50; 0; 0; 0; 50]%Q.

(** A raster [width] x [height] of one flat colour: every pixel has the
    bytes [red], [green], [blue], [alpha], in the order of [ImageData]. *)
Definition uniformRaster (width height red green blue alpha : Z) : SourceCanvas :=
  {| canvasWidth := width; canvasHeight := height;
     getImageData :=
       Some (concat (repeat [red; green; blue; alpha]
                            (Z.to_nat (width * height)))) |}.

End BandVocabulary.

(* ================================================================== *)
(** * The viewer: assembling the paged PDF *)
(* ================================================================== *)

Module PdfExport.

Import Viewer.

(** One [pdf.addImage(data, 'JPEG', x, y, w, h)]: the slice that was drawn
    into the slice canvas and its rectangle on the page, in millimetres. *)
Record PlacedImage : Type := {
  placedSlice : PageSlice;
  x : Q;
  y : Q;
  w : Q;
  h : Q
}.

(** A jsPDF document: the pages before the current one and the current
    page, each with the images added to it.  A new document has one empty
    page.  The white mask and the footer text of Step 5 are not recorded. *)
Record Pdf : Type := {
  finished : list (list PlacedImage);
  current : list PlacedImage
}.

Definition newPdf : Pdf := {| finished := []; current := [] |}.

Definition addPage (pdf : Pdf) : Pdf :=
  {| finished := finished pdf ++ [current pdf]; current := [] |}.

Definition addImage (pdf : Pdf) (image : PlacedImage) : Pdf :=
  {| finished := finished pdf; current := current pdf ++ [image] |}.

Definition pagesOf (pdf : Pdf) : list (list PlacedImage) :=
  finished pdf ++ [current pdf].

(** Step 4: where the slice goes on its page. *)
Definition placeSlice (ctx : ExportContext) (canvas : SourceCanvas)
           (pageSize : string) (slice : PageSlice) : PlacedImage :=
  let pageDims : Q * Q :=
    if String.eqb pageSize "a4" then (210, 297)%Q
    else (2159 # 10, 2794 # 10)%Q in
  let g := pageGeometry ctx canvas pageSize in
  let contentW := (fst pageDims - 2 * margin)%Q in
  let drawHeightMm :=
    ((inject_Z (srcH slice) / inject_Z (canvasHeight canvas))
     * imgHeightMm g * scale g)%Q in
  {| placedSlice := slice;
     x := margin; y := margin; w := contentW; h := drawHeightMm |}.

(** The page loop as the document sees it: [if (!isFirstPage) pdf.addPage()],
    [pdf.addImage(...)], [isFirstPage = false]. *)
Fixpoint addSlices (pdf : Pdf) (isFirstPage : bool) (images : list PlacedImage)
  : Pdf * bool :=
  match images with
  | [] => (pdf, isFirstPage)
  | image :: rest =>
      let pdf := if isFirstPage then pdf else addPage pdf in
      addSlices (addImage pdf image) false rest
  end.

(** The images of one raster, in page order. *)
Definition pageImagesOf (ctx : ExportContext) (canvas : SourceCanvas)
           (pageSize : string) : list PlacedImage :=
  map (placeSlice ctx canvas pageSize) (appendCanvasToPagedPdf ctx canvas pageSize).

(** [appendCanvasToPagedPdf(pdf, canvas, pageSize, isFirstPage)] with its
    effect on [pdf] and the flag it returns. *)
Definition appendCanvasToPagedPdfInto (ctx : ExportContext) (pdf : Pdf)
           (canvas : SourceCanvas) (pageSize : string) (isFirstPage : bool)
  : Pdf * bool :=
  addSlices pdf isFirstPage (pageImagesOf ctx canvas pageSize).

(** [savePagedMultipartPdf]: [canvases] are the rasters that
    [getCanvasForSegment] returns for the segments, in order. *)
Definition savePagedMultipartPdf (ctx : ExportContext)
           (canvases : list SourceCanvas) (pageSize : string) : Pdf :=
  fst (fold_left
         (fun (state : Pdf * bool) canvas =>
            appendCanvasToPagedPdfInto ctx (fst state) canvas pageSize (snd state))
         canvases (newPdf, true)).


End PdfExport.

Section PdfVocabulary.

Import Viewer.

(** A second raster, 380 x 700, whose pixels cannot be read. *)
Definition shortTaintedCanvas : SourceCanvas :=
  {| canvasWidth := 380; canvasHeight := 700; getImageData := None |}.

End PdfVocabulary.

(* ================================================================== *)
(** * shared/constants.js: the capture store *)
(* ================================================================== *)

Module CaptureStore.

(** What a stored blob is the PNG of: the stitched canvas of a segment, or
    the screenshot of the visible area. *)
Inductive Blob : Type :=
| CanvasPng (canvas : Offscreen.Canvas)
| ScreenshotPng (image : Offscreen.Image).

(** A row of the [captures] object store; the fields a capture of the
    visible area leaves out are [None]. *)
Record CaptureMeta : Type := {
  captureId : string;
  createdAt : Z;
  updatedAt : Z;
  url : string;
  title : string;
  mode : string;
  segmentCount : Z;
  width : Z;
  totalHeight : Z;
  cssTotalHeight : option Z;
  viewportHeight : option Z;
  devicePixelRatio : Q;
  originalDevicePixelRatio : option Q;
  warnings : list string
}.

(** A row of the [segments] object store, with key
    [[captureId, index]]. *)
Record SegmentRow : Type := {
  segmentCaptureId : string;
  segmentIndex : Z;
  segmentBlob : Blob;
  segmentWidth : Z;
  segmentHeight : Z;
  segmentYStart : Z;
  segmentYEnd : Z
}.

(** The database: the two object stores and the row of the [state] store
    under the key [pendingCaptureId] ([None] when the row is missing, else
    its [value], which may be [null]).  Requests of IndexedDB do not fail
    in this model. *)
Record Store : Type := {
  captures : list CaptureMeta;
  segments : list SegmentRow;
  pendingRow : option (option string)
}.

Definition emptyStore : Store :=
  {| captures := []; segments := []; pendingRow := None |}.

(** A non-empty string is truthy; [captureId || null]. *)
Definition truthy (s : string) : bool := negb (String.eqb s "").

Definition orNull (captureId : option string) : option string :=
  match captureId with
  | Some id => if truthy id then Some id else None
  | None => None
  end.

Definition hasCaptureId (id : string) (meta : CaptureMeta) : bool :=
  String.eqb (captureId meta) id.

Definition ofCapture (id : string) (row : SegmentRow) : bool :=
  String.eqb (segmentCaptureId row) id.

Definition hasKey (id : string) (index : Z) (row : SegmentRow) : bool :=
  ofCapture id row && (segmentIndex row =? index).


Definition getCaptureMeta (store : Store) (id : string) : option CaptureMeta :=
  find (hasCaptureId id) (captures store).


Definition getCaptureSegment (store : Store) (id : string) (index : Z)
  : option SegmentRow :=
  find (hasKey id index) (segments store).

(** [.sort((a, b) => a.index - b.index)]. *)
Fixpoint insertByIndex (row : SegmentRow) (sorted : list SegmentRow)
  : list SegmentRow :=
  match sorted with
  | [] => [row]
  | next :: rest =>
      if segmentIndex row <=? segmentIndex next then row :: sorted
      else next :: insertByIndex row rest
  end.

Definition listCaptureSegments (store : Store) (id : string) : list SegmentRow :=
  fold_right insertByIndex [] (filter (ofCapture id) (segments store)).

Definition setPendingCaptureId (store : Store) (captureId : option string) : Store :=
  {| captures := captures store;
     segments := segments store;
     pendingRow := Some (orNull captureId) |}.

(** [row?.value || null]. *)
Definition getPendingCaptureId (store : Store) : option string :=
  match pendingRow store with
  | Some value => orNull value
  | None => None
  end.

(** One transaction: the metadata row, every segment row of the capture,
    and the pending id when it is this capture. *)
Definition deleteCapture (store : Store) (id : string) : Store :=
  {| captures := filter (fun m => negb (hasCaptureId id m)) (captures store);
     segments := filter (fun row => negb (ofCapture id row)) (segments store);
     pendingRow :=
       match pendingRow store with
       | Some (Some value) =>
           if String.eqb value id then Some None else pendingRow store
       | other => other
       end |}.

End CaptureStore.

(* ================================================================== *)
(** * The offscreen document: storing the stitched segment *)
(* ================================================================== *)

Module OffscreenStore.

Import CaptureStore.



End OffscreenStore.

(* ================================================================== *)
(** * background/service-worker.js: the stored captures *)
(* ================================================================== *)

Module Worker.

Import CaptureStore.

(** [Number(z)] in a template literal. *)
Definition decimal (z : Z) : string := NilZero.string_of_int (Z.to_int z).

(** A reply to a runtime message: a value or [{ error }]. *)
Inductive reply (A : Type) : Type :=
| Reply (a : A)
| ErrorReply (error : string).
Arguments Reply {A} a.
Arguments ErrorReply {A} error.

(** The state the worker keeps between messages: the global
    [pendingCaptureId], the capture store and [chrome.storage.session]
    ([None] where it is unavailable and every call throws, else the value
    under its pending-capture key). *)
Record State : Type := {
  pendingCaptureId : option string;
  store : Store;
  session : option (option string)
}.

Definition setPendingCapture (w : State) (captureId : option string) : State :=
  let pending := orNull captureId in
  {| pendingCaptureId := pending;
     store := setPendingCaptureId (store w) pending;
     session := match session w with
                | Some _ => Some pending
                | None => None
                end |}.

Definition readPendingCaptureId (w : State) : State * option string :=
  match orNull (pendingCaptureId w) with
  | Some pending => (w, Some pending)
  | None =>
      match getPendingCaptureId (store w) with
      | Some persisted =>
          ({| pendingCaptureId := Some persisted;
              store := store w; session := session w |}, Some persisted)
      | None =>
          match session w with
          | Some value =>
              let pending := orNull value in
              ({| pendingCaptureId := pending;
                  store := match pending with
                           | Some _ => setPendingCaptureId (store w) pending
                           | None => store w
                           end;
                  session := session w |}, pending)
          | None =>
              ({| pendingCaptureId := None;
                  store := store w; session := session w |}, None)
          end
      end
  end.

Definition getPendingCapture (w : State) : State * reply string :=
  let '(w, captureId) := readPendingCaptureId w in
  match captureId with
  | None => (w, ErrorReply "No screenshot available")
  | Some captureId => (w, Reply captureId)
  end.

(** [captureId || (await readPendingCaptureId())]. *)
Definition resolveCaptureId (w : State) (captureId : option string)
  : State * option string :=
  match orNull captureId with
  | Some captureId => (w, Some captureId)
  | None => readPendingCaptureId w
  end.

Definition getCaptureMeta (w : State) (captureId : option string)
  : State * reply CaptureMeta :=
  let '(w, resolvedCaptureId) := resolveCaptureId w captureId in
  match resolvedCaptureId with
  | None => (w, ErrorReply "No capture selected")
  | Some resolvedCaptureId =>
      match CaptureStore.getCaptureMeta (store w) resolvedCaptureId with
      | None => (w, ErrorReply "Capture metadata not found")
      | Some meta => (w, Reply meta)
      end
  end.

(** The reply of [getCaptureSegment]; [dataUrl] stands for the data URL
    of the blob. *)
Record SegmentReply : Type := {
  captureId : string;
  index : Z;
  width : Z;
  height : Z;
  yStart : Z;
  yEnd : Z;
  dataUrl : Blob
}.

(** [index] is [None] when the message carries no integer. *)
Definition getCaptureSegment (w : State) (captureId : option string)
           (index : option Z) : State * reply SegmentReply :=
  let '(w, resolvedCaptureId) := resolveCaptureId w captureId in
  let resolvedIndex := match index with Some index => index | None => 0 end in
  match resolvedCaptureId with
  | None => (w, ErrorReply "No capture selected")
  | Some resolvedCaptureId =>
      match CaptureStore.getCaptureSegment (store w) resolvedCaptureId
                                           resolvedIndex with
      | None =>
          (w, ErrorReply ("Capture segment " ++ decimal resolvedIndex
                          ++ " not found"))
      | Some segment =>
          (w, Reply {| captureId := resolvedCaptureId;
                       index := resolvedIndex;
                       width := segmentWidth segment;
                       height := segmentHeight segment;
                       yStart := segmentYStart segment;
                       yEnd := segmentYEnd segment;
                       dataUrl := segmentBlob segment |})
      end
  end.

Definition deleteCapture (w : State) (captureId : option string)
  : State * reply unit :=
  match orNull captureId with
  | None => (w, ErrorReply "captureId is required")
  | Some captureId =>
      let w := {| pendingCaptureId := pendingCaptureId w;
                  store := CaptureStore.deleteCapture (store w) captureId;
                  session := session w |} in
      let '(w, currentPending) := readPendingCaptureId w in
      let w :=
        match currentPending with
        | Some pending =>
            if String.eqb pending captureId then setPendingCapture w None else w
        | None => w
        end in
      (w, Reply tt)
  end.

End Worker.

(* ================================================================== *)
(** * background/service-worker.js: captureFullPage *)
(* ================================================================== *)

Module FullPageCapture.

Import ServiceWorker CaptureFlow CaptureStore.

(** What the tab and the browser answer during a capture.
    [ensureOffscreenDocument] is the outcome of creating the offscreen
    document, [scrollTo] the reply to SCROLL_TO at a global position index,
    [captureWithRetry] the screenshot taken there (an error when the capture
    fails after its retries, else what the offscreen document decodes from
    the data URL), [persistPendingId] the outcome of the store transaction
    awaited in [setPendingCapture] and [createViewerTab] the outcome of
    [chrome.tabs.create] for the viewer.  Runtime messages to the offscreen
    document are delivered and answered, and the store transactions that
    write and delete rows do not fail. *)
Record Tab : Type := {
  tabUrl : string;
  tabTitle : string;
  ensureOffscreenDocument : Js.completion unit;
  scrollTo : nat -> Js.completion unit;
  captureWithRetry : nat -> Js.completion (option Offscreen.Image);
  persistPendingId : Js.completion unit;
  createViewerTab : Js.completion unit
}.








End FullPageCapture.

Section StoreVocabulary.

Import CaptureStore.

(** The two stores agree on every capture other than [id]. *)
Definition agreeElsewhere (id : string) (a b : Store) : Prop :=
  filter (fun m => negb (hasCaptureId id m)) (captures a)
  = filter (fun m => negb (hasCaptureId id m)) (captures b)
  /\ filter (fun row => negb (ofCapture id row)) (segments a)
     = filter (fun row => negb (ofCapture id row)) (segments b).

(** Nothing of the capture [id] is in the store. *)
Definition absent (id : string) (store : Store) : Prop :=
  getCaptureMeta store id = None
  /\ listCaptureSegments store id = []
  /\ (forall index, getCaptureSegment store id index = None).




(** A tab whose third capture fails. *)
Definition flakyTab : FullPageCapture.Tab :=
  {| FullPageCapture.tabUrl := "https://example.org/";
     FullPageCapture.tabTitle := "Example";
     FullPageCapture.ensureOffscreenDocument := Js.Return tt;
     FullPageCapture.scrollTo := fun _ => Js.Return tt;
     FullPageCapture.captureWithRetry := fun globalIndex =>
       if (globalIndex =? 2)%nat then Js.Throw "Tab capture failed"%string
       else Js.Return (nativeScreenshot globalIndex);
     FullPageCapture.persistPendingId := Js.Return tt;
     FullPageCapture.createViewerTab := Js.Return tt |}.


(** A worker that has just started, with an empty store. *)
Definition freshWorker : Worker.State :=
  {| Worker.pendingCaptureId := None;
     Worker.store := emptyStore;
     Worker.session := Some None |}.

End StoreVocabulary.

(* ================================================================== *)
(** * background/service-worker.js: captureWithRetry and blobToDataUrl *)
(* ================================================================== *)

Module Retry.

(** [DEFAULTS.maxRetries] and [DEFAULTS.captureThrottleMs]. *)
Definition maxRetries : nat := 5.
Definition captureThrottleMs : Z := 550.

(** What the function does to the outside, in order. *)
Inductive Event : Type :=
| Delay (ms : Z)
| CaptureVisibleTab.

(** [errMsg.includes(needle)]. *)
Definition includes (needle errMsg : string) : bool :=
  match String.index 0 needle errMsg with
  | Some _ => true
  | None => false
  end.

Definition backoffOf (errMsg : string) (attempt : nat) : Z :=
  let isRateLimit := includes "MAX_CAPTURE_VISIBLE_TAB_CALLS_PER_SECOND" errMsg in
  if isRateLimit then 600 * 2 ^ Z.of_nat attempt
  else 200 * (Z.of_nat attempt + 1).

(** [for (let attempt = 0; attempt < DEFAULTS.maxRetries; attempt++)], with
    [remaining] iterations left.  [attempts attempt] is the outcome of the
    call to [captureVisibleTab] in that iteration, [timeAt attempt] what
    [Date.now()] answers there.  The result comes with the new
    [lastCaptureTime] and the events so far. *)
Fixpoint retryLoop (attempts : nat -> Js.completion string) (timeAt : nat -> Z)
         (remaining attempt : nat) (lastCaptureTime : Z) (events : list Event)
  : Js.completion string * Z * list Event :=
  match remaining with
  | O => (Js.Throw "Capture failed after retries"%string, lastCaptureTime, events)
  | S remaining' =>
      let lastCaptureTime := timeAt attempt in
      let events := events ++ [CaptureVisibleTab] in
      match attempts attempt with
      | Js.Return dataUrl => (Js.Return dataUrl, lastCaptureTime, events)
      | Js.Throw errMsg =>
          if (attempt <? maxRetries - 1)%nat then
            retryLoop attempts timeAt remaining' (S attempt) lastCaptureTime
                      (events ++ [Delay (backoffOf errMsg attempt)])
          else (Js.Throw errMsg, lastCaptureTime, events)
      end
  end.

(** [now] is [Date.now()] on entry. *)
Definition captureWithRetry (now lastCaptureTime : Z)
           (attempts : nat -> Js.completion string) (timeAt : nat -> Z)
  : Js.completion string * Z * list Event :=
  let elapsed := now - lastCaptureTime in
  let throttle := Js.orZ captureThrottleMs 550 in
  let events := if elapsed <? throttle then [Delay (throttle - elapsed)] else [] in
  retryLoop attempts timeAt maxRetries 0 lastCaptureTime events.

(** The loop of [blobToDataUrl] that builds [binary], as the list of its
    character codes: [bytes.subarray(i, i + chunkSize)] is appended chunk
    by chunk.  One unit of fuel per chunk. *)
Fixpoint binaryLoop (fuel : nat) (bytes : list Z) (chunkSize i : nat)
         (binary : list Z) : option (list Z) :=
  if (i <? length bytes)%nat then
    match fuel with
    | O => None
    | S fuel' =>
        binaryLoop fuel' bytes chunkSize (i + chunkSize)
                   (binary ++ ServiceWorker.slice bytes i (i + chunkSize))
    end
  else Some binary.

Definition chunkSize : nat := Z.to_nat 32768.

Definition binaryOf (fuel : nat) (bytes : list Z) : option (list Z) :=
  binaryLoop fuel bytes chunkSize 0 [].

End Retry.

(* ================================================================== *)
(** * The viewer: zoom *)
(* ================================================================== *)

Module Zoom.

(** The zoom level and the scroll offsets of the container. *)
Record View : Type := {
  zoom : Q;
  scrollLeft : Q;
  scrollTop : Q
}.

(** [zoom = Math.max(0.1, Math.min(5, newZoom))] of [setZoom]. *)
Definition setZoom (view : View) (newZoom : Q) : View :=
  {| zoom := Qmax (1 # 10) (Qmin 5 newZoom);
     scrollLeft := scrollLeft view;
     scrollTop := scrollTop view |}.

(** [getFitZoom]: the image size and the size of the container. *)
Definition getFitZoom (imgWidth imgHeight : Z) (containerWidth containerHeight : Q)
  : Q :=
  if (imgWidth =? 0) || (imgHeight =? 0) then 1%Q
  else
    let availW := Qmax 1 (containerWidth - 40) in
    let availH := Qmax 1 (containerHeight - 40) in
    Qmin (Qmin (availW / inject_Z imgWidth) (availH / inject_Z imgHeight)) 1.

Definition fitToWindow (view : View) (imgWidth imgHeight : Z)
           (containerWidth containerHeight : Q) : View :=
  if (imgWidth =? 0) || (imgHeight =? 0) then view
  else
    let availW := Qmax 1 (containerWidth - 40) in
    let availH := Qmax 1 (containerHeight - 40) in
    let scaleX := (availW / inject_Z imgWidth)%Q in
    let scaleY := (availH / inject_Z imgHeight)%Q in
    setZoom view (Qmin (Qmin scaleX scaleY) 1).

(** The handler of a wheel event with Ctrl or Meta held: the mouse
    position relative to the container and [deltaY]. *)
Definition wheelZoom (view : View) (mouseX mouseY deltaY : Q) : View :=
  let scrollX := scrollLeft view in
  let scrollY := scrollTop view in
  let oldZoom := zoom view in
  let delta := if Js.ltb 0 deltaY then (- (1 # 10))%Q else (1 # 10)%Q in
  let view := setZoom view (zoom view + delta) in
  let zoomRatio := (zoom view / oldZoom)%Q in
  {| zoom := zoom view;
     scrollLeft := (scrollX * zoomRatio + mouseX * (zoomRatio - 1))%Q;
     scrollTop := (scrollY * zoomRatio + mouseY * (zoomRatio - 1))%Q |}.

(** The branch of the click handler that zooms to 100%: the click position
    relative to the container. *)
Definition clickToFullSize (view : View) (mouseX mouseY : Q) : View :=
  let clickX := ((mouseX + scrollLeft view) / zoom view)%Q in
  let clickY := ((mouseY + scrollTop view) / zoom view)%Q in
  let view := setZoom view 1 in
  {| zoom := zoom view;
     scrollLeft := (clickX - mouseX)%Q;
     scrollTop := (clickY - mouseY)%Q |}.

End Zoom.

Section RetryAndZoomVocabulary.

(** The image coordinate shown at the container position [mouse] when the
    container is scrolled by [scroll] at the zoom level of the view. *)
Definition imageAt (zoomLevel scroll mouse : Q) : Q := ((scroll + mouse) / zoomLevel)%Q.

Definition halfZoomView : Zoom.View :=
  {| Zoom.zoom := 1 # 2; Zoom.scrollLeft := 120; Zoom.scrollTop := 300 |}.

(** The first capture is rate limited, the second fails otherwise, the
    third succeeds. *)
Definition thirdTimeLucky (attempt : nat) : Js.completion string :=
  match attempt with
  | O => Js.Throw "MAX_CAPTURE_VISIBLE_TAB_CALLS_PER_SECOND exceeded"%string
  | S O => Js.Throw "Tab is busy"%string
  | _ => Js.Return "data:image/png;base64,AAAA"%string
  end.

(** The sum of the backoff delays among the events, and the number of
    captures. *)
Fixpoint delaysOf (events : list Retry.Event) : Z :=
  match events with
  | [] => 0
  | Retry.Delay ms :: rest => ms + delaysOf rest
  | Retry.CaptureVisibleTab :: rest => delaysOf rest
  end.

Fixpoint capturesOf (events : list Retry.Event) : nat :=
  match events with
  | [] => 0
  | Retry.Delay _ :: rest => capturesOf rest
  | Retry.CaptureVisibleTab :: rest => S (capturesOf rest)
  end.

(** [err.message || ''] of the error an attempt throws. *)
Definition errorOf (attempts : nat -> Js.completion string) (attempt : nat)
  : string :=
  match attempts attempt with
  | Js.Throw errMsg => errMsg
  | Js.Return _ => EmptyString
  end.

(** The wait before the first call: the rest of the throttle gap, when the
    last capture is less than [captureThrottleMs] ago. *)
Definition throttleWait (now lastCaptureTime : Z) : list Retry.Event :=
  if now - lastCaptureTime <? Retry.captureThrottleMs
  then [Retry.Delay (Retry.captureThrottleMs - (now - lastCaptureTime))]
  else [].

(** The calls [first] to [last]: each but the last is followed by the
    backoff for its error. *)
Definition callsBetween (attempts : nat -> Js.completion string)
           (first last : nat) : list Retry.Event :=
  flat_map (fun attempt =>
              [Retry.CaptureVisibleTab;
               Retry.Delay (Retry.backoffOf (errorOf attempts attempt) attempt)])
           (seq first (last - first))
  ++ [Retry.CaptureVisibleTab].

Definition callsUpTo (attempts : nat -> Js.completion string) (last : nat)
  : list Retry.Event :=
  callsBetween attempts 0 last.

(** The first attempt below [n], from [attempt] on, that returns. *)
Fixpoint firstSuccess (attempts : nat -> Js.completion string) (n attempt : nat)
  : option (nat * string) :=
  match n with
  | O => None
  | S n' =>
      match attempts attempt with
      | Js.Return dataUrl => Some (attempt, dataUrl)
      | Js.Throw _ => firstSuccess attempts n' (S attempt)
      end
  end.

End RetryAndZoomVocabulary.

(* ================================================================== *)
(** * viewer/annotation.js: the annotation engine *)
(* ================================================================== *)

Module Annotation.

(** A point of the canvas, as [_getCanvasPoint] gives it. *)
Record Point : Type := {
  x : Q;
  y : Q
}.

Inductive Tool : Type := Draw | Highlight | Arrow | Blur | Text.

(** The objects pushed on [actions]. *)
Inductive Action : Type :=
| DrawAction (path : list Point) (color : string) (strokeWidth : Z)
| HighlightAction (path : list Point) (color : string) (strokeWidth : Z)
| ArrowAction (start end_ : Point) (color : string) (strokeWidth : Z)
| BlurAction (start end_ : Point) (intensity : Z)
| TextAction (text : string) (position : Point) (color : string) (fontSize : Z).

(** [this.textInput]; [trimmedValue] is [textarea.value.trim()]. *)
Record TextInput : Type := {
  point : Point;
  inputColor : string;
  fontSize : Z;
  trimmedValue : string
}.

(** The fields of the engine; [staticLayer] lists the actions rendered on
    the static canvas since it was last cleared, [listening] says whether
    the window listeners for mousemove and mouseup are attached. *)
Record Engine : Type := {
  actions : list Action;
  redoStack : list Action;
  currentTool : option Tool;
  color : string;
  strokeWidth : Z;
  isDrawing : bool;
  currentPath : list Point;
  startPoint : option Point;
  textInput : option TextInput;
  lastPreviewPoint : option Point;
  staticLayer : list Action;
  listening : bool
}.

(** The constructor. *)
Definition newEngine : Engine :=
  {| actions := []; redoStack := []; currentTool := None;
     color := "#FF3B30"; strokeWidth := 3; isDrawing := false;
     currentPath := []; startPoint := None; textInput := None;
     lastPreviewPoint := None; staticLayer := []; listening := false |}.

(** [dx * dx + dy * dy]; [Math.sqrt] of it is at least 2 exactly when it is
    at least 4, and more than 5 exactly when it is more than 25. *)
Definition dist2 (a b : Point) : Q :=
  let dx := (x b - x a)%Q in
  let dy := (y b - y a)%Q in
  (dx * dx + dy * dy)%Q.

(** [this.actions.push(action); this.redoStack = [];
    this._renderToStatic(action)]. *)
Definition commit (e : Engine) (action : Action) : Engine :=
  {| actions := actions e ++ [action]; redoStack := [];
     currentTool := currentTool e; color := color e;
     strokeWidth := strokeWidth e; isDrawing := isDrawing e;
     currentPath := currentPath e; startPoint := startPoint e;
     textInput := textInput e; lastPreviewPoint := lastPreviewPoint e;
     staticLayer := staticLayer e ++ [action]; listening := listening e |}.

Definition withTextInput (e : Engine) (input : option TextInput) : Engine :=
  {| actions := actions e; redoStack := redoStack e;
     currentTool := currentTool e; color := color e;
     strokeWidth := strokeWidth e; isDrawing := isDrawing e;
     currentPath := currentPath e; startPoint := startPoint e;
     textInput := input; lastPreviewPoint := lastPreviewPoint e;
     staticLayer := staticLayer e; listening := listening e |}.

(** The fields a stroke in progress uses. *)
Definition withStroke (e : Engine) (drawing : bool) (path : list Point)
           (start preview : option Point) (attached : bool) : Engine :=
  {| actions := actions e; redoStack := redoStack e;
     currentTool := currentTool e; color := color e;
     strokeWidth := strokeWidth e; isDrawing := drawing;
     currentPath := path; startPoint := start;
     textInput := textInput e; lastPreviewPoint := preview;
     staticLayer := staticLayer e; listening := attached |}.

Definition finishTextInput (e : Engine) : Engine :=
  match textInput e with
  | None => e
  | Some input =>
      let text := trimmedValue input in
      let e :=
        if negb (String.eqb text "") then
          commit e (TextAction text (point input) (inputColor input)
                               (fontSize input))
        else e in
      withTextInput e None
  end.

Definition cancelTextInput (e : Engine) : Engine :=
  match textInput e with
  | None => e
  | Some _ => withTextInput e None
  end.

(** The textarea starts empty. *)
Definition createTextInput (e : Engine) (point : Point) : Engine :=
  let e := finishTextInput e in
  let fontSize := strokeWidth e * 5 + 8 in
  withTextInput e (Some {| point := point; inputColor := color e;
                           fontSize := fontSize; trimmedValue := "" |}).

Definition setTool (e : Engine) (tool : option Tool) : Engine :=
  let e :=
    {| actions := actions e; redoStack := redoStack e;
       currentTool := tool; color := color e;
       strokeWidth := strokeWidth e; isDrawing := isDrawing e;
       currentPath := currentPath e; startPoint := startPoint e;
       textInput := textInput e; lastPreviewPoint := lastPreviewPoint e;
       staticLayer := staticLayer e; listening := listening e |} in
  let e := finishTextInput e in
  withStroke e false [] None (lastPreviewPoint e) (listening e).

Definition setColor (e : Engine) (newColor : string) : Engine :=
  {| actions := actions e; redoStack := redoStack e;
     currentTool := currentTool e; color := newColor;
     strokeWidth := strokeWidth e; isDrawing := isDrawing e;
     currentPath := currentPath e; startPoint := startPoint e;
     textInput := textInput e; lastPreviewPoint := lastPreviewPoint e;
     staticLayer := staticLayer e; listening := listening e |}.

Definition setStrokeWidth (e : Engine) (width : Z) : Engine :=
  {| actions := actions e; redoStack := redoStack e;
     currentTool := currentTool e; color := color e;
     strokeWidth := width; isDrawing := isDrawing e;
     currentPath := currentPath e; startPoint := startPoint e;
     textInput := textInput e; lastPreviewPoint := lastPreviewPoint e;
     staticLayer := staticLayer e; listening := listening e |}.

Definition onMouseDown (e : Engine) (button : Z) (point : Point) : Engine :=
  match currentTool e with
  | None => e
  | Some tool =>
      if negb (button =? 0) then e
      else
        match tool with
        | Draw | Highlight =>
            withStroke e true [point] (startPoint e) (lastPreviewPoint e) true
        | Arrow | Blur =>
            withStroke e true (currentPath e) (Some point) (lastPreviewPoint e)
                       true
        | Text => createTextInput e point
        end
  end.

(** The case of [_onMouseMove] for the draw and highlight tools: a point
    is added only 2 px or more from the last one. *)
Definition extendPath (currentPath : list Point) (point : Point) : list Point :=
  match last (map Some currentPath) None with
  | Some lastPt =>
      if Qle_bool 4 (dist2 lastPt point) then currentPath ++ [point]
      else currentPath
  | None => currentPath ++ [point]
  end.

Definition onMouseMove (e : Engine) (point : Point) : Engine :=
  if negb (isDrawing e) then e
  else
    match currentTool e with
    | None => e
    | Some (Draw | Highlight) =>
        withStroke e (isDrawing e) (extendPath (currentPath e) point)
                   (startPoint e) (lastPreviewPoint e) (listening e)
    | Some (Arrow | Blur) =>
        withStroke e (isDrawing e) (currentPath e) (startPoint e) (Some point)
                   (listening e)
    | Some Text => e
    end.

Definition onMouseUp (e : Engine) (point : Point) : Engine :=
  let e := withStroke e (isDrawing e) (currentPath e) (startPoint e)
                      (lastPreviewPoint e) false in
  if negb (isDrawing e) then e
  else
    match currentTool e with
    | None => e
    | Some tool =>
        let e :=
          match tool with
          | Draw =>
              if (1 <? length (currentPath e))%nat then
                commit e (DrawAction (currentPath e) (color e) (strokeWidth e))
              else e
          | Highlight =>
              if (1 <? length (currentPath e))%nat then
                commit e (HighlightAction (currentPath e) (color e)
                                          (strokeWidth e * 6))
              else e
          | Arrow =>
              match startPoint e with
              | Some start =>
                  if Js.ltb 25 (dist2 start point) then
                    commit e (ArrowAction start point (color e) (strokeWidth e))
                  else e
              | None => e
              end
          | Blur =>
              match startPoint e with
              | Some start =>
                  if Js.ltb 25 (dist2 start point) then
                    commit e (BlurAction start point 15)
                  else e
              | None => e
              end
          | Text => e
          end in
        withStroke e false [] None None (listening e)
    end.

(** [redraw]: the static canvas is cleared and every action rendered
    again. *)
Definition redraw (e : Engine) : Engine :=
  {| actions := actions e; redoStack := redoStack e;
     currentTool := currentTool e; color := color e;
     strokeWidth := strokeWidth e; isDrawing := isDrawing e;
     currentPath := currentPath e; startPoint := startPoint e;
     textInput := textInput e; lastPreviewPoint := lastPreviewPoint e;
     staticLayer := [] ++ actions e; listening := listening e |}.

Definition withStacks (e : Engine) (done undone : list Action) : Engine :=
  {| actions := done; redoStack := undone;
     currentTool := currentTool e; color := color e;
     strokeWidth := strokeWidth e; isDrawing := isDrawing e;
     currentPath := currentPath e; startPoint := startPoint e;
     textInput := textInput e; lastPreviewPoint := lastPreviewPoint e;
     staticLayer := staticLayer e; listening := listening e |}.

(** What [_drawPreviewOnly] draws on the cleared preview canvas. *)
Inductive Preview : Type :=
| DrawPreview (path : list Point) (color : string) (strokeWidth : Z)
| HighlightPreview (path : list Point) (color : string) (strokeWidth : Z)
| ArrowPreview (start end_ : Point) (color : string) (strokeWidth : Z)
| BlurPreview (start end_ : Point).

Definition drawPreviewOnly (e : Engine) : option Preview :=
  match currentTool e with
  | Some Draw =>
      if (1 <? length (currentPath e))%nat
      then Some (DrawPreview (currentPath e) (color e) (strokeWidth e))
      else None
  | Some Highlight =>
      if (1 <? length (currentPath e))%nat
      then Some (HighlightPreview (currentPath e) (color e) (strokeWidth e * 6))
      else None
  | Some Arrow =>
      match startPoint e, lastPreviewPoint e with
      | Some start, Some preview =>
          Some (ArrowPreview start preview (color e) (strokeWidth e))
      | _, _ => None
      end
  | Some Blur =>
      match startPoint e, lastPreviewPoint e with
      | Some start, Some preview => Some (BlurPreview start preview)
      | _, _ => None
      end
  | Some Text | None => None
  end.

(** [pop] takes the last element of the array, [push] appends. *)
Definition undo (e : Engine) : Engine :=
  match rev (actions e) with
  | [] => e
  | popped :: rest => redraw (withStacks e (rev rest) (redoStack e ++ [popped]))
  end.

Definition redo (e : Engine) : Engine :=
  match rev (redoStack e) with
  | [] => e
  | popped :: rest => redraw (withStacks e (actions e ++ [popped]) (rev rest))
  end.

Definition clearAll (e : Engine) : Engine :=
  match actions e with
  | [] => e
  | _ :: _ => redraw (withStacks e [] [])
  end.

Definition hasAnnotations (e : Engine) : bool :=
  (0 <? length (actions e))%nat.

(** What reaches the engine: the toolbar and the shortcuts of the viewer,
    the mouse on the canvas (and on the window while the listeners are
    attached), and the textarea of the text tool. *)
Inductive Event : Type :=
| SetTool (tool : option Tool)
| SetColor (color : string)
| SetStrokeWidth (width : Z)
| MouseDown (button : Z) (point : Point)
| MouseMove (point : Point)
| MouseUp (point : Point)
| TypeText (trimmed : string)
| EnterOrBlur
| Escape
| Undo
| Redo
| ClearAll.

Definition step (e : Engine) (event : Event) : Engine :=
  match event with
  | SetTool tool => setTool e tool
  | SetColor c => setColor e c
  | SetStrokeWidth width => setStrokeWidth e width
  | MouseDown button point => onMouseDown e button point
  | MouseMove point => if listening e then onMouseMove e point else e
  | MouseUp point => if listening e then onMouseUp e point else e
  | TypeText trimmed =>
      match textInput e with
      | Some input =>
          withTextInput e (Some {| point := point input;
                                   inputColor := inputColor input;
                                   fontSize := fontSize input;
                                   trimmedValue := trimmed |})
      | None => e
      end
  | EnterOrBlur => finishTextInput e
  | Escape => cancelTextInput e
  | Undo => undo e
  | Redo => redo e
  | ClearAll => clearAll e
  end.

Definition run (e : Engine) (events : list Event) : Engine :=
  fold_left step events e.

End Annotation.

Section AnnotationVocabulary.

Import Annotation.

(** Consecutive points are at least 2 px apart. *)
Fixpoint spaced (path : list Point) : Prop :=
  match path with
  | a :: (b :: _) as rest => (4 <= dist2 a b)%Q /\ spaced rest
  | _ => True
  end.

(** [a] keeps some of the elements of [b], in their order. *)
Fixpoint subsequence (a b : list Point) : Prop :=
  match a, b with
  | [], _ => True
  | _ :: _, [] => False
  | p :: a', q :: b' => (p = q /\ subsequence a' b') \/ subsequence a b'
  end.

Definition redPen : Engine := setTool newEngine (Some Draw).

End AnnotationVocabulary.

(* ================================================================== *)
(** * The viewer: rendering the slices (Step 4) and the download *)
(* ================================================================== *)

Module PagedPdf.

Import Viewer PdfExport.

(** The canvas as the export receives it: its raster and the origin-clean
    flag of the HTML standard.  A canvas on which an image of another
    origin was drawn is tainted: the flag is cleared, and [getImageData]
    and [toDataURL] throw a SecurityError.  Drawing a tainted canvas into
    another canvas taints that one too.  On an origin-clean canvas
    [getImageData] can still throw (no 2D context, no memory for the
    pixels): [getImageData] of the raster is [None] then. *)
Record ExportCanvas : Type := {
  raster : SourceCanvas;
  originClean : bool
}.

(** What [getImageData] gives the [try] block. *)
Definition readable (canvas : ExportCanvas) : SourceCanvas :=
  {| canvasWidth := canvasWidth (raster canvas);
     canvasHeight := canvasHeight (raster canvas);
     getImageData :=
       if originClean canvas then getImageData (raster canvas) else None |}.

(** The message of the SecurityError, as Chrome words it. *)
Definition taintedExport : string :=
  "Failed to execute 'toDataURL' on 'HTMLCanvasElement': Tainted canvases may not be exported.".

(** [sliceCanvas.toDataURL('image/jpeg', 0.92)] of Step 4, after
    [drawImage] has copied the slice from [canvas] into the slice
    canvas. *)
Definition toDataURL (canvas : ExportCanvas) (image : PlacedImage)
  : Js.completion PlacedImage :=
  if originClean canvas then Js.Return image else Js.Throw taintedExport.

(** The page loop with Step 4: [pdf.addPage()] unless it is the first
    page, the slice canvas and its [toDataURL], [pdf.addImage].  Nothing in
    the loop catches; the document is returned as the loop leaves it, also
    when it throws. *)
Fixpoint renderPages (canvas : ExportCanvas) (pdf : Pdf) (isFirstPage : bool)
         (images : list PlacedImage) : Pdf * Js.completion bool :=
  match images with
  | [] => (pdf, Js.Return isFirstPage)
  | image :: rest =>
      let pdf := if isFirstPage then pdf else addPage pdf in
      match toDataURL canvas image with
      | Js.Throw msg => (pdf, Js.Throw msg)
      | Js.Return data => renderPages canvas (addImage pdf data) false rest
      end
  end.

(** [appendCanvasToPagedPdf(pdf, canvas, pageSize, isFirstPage)] as a
    whole: the [try] block around the pixel analysis, the page loop and
    the exception that may leave it. *)
Definition appendCanvasToPagedPdf (ctx : ExportContext) (pdf : Pdf)
           (canvas : ExportCanvas) (pageSize : string) (isFirstPage : bool)
  : Pdf * Js.completion bool :=
  renderPages canvas pdf isFirstPage
              (pageImagesOf ctx (readable canvas) pageSize).

(** The loop of [savePagedMultipartPdf] over the canvases of the parts,
    up to [pdf.save]. *)
Fixpoint appendAll (ctx : ExportContext) (pdf : Pdf) (isFirstPage : bool)
         (canvases : list ExportCanvas) (pageSize : string)
  : Js.completion Pdf :=
  match canvases with
  | [] => Js.Return pdf
  | canvas :: rest =>
      match appendCanvasToPagedPdf ctx pdf canvas pageSize isFirstPage with
      | (_, Js.Throw msg) => Js.Throw msg
      | (pdf', Js.Return isFirstPage') =>
          appendAll ctx pdf' isFirstPage' rest pageSize
      end
  end.

Definition savePagedMultipartPdf (ctx : ExportContext)
           (canvases : list ExportCanvas) (pageSize : string)
  : Js.completion Pdf :=
  appendAll ctx newPdf true canvases pageSize.



End PagedPdf.

Section RenderingVocabulary.

Import Viewer.


End RenderingVocabulary.

(* ================================================================== *)
(** * ScrollPlanner: properties of [calculateScrollPositions] *)
(* ================================================================== *)

Section ScrollPlanner.

Import ServiceWorker.

Lemma multiples_In n : forall y step p,
  In p (multiples n y step) <->
  exists i, 0 <= i < Z.of_nat n /\ p = y + i * step.
Proof.
  induction n as [|n IH]; intros y step p; simpl.
  - split; [tauto | intros (i & Hi & _); lia].
  - rewrite IH. split.
    + intros [<- | (i & Hi & ->)].
      * exists 0. lia.
      * exists (i + 1). lia.
    + intros (i & Hi & ->).
      destruct (Z.eq_dec i 0) as [-> | Hne]; [left; lia | right].
      exists (i - 1). lia.
Qed.

Lemma multiples_length n y step : length (multiples n y step) = n.
Proof. revert y; induction n; intros; simpl; auto. Qed.

Lemma multiples_nth n : forall y step i,
  (i < n)%nat -> nth i (multiples n y step) 0 = y + Z.of_nat i * step.
Proof.
  induction n as [|n IH]; intros y step i Hi; [lia|].
  destruct i as [|i]; simpl multiples; simpl nth; [lia|].
  rewrite IH by lia. lia.
Qed.

Lemma multiples_sorted n : forall y step,
  0 < step -> StronglySorted Z.lt (multiples n y step).
Proof.
  induction n as [|n IH]; intros y step Hs; simpl; constructor; auto.
  apply Forall_forall. intros p Hp.
  apply multiples_In in Hp. destruct Hp as (i & Hi & ->). nia.
Qed.

Lemma sorted_snoc (l : list Z) (t : Z) :
  StronglySorted Z.lt l -> Forall (fun p => p < t) l ->
  StronglySorted Z.lt (l ++ [t]).
Proof.
  induction 1 as [|a l Hl IH Ha]; intros Hlt; simpl.
  - repeat constructor.
  - inversion Hlt; subst. constructor; auto.
    apply Forall_app; split; auto.
Qed.

(** On a strictly increasing list the [Set] drops nothing ... *)
Lemma setValues_sorted (l : list Z) : forall seen,
  StronglySorted Z.lt l ->
  (forall s p, In s seen -> In p l -> s < p) ->
  setValues seen l = l.
Proof.
  induction l as [|a l IH]; intros seen Hs Hseen; simpl; auto.
  inversion Hs as [|? ? Hl Ha]; subst.
  destruct (existsb (Z.eqb a) seen) eqn:E.
  - apply existsb_exists in E. destruct E as (s & Hin & Heq).
    apply Z.eqb_eq in Heq. subst s.
    specialize (Hseen a a Hin (or_introl eq_refl)). lia.
  - f_equal. apply IH; auto.
    intros s p [<- | Hin] Hp.
    + rewrite Forall_forall in Ha. auto.
    + apply Hseen; simpl; auto.
Qed.

(** ... and the sort moves nothing. *)
Lemma sortAscending_sorted (l : list Z) :
  StronglySorted Z.lt l -> sortAscending l = l.
Proof.
  induction 1 as [|a l Hl IH Ha]; auto.
  unfold sortAscending in *. simpl. rewrite IH.
  destruct l as [|b l]; simpl; auto.
  inversion Ha; subst.
  destruct (a <=? b) eqn:E; auto. apply Z.leb_gt in E. lia.
Qed.

(** The [while] loop makes [n] more iterations when [n] more windows fit. *)
Lemma scrollLoop_run totalHeight viewportHeight (n : nat) :
  forall fuel y positions,
    (n <= fuel)%nat ->
    y + Z.of_nat n * viewportHeight <= totalHeight ->
    totalHeight < y + (Z.of_nat n + 1) * viewportHeight ->
    0 < viewportHeight ->
    scrollLoop fuel totalHeight viewportHeight y positions
    = Some (positions ++ multiples n y viewportHeight,
            y + Z.of_nat n * viewportHeight).
Proof.
  induction n as [|n IH]; intros fuel y positions Hf Hle Hlt Hv.
  - assert (E : (y + viewportHeight <=? totalHeight) = false) by (apply Z.leb_gt; lia).
    destruct fuel; simpl; rewrite E, app_nil_r; do 2 f_equal; lia.
  - destruct fuel as [|fuel]; [lia|].
    rewrite Nat2Z.inj_succ in Hle, Hlt.
    assert (E : (y + viewportHeight <=? totalHeight) = true) by (apply Z.leb_le; nia).
    simpl scrollLoop. rewrite E.
    rewrite IH by nia. rewrite <- app_assoc. cbn [multiples app].
    rewrite Nat2Z.inj_succ. do 2 f_equal. lia.
Qed.

(** With enough fuel the planner returns the closed form. *)
Lemma calculateScrollPositions_planOf totalHeight viewportHeight fuel :
  0 < viewportHeight -> viewportHeight <= totalHeight ->
  (Z.to_nat (totalHeight / viewportHeight) <= fuel)%nat ->
  calculateScrollPositions fuel totalHeight viewportHeight
  = Some (planOf totalHeight viewportHeight).
Proof.
  intros Hv Hle Hf.
  pose proof (Z.div_pos totalHeight viewportHeight ltac:(lia) Hv) as Hk0.
  pose proof (Z.mul_div_le totalHeight viewportHeight Hv) as Hk1.
  pose proof (Z.mul_succ_div_gt totalHeight viewportHeight Hv) as Hk2.
  assert (Hsorted : StronglySorted Z.lt (planOf totalHeight viewportHeight)).
  { unfold planOf. destruct (_ <? _) eqn:E.
    - apply sorted_snoc; [apply multiples_sorted; lia|].
      apply Forall_forall. intros p Hp. apply multiples_In in Hp.
      destruct Hp as (i & Hi & ->). apply Z.ltb_lt in E. nia.
    - rewrite app_nil_r. apply multiples_sorted; lia. }
  unfold calculateScrollPositions.
  destruct (totalHeight <=? viewportHeight) eqn:E.
  - apply Z.leb_le in E. assert (totalHeight = viewportHeight) by lia. subst.
    unfold planOf. rewrite Z.div_same by lia.
    change (Z.to_nat 1) with 1%nat. cbn [multiples app].
    destruct (1 * viewportHeight <? viewportHeight) eqn:E2;
      [apply Z.ltb_lt in E2; lia | reflexivity].
  - rewrite (scrollLoop_run _ _ (Z.to_nat (totalHeight / viewportHeight))) by lia.
    simpl app. replace (0 + _) with (totalHeight / viewportHeight * viewportHeight) by lia.
    match goal with
    | |- Some (sortAscending (setValues [] ?l)) = _ =>
        replace l with (planOf totalHeight viewportHeight)
          by (unfold planOf; destruct (_ <? _); rewrite ?app_nil_r; reflexivity)
    end.
    rewrite setValues_sorted, sortAscending_sorted; auto.
    intros s p Hs. destruct Hs.
Qed.

Lemma planOf_In totalHeight viewportHeight p :
  0 < viewportHeight -> viewportHeight <= totalHeight ->
  In p (planOf totalHeight viewportHeight) <->
  (exists i, 0 <= i < totalHeight / viewportHeight /\ p = i * viewportHeight)
  \/ (totalHeight / viewportHeight * viewportHeight < totalHeight
      /\ p = totalHeight - viewportHeight).
Proof.
  intros Hv Hle.
  pose proof (Z.div_pos totalHeight viewportHeight ltac:(lia) Hv) as Hk0.
  unfold planOf. rewrite in_app_iff, multiples_In, Z2Nat.id by lia.
  destruct (_ <? _) eqn:E; [apply Z.ltb_lt in E | apply Z.ltb_ge in E]; simpl.
  - split; intros [H | H]; auto.
    + destruct H as [<- | []]; auto.
    + right; left; lia.
  - split; intros [H | H]; auto; try tauto. lia.
Qed.

(** C2 (amended).  For [totalHeight > 0] and [viewportHeight > 0], given one
    unit of fuel per whole viewport, [calculateScrollPositions] returns a
    strictly increasing sequence that starts at 0 and whose windows
    [[p, p + viewportHeight)] cover [[0, totalHeight)]; it is [[0]] when
    [totalHeight <= viewportHeight].  When the page is at least one viewport
    tall the windows cover nothing else and no offset exceeds
    [totalHeight - viewportHeight]. *)
Theorem calculateScrollPositions_plan :
  forall totalHeight viewportHeight fuel,
    0 < totalHeight -> 0 < viewportHeight ->
    (Z.to_nat (totalHeight / viewportHeight) <= fuel)%nat ->
    exists offsets,
      calculateScrollPositions fuel totalHeight viewportHeight = Some offsets
      /\ StronglySorted Z.lt offsets
      /\ hd_error offsets = Some 0
      /\ (forall y, 0 <= y < totalHeight -> covered viewportHeight offsets y)
      /\ (totalHeight <= viewportHeight -> offsets = [0])
      /\ (viewportHeight <= totalHeight ->
          (forall y, covered viewportHeight offsets y -> 0 <= y < totalHeight)
          /\ (forall p, In p offsets -> p <= totalHeight - viewportHeight)).
Proof.
  intros totalHeight viewportHeight fuel HH Hv Hf.
  destruct (Z_lt_le_dec totalHeight viewportHeight) as [Hshort | Htall].
  - exists [0]. unfold calculateScrollPositions.
    replace (totalHeight <=? viewportHeight) with true by (symmetry; apply Z.leb_le; lia).
    repeat split; auto; try lia.
    + repeat constructor.
    + intros y Hy. exists 0. simpl. split; auto. lia.
  - pose proof (Z.div_pos totalHeight viewportHeight ltac:(lia) Hv) as Hk0.
    pose proof (Z.mul_div_le totalHeight viewportHeight Hv) as Hk1.
    pose proof (Z.mul_succ_div_gt totalHeight viewportHeight Hv) as Hk2.
    assert (Hk : 1 <= totalHeight / viewportHeight).
    { apply Z.div_le_lower_bound; lia. }
    set (k := totalHeight / viewportHeight) in *.
    exists (planOf totalHeight viewportHeight).
    split; [apply calculateScrollPositions_planOf; auto|].
    split.
    { unfold planOf. fold k. destruct (_ <? _) eqn:E.
      - apply sorted_snoc; [apply multiples_sorted; lia|].
        apply Forall_forall. intros p Hp. apply multiples_In in Hp.
        destruct Hp as (i & Hi & ->). apply Z.ltb_lt in E. nia.
      - rewrite app_nil_r. apply multiples_sorted; lia. }
    split.
    { unfold planOf. fold k.
      destruct (Z.to_nat k) as [|n] eqn:En; [lia | reflexivity]. }
    split.
    { intros y Hy. unfold covered.
      pose proof (Z.div_pos y viewportHeight ltac:(lia) Hv) as Hi0.
      pose proof (Z.mul_div_le y viewportHeight Hv) as Hi1.
      pose proof (Z.mul_succ_div_gt y viewportHeight Hv) as Hi2.
      destruct (Z_lt_le_dec (y / viewportHeight) k) as [Hin | Hout].
      - exists (y / viewportHeight * viewportHeight). split; [|lia].
        apply planOf_In; auto. left. exists (y / viewportHeight). fold k. lia.
      - exists (totalHeight - viewportHeight).
        assert (k * viewportHeight <= y) by nia.
        split; [|nia]. apply planOf_In; auto. right. fold k. lia. }
    split.
    { intros Hle. assert (totalHeight = viewportHeight) by lia. subst totalHeight.
      unfold planOf. subst k. rewrite Z.div_same by lia.
      change (Z.to_nat 1) with 1%nat. cbn [multiples app].
      destruct (1 * viewportHeight <? viewportHeight) eqn:E2;
        [apply Z.ltb_lt in E2; lia | reflexivity]. }
    intros _. split.
    + intros y (p & Hp & Hy). apply planOf_In in Hp; auto. fold k in Hp.
      destruct Hp as [(i & Hi & ->) | (Hlt & ->)]; nia.
    + intros p Hp. apply planOf_In in Hp; auto. fold k in Hp.
      destruct Hp as [(i & Hi & ->) | (Hlt & ->)]; nia.
Qed.

(** The plan of the 2500-pixel page seen through a 1000-pixel viewport. *)
Lemma calculateScrollPositions_plan_witness :
  calculateScrollPositions 2 2500 1000 = Some [0; 1000; 1500]
  /\ exists offsets,
      calculateScrollPositions 2 2500 1000 = Some offsets
      /\ StronglySorted Z.lt offsets
      /\ hd_error offsets = Some 0
      /\ (forall y, 0 <= y < 2500 -> covered 1000 offsets y)
      /\ (2500 <= 1000 -> offsets = [0])
      /\ (1000 <= 2500 ->
          (forall y, covered 1000 offsets y -> 0 <= y < 2500)
          /\ (forall p, In p offsets -> p <= 2500 - 1000)).
Proof.
  split; [reflexivity|].
  apply (calculateScrollPositions_plan 2500 1000 2); [lia | lia | vm_compute; lia].
Defined.

(** C2 as stated fails on a page shorter than the viewport: the plan is [[0]],
    whose offset exceeds [totalHeight - viewportHeight] and whose window runs
    past the page. *)
Lemma calculateScrollPositions_short_page :
  exists offsets,
    (forall fuel, calculateScrollPositions fuel 500 1000 = Some offsets)
    /\ ~ (forall p, In p offsets -> p <= 500 - 1000)
    /\ ~ (forall y, covered 1000 offsets y -> 0 <= y < 500).
Proof.
  exists [0]. split; [reflexivity|]. split.
  - intros H. specialize (H 0 (or_introl eq_refl)). lia.
  - intros H. assert (Hc : covered 1000 [0] 700).
    { exists 0. simpl. split; auto. lia. }
    specialize (H 700 Hc). lia.
Qed.

End ScrollPlanner.

(* ================================================================== *)
(** * SegmentPlanner: properties of [buildCaptureSegments] *)
(* ================================================================== *)

Section SegmentPartition.

Import ServiceWorker.

Lemma chunkCount_bounds len v :
  (1 <= v)%nat ->
  (len <= chunkCount len v * v)%nat
  /\ (forall k, (k < chunkCount len v)%nat -> (k * v < len)%nat).
Proof.
  intros Hv. unfold chunkCount.
  pose proof (Nat.div_mod_eq (len + v - 1) v) as Hdm.
  pose proof (Nat.mod_upper_bound (len + v - 1) v ltac:(lia)) as Hm.
  split; [nia | intros k Hk; nia].
Qed.

Lemma chunkCount_le len v : (1 <= v)%nat -> (chunkCount len v <= len)%nat.
Proof.
  intros Hv. destruct (chunkCount_bounds len v Hv) as [_ H].
  destruct (chunkCount len v) as [|n] eqn:E; [lia|].
  specialize (H n ltac:(lia)). nia.
Qed.

Lemma segmentLoop_run positions viewportHeight totalHeight v (r : nat) :
  forall m fuel segments,
    length segments = m -> (r <= fuel)%nat ->
    (forall k, (m <= k < m + r)%nat -> (k * v < length positions)%nat) ->
    (length positions <= (m + r) * v)%nat ->
    segmentLoop fuel positions viewportHeight totalHeight v (m * v) segments
    = Some (segments
            ++ map (fun k => segmentAt positions viewportHeight totalHeight v k (k * v))
                   (seq m r)).
Proof.
  induction r as [|r IH]; intros m fuel segments Hlen Hf Hin Hout.
  - assert (E : (m * v <? length positions)%nat = false) by (apply Nat.ltb_ge; lia).
    destruct fuel; simpl; rewrite E, app_nil_r; reflexivity.
  - destruct fuel as [|fuel]; [lia|].
    assert (E : (m * v <? length positions)%nat = true).
    { apply Nat.ltb_lt. apply Hin. lia. }
    cbn [segmentLoop]. rewrite E.
    replace (m * v + v)%nat with (S m * v)%nat by lia.
    rewrite IH.
    + rewrite <- app_assoc, Hlen. reflexivity.
    + rewrite length_app. simpl. lia.
    + lia.
    + intros k Hk. apply Hin. lia.
    + lia.
Qed.

Lemma buildCaptureSegments_segmentsOf positions viewportHeight totalHeight v fuel :
  (1 <= v)%nat -> (length positions <= fuel)%nat ->
  buildCaptureSegments fuel positions viewportHeight totalHeight v
  = Some (segmentsOf positions viewportHeight totalHeight v).
Proof.
  intros Hv Hf. unfold buildCaptureSegments, segmentsOf.
  destruct (chunkCount_bounds (length positions) v Hv) as [Hup Hlow].
  pose proof (chunkCount_le (length positions) v Hv).
  change 0%nat with (0 * v)%nat at 1.
  rewrite (segmentLoop_run _ _ _ _ (chunkCount (length positions) v)); auto.
  - lia.
  - intros k Hk. apply Hlow. lia.
Qed.

Lemma firstn_plus (A : Type) (a b : nat) (l : list A) :
  firstn (a + b) l = firstn a l ++ firstn b (skipn a l).
Proof.
  revert l; induction a as [|a IH]; intros l; simpl; auto.
  destruct l as [|x l]; simpl.
  - rewrite firstn_nil. reflexivity.
  - rewrite IH. reflexivity.
Qed.

Lemma slices_concat (positions : list Z) v (r : nat) : forall m,
  concat (map (fun k => slice positions (k * v) (k * v + v)) (seq m r))
  = firstn (r * v) (skipn (m * v) positions).
Proof.
  induction r as [|r IH]; intros m; simpl; auto.
  rewrite IH. unfold slice.
  replace (m * v + v - m * v)%nat with v by lia.
  rewrite firstn_plus, skipn_skipn.
  replace (v + m * v)%nat with (S m * v)%nat by lia. reflexivity.
Qed.

Lemma segmentsOf_concat positions viewportHeight totalHeight v :
  (1 <= v)%nat ->
  concat (map ServiceWorker.positions
              (segmentsOf positions viewportHeight totalHeight v)) = positions.
Proof.
  intros Hv. unfold segmentsOf. rewrite map_map. cbn [ServiceWorker.positions segmentAt].
  rewrite slices_concat. simpl skipn.
  apply firstn_all2. apply chunkCount_bounds; auto.
Qed.

Lemma segmentsOf_length positions viewportHeight totalHeight v :
  length (segmentsOf positions viewportHeight totalHeight v)
  = chunkCount (length positions) v.
Proof. unfold segmentsOf. rewrite length_map, length_seq. reflexivity. Qed.

Lemma slice_length (positions : list Z) i v :
  length (slice positions i (i + v)) = Nat.min v (length positions - i).
Proof.
  unfold slice. rewrite length_firstn, length_skipn. lia.
Qed.

Lemma slice_nth (positions : list Z) i v j :
  (j < v)%nat ->
  nth j (slice positions i (i + v)) 0 = nth (i + j) positions 0.
Proof.
  intros Hj. unfold slice. replace (i + v - i)%nat with v by lia.
  rewrite nth_firstn.
  apply Nat.ltb_lt in Hj. rewrite Hj.
  rewrite <- (firstn_skipn i positions) at 2.
  destruct (Nat.le_gt_cases i (length positions)) as [Hi | Hi].
  - rewrite app_nth2; rewrite length_firstn; [|lia].
    f_equal. lia.
  - rewrite skipn_all2 by lia. rewrite app_nil_r.
    rewrite firstn_all2 by lia.
    rewrite !nth_overflow; simpl; auto; lia.
Qed.

End SegmentPartition.

Section PlannedSegments.

Import ServiceWorker.

Lemma scrollLoop_more_fuel totalHeight viewportHeight (fuel : nat) :
  forall y positions r fuel',
    scrollLoop fuel totalHeight viewportHeight y positions = Some r ->
    (fuel <= fuel')%nat ->
    scrollLoop fuel' totalHeight viewportHeight y positions = Some r.
Proof.
  induction fuel as [|fuel IH]; intros y positions r fuel' Hrun Hle.
  - simpl in Hrun. destruct (y + viewportHeight <=? totalHeight) eqn:E; [discriminate|].
    destruct fuel'; simpl; rewrite E; assumption.
  - simpl in Hrun. destruct fuel' as [|fuel']; [lia|]. simpl.
    destruct (y + viewportHeight <=? totalHeight) eqn:E; auto.
    apply IH; auto. lia.
Qed.

(** Whatever the fuel, a plan that is returned is the closed form. *)
Lemma calculateScrollPositions_inv totalHeight viewportHeight fuel offsets :
  0 < totalHeight -> 0 < viewportHeight ->
  calculateScrollPositions fuel totalHeight viewportHeight = Some offsets ->
  offsets = if totalHeight <? viewportHeight then [0]
            else planOf totalHeight viewportHeight.
Proof.
  intros HH Hv Hrun.
  destruct (totalHeight <? viewportHeight) eqn:E.
  - apply Z.ltb_lt in E. unfold calculateScrollPositions in Hrun.
    replace (totalHeight <=? viewportHeight) with true in Hrun
      by (symmetry; apply Z.leb_le; lia).
    congruence.
  - apply Z.ltb_ge in E.
    set (fuel' := Nat.max fuel (Z.to_nat (totalHeight / viewportHeight))).
    assert (Hrun' : calculateScrollPositions fuel' totalHeight viewportHeight
                    = Some offsets).
    { unfold calculateScrollPositions in *.
      destruct (totalHeight <=? viewportHeight); auto.
      destruct (scrollLoop fuel totalHeight viewportHeight 0 []) as [r|] eqn:Er;
        [|discriminate].
      rewrite (scrollLoop_more_fuel _ _ _ _ _ r fuel' Er) by (subst fuel'; lia).
      assumption. }
    rewrite calculateScrollPositions_planOf in Hrun' by (subst fuel'; lia).
    congruence.
Qed.

Lemma planOf_shape totalHeight viewportHeight :
  0 < viewportHeight -> viewportHeight <= totalHeight ->
  exists kk : nat,
    (1 <= kk)%nat
    /\ Z.of_nat kk * viewportHeight <= totalHeight
       < (Z.of_nat kk + 1) * viewportHeight
    /\ ((Z.of_nat kk * viewportHeight = totalHeight
         /\ planOf totalHeight viewportHeight = multiples kk 0 viewportHeight)
        \/ (Z.of_nat kk * viewportHeight < totalHeight
            /\ planOf totalHeight viewportHeight
               = multiples kk 0 viewportHeight ++ [totalHeight - viewportHeight])).
Proof.
  intros Hv Hle.
  pose proof (Z.div_pos totalHeight viewportHeight ltac:(lia) Hv) as Hk0.
  pose proof (Z.mul_div_le totalHeight viewportHeight Hv) as Hk1.
  pose proof (Z.mul_succ_div_gt totalHeight viewportHeight Hv) as Hk2.
  assert (Hk : 1 <= totalHeight / viewportHeight).
  { apply Z.div_le_lower_bound; lia. }
  exists (Z.to_nat (totalHeight / viewportHeight)).
  rewrite Z2Nat.id by lia.
  split; [lia|]. split; [lia|].
  unfold planOf. destruct (_ <? _) eqn:E.
  - apply Z.ltb_lt in E. right. auto.
  - apply Z.ltb_ge in E. left. rewrite app_nil_r. split; auto. lia.
Qed.

Lemma plan_segments_chain totalHeight viewportHeight v positions :
  0 < totalHeight -> 0 < viewportHeight -> (1 <= v)%nat ->
  positions = (if totalHeight <? viewportHeight then [0]
               else planOf totalHeight viewportHeight) ->
  coversPage totalHeight (segmentsOf positions viewportHeight totalHeight v)
  /\ chained totalHeight viewportHeight
             (segmentsOf positions viewportHeight totalHeight v).
Proof.
  intros HH Hv Hvps Hpos.
  destruct (chunkCount_bounds (length positions) v Hvps) as [Hup Hlow].
  set (segs := segmentsOf positions viewportHeight totalHeight v).
  assert (Hnth : forall k, (k < chunkCount (length positions) v)%nat ->
            nth_error segs k
            = Some (segmentAt positions viewportHeight totalHeight v k (k * v))).
  { intros k Hk. unfold segs, segmentsOf.
    rewrite nth_error_map, nth_error_seq.
    apply Nat.ltb_lt in Hk. rewrite Hk. reflexivity. }
  assert (Hlen : length segs = chunkCount (length positions) v)
    by apply segmentsOf_length.
  (* A description of the positions that covers both shapes of the plan. *)
  assert (Hshape : exists (kk : nat) (t : list Z),
            positions = multiples kk 0 viewportHeight ++ t
            /\ (1 <= kk)%nat
            /\ ((t = [] /\ Z.min totalHeight (Z.of_nat kk * viewportHeight) = totalHeight)
                \/ (t = [totalHeight - viewportHeight]
                    /\ Z.of_nat kk * viewportHeight < totalHeight
                       < (Z.of_nat kk + 1) * viewportHeight))
            /\ (forall j, (j < kk)%nat ->
                  Z.min totalHeight (Z.of_nat j * viewportHeight + viewportHeight)
                  = Z.min totalHeight (Z.of_nat (S j) * viewportHeight))
            /\ (forall j, (S j < kk)%nat ->
                  Z.of_nat (S j) * viewportHeight <= totalHeight)).
  { destruct (totalHeight <? viewportHeight) eqn:E.
    - apply Z.ltb_lt in E. exists 1%nat, []. subst positions.
      split; [reflexivity|]. split; [lia|]. split; [left; split; auto; lia|].
      split; intros; lia.
    - apply Z.ltb_ge in E.
      destruct (planOf_shape totalHeight viewportHeight Hv E)
        as (kk & Hkk & Hb & [[He Hp] | [Hl Hp]]).
      + exists kk, []. rewrite app_nil_r. subst positions.
        split; auto. split; auto. split; [left; split; auto; lia|].
        split; intros; nia.
      + exists kk, [totalHeight - viewportHeight]. subst positions.
        split; auto. split; auto. split; [right; split; auto; lia|].
        split; intros; nia. }
  destruct Hshape as (kk & t & Hps & Hkk & Ht & Hstep & Hfit).
  assert (Hlenp : length positions = (kk + length t)%nat).
  { rewrite Hps, length_app, multiples_length. reflexivity. }
  assert (Hreg : forall j, (j < kk)%nat ->
            nth j positions 0 = Z.of_nat j * viewportHeight).
  { intros j Hj. rewrite Hps, app_nth1 by (rewrite multiples_length; lia).
    rewrite multiples_nth by lia. lia. }
  assert (Hn1 : (1 <= chunkCount (length positions) v)%nat).
  { destruct (chunkCount (length positions) v); lia. }
  split.
  - (* first start and last end *)
    split.
    + eexists. split; [apply Hnth; lia|].
      cbn [startY segmentAt]. rewrite (slice_nth positions (0 * v) v 0) by lia.
      rewrite Hreg by lia. simpl. lia.
    + eexists. rewrite Hlen. split; [apply Hnth; lia|].
      cbn [endY segmentAt].
      set (n := chunkCount (length positions) v) in *.
      assert (Hlast : ((n - 1) * v < length positions)%nat) by (apply Hlow; lia).
      rewrite slice_length.
      assert (Hmin : Nat.min v (length positions - (n - 1) * v)
                     = (length positions - (n - 1) * v)%nat) by nia.
      rewrite Hmin, slice_nth by nia.
      replace ((n - 1) * v + (length positions - (n - 1) * v - 1))%nat
        with (length positions - 1)%nat by lia.
      destruct Ht as [[-> Hend] | [-> Hend]]; simpl in Hlenp.
      * replace (length positions - 1)%nat with (kk - 1)%nat by lia.
        rewrite Hreg by lia. rewrite Hstep by lia.
        replace (S (kk - 1)) with kk by lia. exact Hend.
      * rewrite Hps, app_nth2; rewrite ?length_app, multiples_length; simpl; [|lia].
        replace (kk + 1 - 1 - kk)%nat with 0%nat by lia. simpl. lia.
  - (* consecutive segments *)
    intros k s s' Hs Hs'.
    assert (Hk' : (S k < chunkCount (length positions) v)%nat).
    { rewrite <- Hlen. apply nth_error_Some. congruence. }
    rewrite Hnth in Hs by lia. rewrite Hnth in Hs' by lia.
    injection Hs as <-. injection Hs' as <-.
    pose proof (Hlow _ Hk') as Hnext.
    cbn [startY endY ServiceWorker.positions segmentAt].
    change (v + k * v)%nat with (S k * v)%nat.
    rewrite slice_length.
    replace (Nat.min v (length positions - k * v)) with v by nia.
    rewrite (slice_nth positions (S k * v) v 0) by lia.
    rewrite (slice_nth positions (k * v) v (v - 1)) by lia.
    replace (S k * v + 0)%nat with (S (k * v + (v - 1)))%nat by lia.
    set (j := (k * v + (v - 1))%nat) in *.
    assert (Hj : (S j < length positions)%nat) by (subst j; lia).
    destruct (Nat.lt_ge_cases (S j) kk) as [Hin | Hout].
    + left. rewrite !Hreg by lia. rewrite Hstep by lia.
      rewrite Z.min_r; auto.
    + right. destruct Ht as [[-> Hend] | [-> Hend]]; simpl in Hlenp; [lia|].
      assert (Hjk : S j = kk) by lia.
      split; [|split].
      * rewrite Hlen.
        destruct (Nat.lt_ge_cases (S (S k)) (chunkCount (length positions) v))
          as [Hmore | Hdone]; [|lia].
        specialize (Hlow _ Hmore). subst j. nia.
      * unfold slice. replace (S k * v + v - S k * v)%nat with v by lia.
        replace (S k * v)%nat with kk by (subst j; lia).
        rewrite Hps, skipn_app, multiples_length, Nat.sub_diag.
        rewrite skipn_all2 by (rewrite multiples_length; lia).
        cbn [skipn app]. destruct v as [|v']; [lia|].
        cbn [firstn]. rewrite firstn_nil. reflexivity.
      * rewrite Hreg by lia.
        rewrite Hps, app_nth2; rewrite multiples_length; [|lia].
        replace (S j - kk)%nat with 0%nat by lia. cbn [nth].
        rewrite Hstep by lia. rewrite Hjk.
        rewrite Z.min_r by lia. lia.
Qed.

(** C3 (amended).  For every list of positions and every
    [viewportsPerSegment >= 1], given one unit of fuel per position,
    [buildCaptureSegments] returns segments whose [positions], concatenated in
    index order, are the input.  When the positions are the plan of a page,
    the first segment starts at 0, the last ends at [totalHeight], and each
    segment starts where its predecessor ends, except that a last segment
    holding only the clamped final offset starts inside its predecessor, less
    than one viewport before its end. *)
Theorem buildCaptureSegments_partition :
  forall positions viewportHeight totalHeight viewportsPerSegment fuel,
    (1 <= viewportsPerSegment)%nat ->
    (length positions <= fuel)%nat ->
    exists segments,
      buildCaptureSegments fuel positions viewportHeight totalHeight
                           viewportsPerSegment = Some segments
      /\ concat (map ServiceWorker.positions segments) = positions
      /\ (forall planFuel,
            0 < totalHeight -> 0 < viewportHeight ->
            calculateScrollPositions planFuel totalHeight viewportHeight
            = Some positions ->
            coversPage totalHeight segments
            /\ chained totalHeight viewportHeight segments).
Proof.
  intros positions viewportHeight totalHeight v fuel Hv Hf.
  exists (segmentsOf positions viewportHeight totalHeight v).
  split; [apply buildCaptureSegments_segmentsOf; auto|].
  split; [apply segmentsOf_concat; auto|].
  intros planFuel HH Hvh Hplan.
  apply plan_segments_chain; auto.
  eapply calculateScrollPositions_inv; eauto.
Qed.

(** The page of 2500 pixels seen through a viewport of 1000, two viewports
    per segment. *)
Lemma buildCaptureSegments_partition_witness :
  exists segments,
    buildCaptureSegments 3 [0; 1000; 1500] 1000 2500 2 = Some segments
    /\ concat (map ServiceWorker.positions segments) = [0; 1000; 1500]
    /\ (forall planFuel,
          0 < 2500 -> 0 < 1000 ->
          calculateScrollPositions planFuel 2500 1000 = Some [0; 1000; 1500] ->
          coversPage 2500 segments /\ chained 2500 1000 segments).
Proof.
  apply (buildCaptureSegments_partition [0; 1000; 1500] 1000 2500 2 3);
    simpl; lia.
Defined.

(** C3 as stated fails on the plan [[0; 1000; 1500]] of that page: the two
    segments span [[0, 2000]] and [[1500, 2500]], which overlap. *)
Lemma buildCaptureSegments_overlap :
  calculateScrollPositions 2 2500 1000 = Some [0; 1000; 1500]
  /\ exists s1 s2,
      buildCaptureSegments 3 [0; 1000; 1500] 1000 2500 2 = Some [s1; s2]
      /\ (startY s1, endY s1) = (0, 2000)
      /\ (startY s2, endY s2) = (1500, 2500)
      /\ startY s2 < endY s1.
Proof.
  split; [reflexivity|].
  do 2 eexists. split; [reflexivity|]. cbn. repeat split; lia.
Qed.

End PlannedSegments.

(* ================================================================== *)
(** * SegmentPlanner: the raster limits of [computeCaptureStrategy] *)
(* ================================================================== *)

Section CaptureLimits.

Import ServiceWorker CAPTURE_LIMITS.

(** [Math.round] is within one half of its argument. *)
Lemma round_bounds (x : Q) :
  (x - (1 # 2) < inject_Z (Js.round x) /\ inject_Z (Js.round x) <= x + (1 # 2))%Q.
Proof.
  unfold Js.round.
  pose proof (Qfloor_le (x + (1 # 2))) as Hle.
  pose proof (Qlt_floor (x + (1 # 2))) as Hlt.
  rewrite inject_Z_plus in Hlt. change (inject_Z 1) with 1%Q in Hlt.
  split; lra.
Qed.

Lemma round_mono (x y : Q) : (x <= y)%Q -> Js.round x <= Js.round y.
Proof. intros H. apply Qfloor_resp_le. lra. Qed.

Lemma round_inject (z : Z) : Js.round (inject_Z z) = z.
Proof.
  unfold Js.round.
  pose proof (Qfloor_le (inject_Z z + (1 # 2))) as Hle.
  pose proof (Qlt_floor (inject_Z z + (1 # 2))) as Hlt.
  set (f := Qfloor (inject_Z z + (1 # 2))) in *.
  assert (H1 : (inject_Z f < inject_Z (z + 1))%Q).
  { rewrite inject_Z_plus. change (inject_Z 1) with 1%Q. lra. }
  assert (H2 : (inject_Z z < inject_Z (f + 1))%Q) by lra.
  rewrite <- Zlt_Qlt in H1, H2. lia.
Qed.

(** Rounding to three decimals moves a value by at most half a thousandth. *)
Lemma roundTo3_bounds (value : Q) :
  (value - (1 # 2000) < roundTo value 3 /\ roundTo value 3 <= value + (1 # 2000))%Q.
Proof.
  unfold roundTo. change (Qpower 10 3) with 1000%Q.
  destruct (round_bounds (value * 1000)) as [Hlo Hhi].
  set (z := inject_Z (Js.round (value * 1000))) in *.
  split.
  - apply Qlt_shift_div_l; lra.
  - apply Qle_shift_div_r; lra.
Qed.

Lemma clampedDpr_bounds (metrics : Metrics) :
  1 <= viewportWidth metrics <= 32768 ->
  ((1 # 2) <= clampedDpr metrics
   /\ clampedDpr metrics * inject_Z (viewportWidth metrics)
      <= inject_Z MAX_CANVAS_DIMENSION)%Q.
Proof.
  intros Hw. unfold clampedDpr, safeViewportWidth, Js.orZ.
  replace (viewportWidth metrics =? 0) with false by (symmetry; apply Z.eqb_neq; lia).
  rewrite Z.max_r by lia.
  set (W := inject_Z (viewportWidth metrics)).
  assert (HW1 : (1 <= W)%Q).
  { unfold W. change 1%Q with (inject_Z 1). rewrite <- Zle_Qle. lia. }
  assert (HW2 : (W <= 32768)%Q).
  { unfold W. change 32768%Q with (inject_Z 32768). rewrite <- Zle_Qle. lia. }
  change (inject_Z MAX_CANVAS_DIMENSION) with 16384%Q.
  set (dpr := Js.orQ (devicePixelRatio metrics) 1).
  split; [apply Q.le_max_l|].
  assert (Hcap : (Qmax (1 # 2) (Qmin dpr (16384 / W)) <= 16384 / W)%Q).
  { apply Q.max_lub; [|apply Q.le_min_r].
    apply Qle_shift_div_l; lra. }
  apply Qle_trans with ((16384 / W) * W)%Q.
  - apply Qmult_le_compat_r; [exact Hcap | lra].
  - assert (E : (16384 / W * W == 16384)%Q) by (field; lra).
    rewrite E. apply Qle_refl.
Qed.

Lemma inject_Z_le (a b : Z) : a <= b -> (inject_Z a <= inject_Z b)%Q.
Proof. intros H. rewrite <- Zle_Qle. exact H. Qed.

(** C1 (amended).  For every geometry with [1 <= viewportWidth <= 32768] and
    [viewportHeight >= 1] that [computeCaptureStrategy] accepts:
    [effectiveDpr * viewportWidth] exceeds MAX_CANVAS_DIMENSION by at most
    [viewportWidth / 2000], and not at all when rounding to three decimals
    did not round the clamped ratio up; and the segment area
    [(effectiveDpr * viewportWidth) * (effectiveDpr * maxSegmentHeightCss)] is
    within MAX_CANVAS_AREA exactly when one viewport at the effective ratio is
    (a segment always holds at least one viewport). *)
Theorem computeCaptureStrategy_limits :
  forall metrics strategy,
    1 <= viewportWidth metrics <= 32768 ->
    1 <= viewportHeight metrics ->
    computeCaptureStrategy metrics = Js.Return strategy ->
    (effectiveDpr strategy * inject_Z (viewportWidth metrics)
     <= inject_Z MAX_CANVAS_DIMENSION + inject_Z (viewportWidth metrics) / 2000)%Q
    /\ ((effectiveDpr strategy <= clampedDpr metrics)%Q ->
        (effectiveDpr strategy * inject_Z (viewportWidth metrics)
         <= inject_Z MAX_CANVAS_DIMENSION)%Q)
    /\ (((effectiveDpr strategy * inject_Z (viewportWidth metrics))
         * (effectiveDpr strategy * inject_Z (maxSegmentHeightCss strategy))
         <= inject_Z MAX_CANVAS_AREA)%Q
        <->
        ((effectiveDpr strategy * inject_Z (viewportWidth metrics))
         * (effectiveDpr strategy * inject_Z (viewportHeight metrics))
         <= inject_Z MAX_CANVAS_AREA)%Q).
Proof.
  intros metrics strategy Hw Hh Hrun.
  destruct (clampedDpr_bounds metrics Hw) as [Hc1 Hc2].
  destruct (roundTo3_bounds (clampedDpr metrics)) as [He1 He2].
  unfold computeCaptureStrategy in Hrun.
  assert (Esw : safeViewportWidth metrics = viewportWidth metrics).
  { unfold safeViewportWidth, Js.orZ.
    replace (viewportWidth metrics =? 0) with false by (symmetry; apply Z.eqb_neq; lia).
    lia. }
  assert (Esh : safeViewportHeight metrics = viewportHeight metrics).
  { unfold safeViewportHeight, Js.orZ.
    replace (viewportHeight metrics =? 0) with false by (symmetry; apply Z.eqb_neq; lia).
    lia. }
  rewrite Esw, Esh in Hrun.
  set (e := roundTo (clampedDpr metrics) 3) in *.
  set (W := inject_Z (viewportWidth metrics)) in *.
  assert (HW : (1 <= W)%Q).
  { unfold W. change 1%Q with (inject_Z 1). apply inject_Z_le. lia. }
  assert (He : (0 < e)%Q) by lra.
  destruct (Qle_bool e 0) eqn:Ee.
  { apply Qle_bool_iff in Ee. lra. }
  set (hd := Js.floor (inject_Z MAX_CANVAS_DIMENSION / e)) in *.
  set (ha := Js.floor (inject_Z MAX_CANVAS_AREA / (W * e * e))) in *.
  destruct (Z.max (viewportHeight metrics) (Z.min hd ha) <=? 0) eqn:Ez;
    [discriminate|].
  injection Hrun as <-. cbn [effectiveDpr maxSegmentHeightCss].
  set (A := inject_Z MAX_CANVAS_AREA) in *.
  assert (HT : (0 < W * e * e)%Q).
  { apply Qmult_lt_0_compat; [apply Qmult_lt_0_compat|]; lra. }
  assert (Hha : (inject_Z ha * (W * e * e) <= A)%Q).
  { pose proof (Qfloor_le (A / (W * e * e))) as Hfl. fold (Js.floor (A / (W * e * e))) in Hfl.
    fold ha in Hfl.
    apply Qle_trans with (A / (W * e * e) * (W * e * e))%Q.
    - apply Qmult_le_compat_r; [exact Hfl | lra].
    - assert (E : (A / (W * e * e) * (W * e * e) == A)%Q) by (field; lra).
      rewrite E. apply Qle_refl. }
  assert (Harea : forall h, ((e * W) * (e * inject_Z h) == inject_Z h * (W * e * e))%Q)
    by (intros h; ring).
  assert (Hmono : forall h1 h2, h1 <= h2 ->
            (inject_Z h1 * (W * e * e) <= inject_Z h2 * (W * e * e))%Q).
  { intros h1 h2 H12. apply Qmult_le_compat_r; [apply inject_Z_le; exact H12 | lra]. }
  split; [|split].
  - apply Qle_trans with ((clampedDpr metrics + (1 # 2000)) * W)%Q.
    + apply Qmult_le_compat_r; lra.
    + assert (E : ((clampedDpr metrics + (1 # 2000)) * W
                   == clampedDpr metrics * W + W / 2000)%Q) by field.
      rewrite E. lra.
  - intros Hnoup.
    apply Qle_trans with (clampedDpr metrics * W)%Q; [|exact Hc2].
    apply Qmult_le_compat_r; lra.
  - rewrite !Harea. split; intros Hfit.
    + eapply Qle_trans; [|exact Hfit]. apply Hmono. lia.
    + destruct (Z.max_spec (viewportHeight metrics) (Z.min hd ha)) as [[_ ->] | [_ ->]];
        [|exact Hfit].
      eapply Qle_trans; [|exact Hha]. apply Hmono. lia.
Qed.

Lemma computeCaptureStrategy_limits_witness :
  computeCaptureStrategy laptopMetrics = Js.Return laptopStrategy
  /\ (effectiveDpr laptopStrategy * inject_Z (viewportWidth laptopMetrics)
      <= inject_Z MAX_CANVAS_DIMENSION
         + inject_Z (viewportWidth laptopMetrics) / 2000)%Q
  /\ ((effectiveDpr laptopStrategy <= clampedDpr laptopMetrics)%Q ->
      (effectiveDpr laptopStrategy * inject_Z (viewportWidth laptopMetrics)
       <= inject_Z MAX_CANVAS_DIMENSION)%Q)
  /\ (((effectiveDpr laptopStrategy * inject_Z (viewportWidth laptopMetrics))
       * (effectiveDpr laptopStrategy
          * inject_Z (maxSegmentHeightCss laptopStrategy))
       <= inject_Z MAX_CANVAS_AREA)%Q
      <->
      ((effectiveDpr laptopStrategy * inject_Z (viewportWidth laptopMetrics))
       * (effectiveDpr laptopStrategy * inject_Z (viewportHeight laptopMetrics))
       <= inject_Z MAX_CANVAS_AREA)%Q).
Proof.
  split; [vm_compute; reflexivity|].
  apply (computeCaptureStrategy_limits laptopMetrics laptopStrategy).
  - vm_compute. split; discriminate.
  - vm_compute. discriminate.
  - vm_compute. reflexivity.
Defined.

(** C1 as stated fails.  A viewport 40000 wide keeps the ratio at the floor
    of 0.5 and a viewport 20000 tall is a segment of its own: both limits
    are exceeded.  A viewport 9003 wide at ratio 2 has its clamped ratio
    rounded up to 1.82, which exceeds the width limit. *)
Lemma computeCaptureStrategy_exceeds_limits :
  (computeCaptureStrategy {| totalHeight := 50000; viewportWidth := 40000;
                             viewportHeight := 20000; devicePixelRatio := 1 |}
   = Js.Return {| effectiveDpr := 500 # 1000;
                  maxSegmentHeightCss := 20000;
                  viewportsPerSegment := 1 |}
   /\ ~ ((500 # 1000) * inject_Z 40000 <= inject_Z MAX_CANVAS_DIMENSION)%Q
   /\ ~ (((500 # 1000) * inject_Z 40000) * ((500 # 1000) * inject_Z 20000)
         <= inject_Z MAX_CANVAS_AREA)%Q)
  /\ (computeCaptureStrategy {| totalHeight := 5000; viewportWidth := 9003;
                                viewportHeight := 1000; devicePixelRatio := 2 |}
      = Js.Return {| effectiveDpr := 1820 # 1000;
                     maxSegmentHeightCss := 3353;
                     viewportsPerSegment := 3 |}
      /\ ~ ((1820 # 1000) * inject_Z 9003 <= inject_Z MAX_CANVAS_DIMENSION)%Q).
Proof.
  split; [split; [|split] | split].
  - vm_compute. reflexivity.
  - apply Qlt_not_le. vm_compute. reflexivity.
  - apply Qlt_not_le. vm_compute. reflexivity.
  - vm_compute. reflexivity.
  - apply Qlt_not_le. vm_compute. reflexivity.
Qed.

End CaptureLimits.

(* ================================================================== *)
(** * ViewportStitcher: each row is drawn once *)
(* ================================================================== *)

Section Stitching.

Import Offscreen.

Lemma find_app (A : Type) (f : A -> bool) (l1 l2 : list A) :
  find f (l1 ++ l2) = match find f l1 with
                      | Some x => Some x
                      | None => find f l2
                      end.
Proof.
  induction l1 as [|a l1 IH]; simpl; auto.
  destruct (f a); auto.
Qed.

(** The scale of the prepared canvas and the viewport height of the capture. *)
Variable canvasScale : Q.
Variable viewportHeightCss : Z.

Let drawHeight : Z := Js.round (inject_Z viewportHeightCss * canvasScale).

Hypothesis scale_positive : (0 < canvasScale)%Q.
Hypothesis drawHeight_positive : 0 < drawHeight.

Lemma drawYOf_mono (a b : StitchMessage) :
  yOffset a <= yOffset b -> drawYOf canvasScale a <= drawYOf canvasScale b.
Proof.
  intros H. unfold drawYOf. apply round_mono.
  apply Qmult_le_compat_r; [apply inject_Z_le; exact H | lra].
Qed.

Lemma drawYOf_nonneg (m : StitchMessage) :
  0 <= yOffset m -> 0 <= drawYOf canvasScale m.
Proof.
  intros H. unfold drawYOf.
  change 0 with (Js.round 0) at 1. apply round_mono.
  apply Qmult_le_0_compat; [|lra].
  change 0%Q with (inject_Z 0). apply inject_Z_le. exact H.
Qed.

(** The crop never swallows the whole image while rows remain to be drawn. *)
Lemma crop_leaves_rows (overlapPx srcH : Z) :
  0 < overlapPx < drawHeight -> drawHeight < 2 * srcH ->
  Js.round ((inject_Z overlapPx / inject_Z drawHeight) * inject_Z srcH) < srcH.
Proof.
  intros Ho Hs.
  assert (HD : (0 < inject_Z drawHeight)%Q).
  { change 0%Q with (inject_Z 0). rewrite <- Zlt_Qlt. lia. }
  assert (Hz : (inject_Z overlapPx * inject_Z srcH * 2 + inject_Z drawHeight
                < 2 * inject_Z srcH * inject_Z drawHeight)%Q).
  { change 2%Q with (inject_Z 2).
    rewrite <- !inject_Z_mult, <- inject_Z_plus, <- Zlt_Qlt. nia. }
  destruct (round_bounds ((inject_Z overlapPx / inject_Z drawHeight) * inject_Z srcH))
    as [_ Hhi].
  set (r := Js.round _) in *.
  assert (Hx : (inject_Z overlapPx / inject_Z drawHeight * inject_Z srcH + (1 # 2)
                < inject_Z srcH)%Q).
  { assert (E : (inject_Z overlapPx / inject_Z drawHeight * inject_Z srcH
                 == (inject_Z overlapPx * inject_Z srcH) / inject_Z drawHeight)%Q)
      by (field; lra).
    rewrite E.
    assert (Hdiv : ((inject_Z overlapPx * inject_Z srcH) / inject_Z drawHeight
                    < inject_Z srcH - (1 # 2))%Q).
    { apply Qlt_shift_div_r; [exact HD|]. lra. }
    lra. }
  rewrite Zlt_Qlt. lra.
Qed.

(** One stitch on a prepared canvas whose bottom edge is [bottom]: the bottom
    edge moves to the end of the capture's window, and the rows of the window
    at or below [bottom] are drawn, by one call. *)
Lemma stitchViewport_step (cv : Canvas) (strategy : CanvasStrategy) (m : StitchMessage) :
  scale strategy = canvasScale ->
  segmentCapture canvasScale viewportHeightCss m ->
  ((isFirst m = false /\ 0 < yOffset m)
   \/ lastDrawnBottomY cv <= drawYOf canvasScale m) ->
  exists calls,
    stitchViewport {| canvas := Some cv; canvasStrategy := Some strategy |} m
    = Js.Return
        {| canvas := Some {| width := width cv;
                             height := height cv;
                             lastDrawnBottomY := drawYOf canvasScale m + drawHeight;
                             drawn := drawn cv ++ calls |};
           canvasStrategy := Some strategy |}
    /\ (forall row,
          map issuedBy (writersOf row calls)
          = if (Z.max (lastDrawnBottomY cv) (drawYOf canvasScale m) <=? row)
               && (row <? drawYOf canvasScale m + drawHeight)
            then [m] else []).
Proof.
  intros Hscale (Hvh & img & Himg & Htall) Hcrop. fold drawHeight in Htall.
  unfold stitchViewport. cbn [canvas canvasStrategy]. rewrite Himg, Hscale, Hvh.
  fold (drawYOf canvasScale m). fold drawHeight.
  set (d := drawYOf canvasScale m) in *.
  assert (HorZ : Js.orZ (lastDrawnBottomY cv) 0 = lastDrawnBottomY cv).
  { unfold Js.orZ. destruct (lastDrawnBottomY cv =? 0) eqn:E; auto.
    apply Z.eqb_eq in E. auto. }
  rewrite HorZ. set (L := lastDrawnBottomY cv) in *.
  unfold overlapCrop.
  destruct (negb (isFirst m) && (0 <? yOffset m) && (d <? L)) eqn:Ecrop.
  - (* the top of the capture overlaps what is drawn *)
    apply andb_true_iff in Ecrop. destruct Ecrop as [Een Elt].
    rewrite Een, Elt. apply Z.ltb_lt in Elt.
    destruct (0 <? drawHeight - (L - d)) eqn:Edest.
    + apply Z.ltb_lt in Edest.
      pose proof (crop_leaves_rows (L - d) (naturalHeight img) ltac:(lia) Htall) as Hsrc.
      replace (0 <? naturalHeight img - _) with true
        by (symmetry; apply Z.ltb_lt; lia).
      cbn [andb]. eexists. split.
      * do 4 f_equal. lia.
      * intros row. unfold writersOf, writes. cbn [filter dy dh map issuedBy].
        rewrite Z.max_l by lia.
        replace (L + (drawHeight - (L - d))) with (d + drawHeight) by lia.
        destruct ((L <=? row) && (row <? d + drawHeight)); reflexivity.
    + apply Z.ltb_ge in Edest. rewrite andb_false_r.
      exists []. split.
      * rewrite app_nil_r. do 4 f_equal. lia.
      * intros row. simpl.
        destruct ((Z.max L d <=? row) && (row <? d + drawHeight)) eqn:E; auto.
        apply andb_true_iff in E. destruct E as [E1 E2].
        apply Z.leb_le in E1. apply Z.ltb_lt in E2. lia.
  - (* no overlap: the whole capture is drawn at its own position *)
    assert (HLd : L <= d).
    { destruct Hcrop as [[Hf Hy] | Hle]; auto.
      rewrite Hf in Ecrop. apply Z.ltb_lt in Hy. rewrite Hy in Ecrop.
      simpl in Ecrop. apply Z.ltb_ge in Ecrop. exact Ecrop. }
    assert (Epair : (if negb (isFirst m) && (0 <? yOffset m)
                     then if d <? L
                          then (Js.round (inject_Z (L - d) / inject_Z drawHeight
                                          * inject_Z (naturalHeight img)), L)
                          else (0, d)
                     else (0, d)) = (0, d)).
    { destruct (negb (isFirst m) && (0 <? yOffset m)); auto.
      simpl in Ecrop. rewrite Ecrop. reflexivity. }
    rewrite Epair.
    replace (0 <? naturalHeight img - 0) with true by (symmetry; apply Z.ltb_lt; lia).
    replace (0 <? drawHeight - (d - d)) with true by (symmetry; apply Z.ltb_lt; lia).
    cbn [andb]. eexists. split.
    + do 4 f_equal. lia.
    + intros row. unfold writersOf, writes. cbn [filter dy dh map issuedBy].
      rewrite Z.max_r by lia.
      replace (d + (drawHeight - (d - d))) with (d + drawHeight) by lia.
      destruct ((d <=? row) && (row <? d + drawHeight)); reflexivity.
Qed.

Lemma inWindow_spec (row : Z) (m : StitchMessage) :
  viewportHeight m = viewportHeightCss ->
  inWindow canvasScale row m
  = (drawYOf canvasScale m <=? row) && (row <? drawYOf canvasScale m + drawHeight).
Proof.
  intros Hvh. unfold inWindow, drawHeightOf. rewrite Hvh. reflexivity.
Qed.

(** Stitching the remaining captures keeps the rows written so far and gives
    each new row to the first capture that covers it. *)
Lemma stitchAll_written (strategy : CanvasStrategy) (rest : list StitchMessage) :
  scale strategy = canvasScale ->
  forall processed cv,
    windowsEndAt canvasScale drawHeight processed (lastDrawnBottomY cv) ->
    writtenByFirst canvasScale processed (drawn cv) ->
    (forall p, In p processed -> viewportHeight p = viewportHeightCss) ->
    Forall (segmentCapture canvasScale viewportHeightCss) rest ->
    Forall (fun m => isFirst m = false /\ 0 < yOffset m) rest ->
    StronglySorted (fun a b => yOffset a < yOffset b) rest ->
    (forall p m, In p processed -> In m rest -> yOffset p < yOffset m) ->
    exists cv',
      stitchAll {| canvas := Some cv; canvasStrategy := Some strategy |} rest
      = Js.Return {| canvas := Some cv'; canvasStrategy := Some strategy |}
      /\ height cv' = height cv
      /\ writtenByFirst canvasScale (processed ++ rest) (drawn cv').
Proof.
  intros Hscale.
  induction rest as [|m rest IH];
    intros processed cv Hend Hwritten Hvhs Hcap Hflag Hsorted Hbefore.
  - exists cv. rewrite app_nil_r. simpl. auto.
  - apply Forall_cons_iff in Hcap. destruct Hcap as [Hm Hcap'].
    apply Forall_cons_iff in Hflag. destruct Hflag as [Hfm Hflag'].
    apply StronglySorted_inv in Hsorted. destruct Hsorted as [Hsorted' Hm_lt].
    destruct (stitchViewport_step cv strategy m Hscale Hm (or_introl Hfm))
      as (calls & Hstep & Hcalls).
    cbn [stitchAll]. rewrite Hstep. cbn [Js.bind].
    set (d := drawYOf canvasScale m) in *.
    set (L := lastDrawnBottomY cv) in *.
    destruct Hend as [(mlast & Hlast_in & Hlast) Hall].
    assert (Hd : forall p, In p processed -> drawYOf canvasScale p <= d).
    { intros p Hp. apply drawYOf_mono.
      specialize (Hbefore p m Hp (or_introl eq_refl)). lia. }
    edestruct (IH (processed ++ [m])
                 {| width := width cv; height := height cv;
                    lastDrawnBottomY := d + drawHeight;
                    drawn := drawn cv ++ calls |})
      as (cv' & Hrun & Hheight & Hfinal);
      [| | | exact Hcap' | exact Hflag' | exact Hsorted' | |].
    + (* the windows now end at the new bottom edge *)
      cbn [lastDrawnBottomY]. split.
      * exists m. split; [apply in_or_app; right; left; reflexivity | fold d; lia].
      * intros p Hp. apply in_app_or in Hp. destruct Hp as [Hp | [<- | []]].
        -- specialize (Hd p Hp). lia.
        -- fold d. lia.
    + (* rows written so far *)
      cbn [drawn]. intros row. unfold writersOf.
      rewrite filter_app, map_app. fold (writersOf row (drawn cv)).
      fold (writersOf row calls). rewrite Hwritten, Hcalls, find_app.
      destruct (find (inWindow canvasScale row) processed) as [x|] eqn:Efind.
      * apply find_some in Efind. destruct Efind as [Hx Hin].
        rewrite inWindow_spec in Hin by auto.
        apply andb_true_iff in Hin. destruct Hin as [_ Hin]. apply Z.ltb_lt in Hin.
        specialize (Hall x Hx).
        replace (Z.max L d <=? row) with false by (symmetry; apply Z.leb_gt; lia).
        reflexivity.
      * cbn [find]. rewrite (inWindow_spec row m) by apply Hm. fold d.
        pose proof (find_none _ _ Efind mlast Hlast_in) as Hout.
        rewrite inWindow_spec in Hout by auto.
        specialize (Hd mlast Hlast_in).
        destruct (d <=? row) eqn:E1.
        -- apply Z.leb_le in E1.
           assert (HL : L <= row).
           { apply andb_false_iff in Hout. destruct Hout as [Hout | Hout].
             - apply Z.leb_gt in Hout. lia.
             - apply Z.ltb_ge in Hout. lia. }
           replace (Z.max L d <=? row) with true by (symmetry; apply Z.leb_le; lia).
           cbn [andb app]. destruct (row <? d + drawHeight); reflexivity.
        -- apply Z.leb_gt in E1.
           replace (Z.max L d <=? row) with false by (symmetry; apply Z.leb_gt; lia).
           reflexivity.
    + intros p Hp. apply in_app_or in Hp. destruct Hp as [Hp | [<- | []]]; auto.
      apply Hm.
    + intros p m' Hp Hm'. apply in_app_or in Hp. destruct Hp as [Hp | [<- | []]].
      * apply Hbefore; simpl; auto.
      * rewrite Forall_forall in Hm_lt. auto.
    + exists cv'. rewrite <- app_assoc in Hfinal. cbn [app] in Hfinal.
      split; [exact Hrun|]. split; [|exact Hfinal].
      rewrite Hheight. reflexivity.
Qed.

(** Stitching all the captures of a segment into a freshly prepared canvas. *)
Lemma stitchAll_fresh (strategy : CanvasStrategy) (cv : Canvas)
      (messages : list StitchMessage) :
  scale strategy = canvasScale ->
  lastDrawnBottomY cv = 0 -> drawn cv = [] ->
  inScrollOrder messages ->
  Forall (segmentCapture canvasScale viewportHeightCss) messages ->
  exists cv',
    stitchAll {| canvas := Some cv; canvasStrategy := Some strategy |} messages
    = Js.Return {| canvas := Some cv'; canvasStrategy := Some strategy |}
    /\ height cv' = height cv
    /\ writtenByFirst canvasScale messages (drawn cv').
Proof.
  intros Hscale HL Hdrawn Horder Hcap.
  destruct messages as [|m rest].
  - exists cv. simpl. repeat split; auto.
    intros row. rewrite Hdrawn. reflexivity.
  - destruct Horder as (Hy0 & Hsorted & Hflags).
    apply Forall_cons_iff in Hcap. destruct Hcap as [Hm Hcap'].
    apply StronglySorted_inv in Hsorted. destruct Hsorted as [Hsorted' Hm_lt].
    pose proof (drawYOf_nonneg m Hy0) as Hd0.
    destruct (stitchViewport_step cv strategy m Hscale Hm) as (calls & Hstep & Hcalls).
    { right. lia. }
    cbn [stitchAll]. rewrite Hstep. cbn [Js.bind].
    rewrite Forall_forall in Hm_lt.
    edestruct (stitchAll_written strategy rest Hscale [m]
                 {| width := width cv; height := height cv;
                    lastDrawnBottomY := drawYOf canvasScale m + drawHeight;
                    drawn := drawn cv ++ calls |})
      as (cv' & Hrun & Hheight & Hfinal);
      [| | | exact Hcap' | | exact Hsorted' | |].
    + cbn [lastDrawnBottomY]. split.
      * exists m. split; [left; reflexivity | lia].
      * intros p [<- | []]. lia.
    + cbn [drawn]. rewrite Hdrawn. cbn [app]. intros row.
      rewrite Hcalls. cbn [find]. rewrite (inWindow_spec row m) by apply Hm.
      rewrite HL, Z.max_r by lia.
      destruct ((drawYOf canvasScale m <=? row)
                && (row <? drawYOf canvasScale m + drawHeight)); reflexivity.
    + intros p [<- | []]. apply Hm.
    + apply Forall_forall. intros m' Hm'. split.
      * rewrite Forall_forall in Hflags. auto.
      * specialize (Hm_lt m' Hm'). lia.
    + intros p m' [<- | []] Hm'. auto.
    + exists cv'. split; [exact Hrun|]. split; [|exact Hfinal].
      rewrite Hheight. reflexivity.
Qed.

End Stitching.

Section StitchedSegment.

Import Offscreen.

Lemma prepareCanvas_fresh viewportWidth totalHeight dpr doc :
  prepareCanvas viewportWidth totalHeight dpr = Js.Return doc ->
  exists cv strategy,
    doc = {| canvas := Some cv; canvasStrategy := Some strategy |}
    /\ scale strategy = Qmax (1 # 2) dpr
    /\ lastDrawnBottomY cv = 0 /\ drawn cv = []
    /\ height cv = canvasHeight strategy.
Proof.
  unfold prepareCanvas, determineCanvasStrategy. intros H.
  repeat match type of H with
         | context [if ?c then _ else _] => destruct c; cbn [Js.bind] in H;
                                            try discriminate
         end.
  injection H as <-. do 2 eexists. repeat split.
Qed.

(** C4 (amended).  Stitch the captures of a segment, in increasing scroll
    order, into a freshly prepared canvas; let every capture have the
    segment's viewport height and an image with more than half as many rows
    as its window.  Then every stitch succeeds and, if the windows cover the
    rows [[0, canvas.height)], each of these rows lies in the destination of
    exactly one [drawImage] call: the call issued for the first (top-most in
    scroll order) capture whose window covers the row. *)
Theorem stitchViewport_rows_written_once :
  forall viewportWidth segmentHeight dpr doc messages viewportHeightCss,
    prepareCanvas viewportWidth segmentHeight dpr = Js.Return doc ->
    0 < Js.round (inject_Z viewportHeightCss * Qmax (1 # 2) dpr) ->
    inScrollOrder messages ->
    Forall (segmentCapture (Qmax (1 # 2) dpr) viewportHeightCss) messages ->
    exists doc' cv,
      stitchAll doc messages = Js.Return doc'
      /\ canvas doc' = Some cv
      /\ option_map height (canvas doc) = Some (height cv)
      /\ ((forall row, 0 <= row < height cv ->
             exists m, In m messages /\ inWindow (Qmax (1 # 2) dpr) row m = true) ->
          forall row, 0 <= row < height cv ->
            exists call,
              writersOf row (drawn cv) = [call]
              /\ find (inWindow (Qmax (1 # 2) dpr) row) messages
                 = Some (issuedBy call)).
Proof.
  intros viewportWidth segmentHeight dpr doc messages vh Hprep Hdh Horder Hcap.
  destruct (prepareCanvas_fresh _ _ _ _ Hprep)
    as (cv & strategy & -> & Hscale & HL & Hdrawn & _).
  assert (Hsc : (0 < Qmax (1 # 2) dpr)%Q).
  { apply Qlt_le_trans with (1 # 2)%Q; [reflexivity | apply Q.le_max_l]. }
  destruct (stitchAll_fresh (Qmax (1 # 2) dpr) vh Hsc Hdh strategy cv messages
                            Hscale HL Hdrawn Horder Hcap)
    as (cv' & Hrun & Hheight & Hwritten).
  exists {| canvas := Some cv'; canvasStrategy := Some strategy |}, cv'.
  split; [exact Hrun|]. split; [reflexivity|].
  split; [cbn; congruence|].
  intros Hcover row Hrow.
  specialize (Hwritten row).
  destruct (find (inWindow (Qmax (1 # 2) dpr) row) messages) as [m|] eqn:Efind.
  - destruct (writersOf row (drawn cv')) as [|call [|call' calls]];
      cbn [map] in Hwritten; try discriminate.
    exists call. split; [reflexivity|]. congruence.
  - destruct (Hcover row Hrow) as (m & Hin & Hwin).
    pose proof (find_none _ _ Efind m Hin) as Hout. congruence.
Qed.

Lemma stitchViewport_rows_written_once_witness :
  prepareCanvas 100 1500 1 = Js.Return preparedSegment
  /\ exists doc' cv,
      stitchAll preparedSegment [captureAt 0 true; captureAt 500 false]
      = Js.Return doc'
      /\ canvas doc' = Some cv
      /\ height cv = 1500
      /\ (forall row, 0 <= row < 1500 ->
            exists call,
              writersOf row (drawn cv) = [call]
              /\ find (inWindow (Qmax (1 # 2) 1) row)
                      [captureAt 0 true; captureAt 500 false]
                 = Some (issuedBy call)).
Proof.
  split; [reflexivity|].
  destruct (stitchViewport_rows_written_once 100 1500 1 preparedSegment
              [captureAt 0 true; captureAt 500 false] 1000)
    as (doc' & cv & Hrun & Hcv & Hheight & Hrows).
  - reflexivity.
  - reflexivity.
  - simpl. split; [lia|]. split.
    + repeat constructor; simpl; lia.
    + repeat constructor.
  - repeat constructor; simpl; eexists; (split; [reflexivity|]); vm_compute; reflexivity.
  - exists doc', cv. cbn in Hheight. injection Hheight as Hheight.
    split; [exact Hrun|]. split; [exact Hcv|]. split; [congruence|].
    rewrite <- Hheight in Hrows. apply Hrows.
    intros row Hrow.
    destruct (Z_lt_le_dec row 1000) as [Hlow | Hhigh].
    + exists (captureAt 0 true). split; [simpl; auto|].
      change (inWindow (Qmax (1 # 2) 1) row (captureAt 0 true))
        with ((0 <=? row) && (row <? 0 + 1000)).
      apply andb_true_iff. split; [apply Z.leb_le | apply Z.ltb_lt]; lia.
    + exists (captureAt 500 false). split; [simpl; auto|].
      change (inWindow (Qmax (1 # 2) 1) row (captureAt 500 false))
        with ((500 <=? row) && (row <? 500 + 1000)).
      apply andb_true_iff. split; [apply Z.leb_le | apply Z.ltb_lt]; lia.
Defined.

(** C4 as stated fails where two windows overlap: row 700 lies in the windows
    of both captures, the latest being the one at offset 500, yet its only
    writer is the capture at offset 0; the later capture draws from row 1000
    on.  It also fails when the image of a capture has no more than half the
    rows of its window: the crop of the second low-resolution capture rounds
    to its whole image, nothing is drawn, and row 1000 is never written. *)
Lemma stitchViewport_overlap_keeps_earlier :
  (exists doc' cv,
      stitchAll preparedSegment [captureAt 0 true; captureAt 500 false]
      = Js.Return doc'
      /\ canvas doc' = Some cv
      /\ inWindow 1 700 (captureAt 0 true) = true
      /\ inWindow 1 700 (captureAt 500 false) = true
      /\ map issuedBy (writersOf 700 (drawn cv)) = [captureAt 0 true]
      /\ map (fun call => (dy call, dh call)) (drawn cv)
         = [(0, 1000); (1000, 500)])
  /\ (prepareCanvas 100 1001 1 = Js.Return preparedOddSegment
      /\ exists doc' cv,
          stitchAll preparedOddSegment
                    [lowResolutionCaptureAt 0 true; lowResolutionCaptureAt 1 false]
          = Js.Return doc'
          /\ canvas doc' = Some cv
          /\ inWindow 1 1000 (lowResolutionCaptureAt 1 false) = true
          /\ writersOf 1000 (drawn cv) = []).
Proof.
  split.
  - do 2 eexists. split; [vm_compute; reflexivity|]. split; [reflexivity|].
    repeat split; vm_compute; reflexivity.
  - split; [vm_compute; reflexivity|].
    do 2 eexists. split; [vm_compute; reflexivity|]. split; [reflexivity|].
    split; vm_compute; reflexivity.
Qed.

End StitchedSegment.

(* ================================================================== *)
(** * Paginator: the page loop *)
(* ================================================================== *)

Section PageLoop.

Import Viewer.

Lemma pageLoop_length n g allBands page prevCutY :
  length (pageLoop n g allBands page prevCutY) = n.
Proof.
  revert page prevCutY. induction n as [|n IH]; intros; simpl; auto.
Qed.

Lemma pageLoop_nth n g allBands : forall k page prevCutY slice,
  nth_error (pageLoop n g allBands page prevCutY) k = Some slice ->
  exists cut,
    slice = pageStep g allBands (page + Z.of_nat k) cut
    /\ (k = O -> cut = prevCutY)
    /\ (forall k', k = S k' ->
          exists previous,
            nth_error (pageLoop n g allBands page prevCutY) k' = Some previous
            /\ cut = nextCutY previous).
Proof.
  induction n as [|n IH]; intros k page prevCutY slice Hnth.
  - destruct k; discriminate.
  - destruct k as [|k]; cbn [pageLoop nth_error] in *.
    + injection Hnth as <-. exists prevCutY.
      rewrite Z.add_0_r. split; auto. split; auto. intros k' Hk. discriminate.
    + destruct (IH k _ _ _ Hnth) as (cut & Hslice & Hzero & Hsucc).
      exists cut. split; [rewrite Hslice; f_equal; lia|].
      split; [discriminate|].
      intros k' Hk. injection Hk as <-.
      destruct k as [|k''].
      * eexists. split; [reflexivity|]. auto.
      * destruct (Hsucc k'' eq_refl) as (previous & Hprev & Hcut).
        exists previous. auto.
Qed.

(** Page [k] of the loop is the step taken from [prevCutYAt k]. *)
Lemma paginate_nth g allBands k slice :
  nth_error (paginate g allBands) k = Some slice ->
  (Z.of_nat k < pagesNeeded g)
  /\ slice = pageStep g allBands (Z.of_nat k) (prevCutYAt g allBands k).
Proof.
  intros Hnth. split.
  - assert (Hk : (k < length (paginate g allBands))%nat)
      by (apply nth_error_Some; congruence).
    unfold paginate in Hk. rewrite pageLoop_length in Hk. lia.
  - revert slice Hnth. unfold paginate.
    induction k as [|k IH]; intros slice Hnth.
    + destruct (pageLoop_nth _ _ _ _ _ _ _ Hnth) as (cut & -> & Hzero & _).
      rewrite (Hzero eq_refl). reflexivity.
    + destruct (pageLoop_nth _ _ _ _ _ _ _ Hnth) as (cut & -> & _ & Hsucc).
      destruct (Hsucc k eq_refl) as (previous & Hprev & ->).
      rewrite (IH _ Hprev). cbn [prevCutYAt]. f_equal.
Qed.

Lemma paginate_length g allBands :
  length (paginate g allBands) = Z.to_nat (pagesNeeded g).
Proof. apply pageLoop_length. Qed.

(** Step 6: the cut recorded by a page. *)
Lemma pageStep_nextCutY g allBands page prevCutY band :
  consumedBand (pageStep g allBands page prevCutY) = Some band ->
  nextCutY (pageStep g allBands page prevCutY) = end_ band + 1.
Proof.
  unfold pageStep.
  destruct (selectCut g allBands page prevCutY) as [[refinedEndY useOverlap] best].
  destruct (Js.ltb _ _); cbn [consumedBand nextCutY]; [discriminate|].
  intros ->. reflexivity.
Qed.

(** C5.  Whenever a page consumes a band, Step 6 sets [prevCutY] to
    [band.end + 1], and the next page is computed from that position; in the
    regression scenario the second page starts at row 491. *)
Theorem consumed_band_is_skipped :
  (forall g allBands k slice band,
      nth_error (paginate g allBands) k = Some slice ->
      consumedBand slice = Some band ->
      nextCutY slice = end_ band + 1
      /\ prevCutYAt g allBands (S k) = end_ band + 1
      /\ (forall next,
            nth_error (paginate g allBands) (S k) = Some next ->
            next = pageStep g allBands (Z.of_nat (S k)) (end_ band + 1)))
  /\ ((contentHPx regressionGeometry == 500)%Q
      /\ map srcY (paginate regressionGeometry (Some [bandAt 480 490])) = [0; 491]).
Proof.
  split.
  - intros g allBands k slice band Hnth Hband.
    destruct (paginate_nth _ _ _ _ Hnth) as [_ Hslice].
    assert (Hcut : nextCutY slice = end_ band + 1).
    { rewrite Hslice in *. apply pageStep_nextCutY. exact Hband. }
    assert (Hprev : prevCutYAt g allBands (S k) = end_ band + 1).
    { cbn [prevCutYAt]. rewrite <- Hslice. exact Hcut. }
    split; [exact Hcut|]. split; [exact Hprev|].
    intros next Hnext.
    destruct (paginate_nth _ _ _ _ Hnext) as [_ ->]. rewrite Hprev. reflexivity.
  - split; reflexivity.
Qed.

(** The first page of the regression scenario consumes the band at 480-490. *)
Lemma consumed_band_is_skipped_witness :
  exists slice,
    nth_error (paginate regressionGeometry (Some [bandAt 480 490])) 0 = Some slice
    /\ consumedBand slice = Some (bandAt 480 490)
    /\ nextCutY slice = 491
    /\ prevCutYAt regressionGeometry (Some [bandAt 480 490]) 1 = 491.
Proof.
  eexists. split; [reflexivity|]. split; [reflexivity|].
  destruct (proj1 consumed_band_is_skipped regressionGeometry
                  (Some [bandAt 480 490]) 0%nat _ (bandAt 480 490)
                  eq_refl eq_refl) as (Hcut & Hprev & _).
  split; [exact Hcut | exact Hprev].
Defined.

End PageLoop.

Section PageCuts.

Import Viewer.

(** C9.  When the refined slice height [refinedEndY - srcY] of Step 3 is below
    5% of [contentHPx], the page starts at [prevCutY], ends one rounded page
    height further (at most at the canvas bottom), uses no overlap and
    consumes no band. *)
Theorem safety_floor_forces_raw_advance :
  forall g allBands page prevCutY refinedEndY useOverlap bestBandForPage,
    selectCut g allBands page prevCutY = (refinedEndY, useOverlap, bestBandForPage) ->
    (inject_Z (refinedHeight refinedEndY useOverlap prevCutY)
     < contentHPx g * (5 # 100))%Q ->
    srcY (pageStep g allBands page prevCutY) = prevCutY
    /\ nextCutY (pageStep g allBands page prevCutY)
       = Z.min (prevCutY + Js.round (contentHPx g)) (canvas_height g)
    /\ srcH (pageStep g allBands page prevCutY)
       = Z.max 1 (Z.min (Z.min (prevCutY + Js.round (contentHPx g)) (canvas_height g)
                         - prevCutY)
                        (Js.round (contentHPx g)))
    /\ usedOverlap (pageStep g allBands page prevCutY) = false
    /\ consumedBand (pageStep g allBands page prevCutY) = None.
Proof.
  intros g allBands page prevCutY refinedEndY useOverlap best Hcut Hsmall.
  unfold pageStep. rewrite Hcut.
  unfold refinedHeight in Hsmall.
  replace (Js.ltb _ _) with true; [cbn; repeat split; reflexivity|].
  symmetry. unfold Js.ltb. apply negb_true_iff.
  destruct (Qle_bool _ _) eqn:E; auto.
  apply Qle_bool_iff in E. lra.
Qed.

(** A band at rows 5-8, right under the top of the regression raster: cutting
    there would leave a page of 5 rows, so the page advances by 500 rows. *)
Lemma safety_floor_forces_raw_advance_witness :
  selectCut regressionGeometry (Some [bandAt 5 8]) 0 0
  = (5, false, Some (bandAt 5 8))
  /\ srcY (pageStep regressionGeometry (Some [bandAt 5 8]) 0 0) = 0
  /\ nextCutY (pageStep regressionGeometry (Some [bandAt 5 8]) 0 0)
     = Z.min (0 + Js.round (contentHPx regressionGeometry))
             (canvas_height regressionGeometry)
  /\ srcH (pageStep regressionGeometry (Some [bandAt 5 8]) 0 0)
     = Z.max 1 (Z.min (Z.min (0 + Js.round (contentHPx regressionGeometry))
                             (canvas_height regressionGeometry) - 0)
                      (Js.round (contentHPx regressionGeometry)))
  /\ usedOverlap (pageStep regressionGeometry (Some [bandAt 5 8]) 0 0) = false
  /\ consumedBand (pageStep regressionGeometry (Some [bandAt 5 8]) 0 0) = None.
Proof.
  split; [reflexivity|].
  apply (safety_floor_forces_raw_advance regressionGeometry (Some [bandAt 5 8]) 0 0
           5 false (Some (bandAt 5 8))); reflexivity.
Defined.

(** Pass 1 records a band as the best one before it tests the distance: the
    first unconsumed band at or after the nominal end is returned however far
    ahead it lies. *)
Lemma pass1_first_band_ahead band rest prevCutY nominal c :
  prevCutY < end_ band ->
  (inject_Z nominal <= centre band)%Q ->
  (c * (1 # 2) < centre band - inject_Z nominal)%Q ->
  snd (pass1 (band :: rest) prevCutY nominal c None None) = Some band.
Proof.
  intros Hend Hahead Hfar. cbn [pass1 closer].
  replace (end_ band <=? prevCutY) with false by (symmetry; apply Z.leb_gt; lia).
  replace (Js.ltb (centre band) (inject_Z nominal)) with false.
  - replace (Js.ltb (c * (1 # 2)) (centre band - inject_Z nominal)) with true;
      [reflexivity|].
    symmetry. unfold Js.ltb. apply negb_true_iff.
    destruct (Qle_bool _ _) eqn:E; auto. apply Qle_bool_iff in E. lra.
  - symmetry. unfold Js.ltb. apply negb_false_iff. apply Qle_bool_iff. exact Hahead.
Qed.

(** C6 on the code.  In the A4 export of a raster 380 x 2000 the only band is
    at rows 1000-1010.  Its centre is 451 rows past the nominal end 554 of
    the first page, more than half a page (277 rows), and still the first
    page consumes it.  The page is clamped to 554 rows and the next one
    starts 60 rows before row 1011: rows 554 to 950 are on no page. *)
Lemma pass1_takes_band_beyond_half_page :
  (contentHPx (a4Geometry 380 2000) == 554)%Q
  /\ pagesNeeded (a4Geometry 380 2000) = 4
  /\ nominalEndY (a4Geometry 380 2000) 0 = 554
  /\ (contentHPx (a4Geometry 380 2000) * (1 # 2)
      < centre (bandAt 1000 1010) - inject_Z 554)%Q
  /\ snd (pass1 [bandAt 1000 1010] 0 554 (contentHPx (a4Geometry 380 2000)) None None)
     = Some (bandAt 1000 1010)
  /\ map (fun s => (srcY s, srcH s, consumedBand s))
         (paginate (a4Geometry 380 2000) (Some [bandAt 1000 1010]))
     = [(0, 554, Some (bandAt 1000 1010)); (951, 157, None);
        (1048, 554, None); (1662, 338, None)].
Proof.
  repeat split; reflexivity.
Qed.

End PageCuts.

(* ================================================================== *)
(** * Paginator: invariants of the emitted slices *)
(* ================================================================== *)

Section SliceInvariants.

Import Viewer.




Lemma nominalEndY_le g page : nominalEndY g page <= canvas_height g.
Proof. unfold nominalEndY. apply Z.le_min_r. Qed.

Lemma round_nonneg (x : Q) : (0 <= x)%Q -> 0 <= Js.round x.
Proof. intros H. change 0 with (Js.round 0). apply round_mono. exact H. Qed.


Lemma ltb_true_lt (x y : Q) : Js.ltb x y = true -> (x < y)%Q.
Proof.
  unfold Js.ltb. intros H. apply negb_true_iff in H.
  apply Qnot_le_lt. intros Hle. apply Qle_bool_iff in Hle. congruence.
Qed.

Variable g : PageGeometry.
Variable allBands : option (list Band).

Hypothesis contentHPx_nonneg : (0 <= contentHPx g)%Q.
Hypothesis canvas_nonneg : 0 <= canvas_height g.
Hypothesis bands_within : bandsWithin g allBands.



End SliceInvariants.

Section SliceSequence.

Import Viewer.


End SliceSequence.

(* ================================================================== *)
(** * Paginator: the geometry of a real export *)
(* ================================================================== *)

Section ExportGeometry.

Import Viewer.

Variable ctx : ExportContext.
Variable canvas : SourceCanvas.
Variable pageSize : string.

(** The raster has at least one column and the footer at most its two lines
    (the URL and the timestamp). *)
Hypothesis width_positive : 1 <= canvasWidth canvas.
Hypothesis footer_lines : (length (footerLines ctx) <= 2)%nat.

(** The lengths of [pageGeometry], spelled out: the width of the content
    area, the image height of a page, and millimetres per pixel. *)
Lemma pageGeometry_lengths :
  exists contentW pxToMm : Q,
    (190 <= contentW <= 1959 # 10)%Q
    /\ (0 < pxToMm)%Q
    /\ (2499 # 10 <= imageContentH (pageGeometry ctx canvas pageSize) <= 277)%Q
    /\ (267 <= imageContentH (pageGeometry ctx canvas pageSize) \/ 195 <= contentW)%Q
    /\ scale (pageGeometry ctx canvas pageSize)
       = (contentW / (inject_Z (canvasWidth canvas) * pxToMm))%Q
    /\ imgHeightMm (pageGeometry ctx canvas pageSize)
       = (inject_Z (canvasHeight canvas) * pxToMm)%Q.
Proof.
  unfold pageGeometry.
  cbn [imageContentH scale imgHeightMm canvas_height].
  set (dpr := Z.max 1 (Js.round (Js.orQ (windowDevicePixelRatio ctx) 1))).
  assert (Hdpr : (1 <= inject_Z dpr)%Q).
  { change 1%Q with (inject_Z 1). apply inject_Z_le. subst dpr. lia. }
  set (pxToMm := ((254 # 10) / (96 * inject_Z dpr))%Q).
  assert (Hpx : (0 < pxToMm)%Q).
  { subst pxToMm. apply Qlt_shift_div_l; lra. }
  unfold margin, FOOTER_PADDING_MM, FOOTER_LINE_HEIGHT_MM.
  destruct (String.eqb pageSize "a4"); cbn [fst snd];
    eexists; exists pxToMm;
    (split; [|split; [exact Hpx|split; [|split; [|split; reflexivity]]]]);
    try (split; apply Qle_bool_iff; vm_compute; reflexivity);
    destruct (footerLines ctx) as [|l1 [|l2 [|l3 ls]]];
    simpl length in *; try lia;
    try (split; apply Qle_bool_iff; vm_compute; reflexivity);
    try (left; apply Qle_bool_iff; vm_compute; reflexivity);
    try (right; apply Qle_bool_iff; vm_compute; reflexivity).
Qed.

Lemma pageGeometry_scale_positive :
  (0 < scale (pageGeometry ctx canvas pageSize))%Q.
Proof.
  destruct pageGeometry_lengths as (cw & px & Hcw & Hpx & _ & _ & -> & _).
  assert (HW : (1 <= inject_Z (canvasWidth canvas))%Q).
  { change 1%Q with (inject_Z 1). apply inject_Z_le. exact width_positive. }
  apply Qlt_shift_div_l.
  - apply Qmult_lt_0_compat; lra.
  - lra.
Qed.

Lemma pageGeometry_imgHeightMm_positive :
  1 <= canvasHeight canvas ->
  (0 < imgHeightMm (pageGeometry ctx canvas pageSize))%Q.
Proof.
  intros HH.
  destruct pageGeometry_lengths as (cw & px & Hcw & Hpx & _ & _ & _ & ->).
  assert (Hh : (1 <= inject_Z (canvasHeight canvas))%Q).
  { change 1%Q with (inject_Z 1). apply inject_Z_le. exact HH. }
  apply Qmult_lt_0_compat; lra.
Qed.

(** One page holds more than one source row. *)
Lemma pageGeometry_contentHPx :
  1 <= canvasHeight canvas ->
  (20 # 19 <= contentHPx (pageGeometry ctx canvas pageSize))%Q.
Proof.
  intros HH. unfold contentHPx.
  destruct pageGeometry_lengths as (cw & px & Hcw & Hpx & Hi & Hbig & -> & ->).
  replace (canvas_height (pageGeometry ctx canvas pageSize)) with (canvasHeight canvas)
    by reflexivity.
  set (I := imageContentH (pageGeometry ctx canvas pageSize)) in *.
  set (W := inject_Z (canvasWidth canvas)).
  set (H := inject_Z (canvasHeight canvas)).
  assert (HW : (1 <= W)%Q).
  { change 1%Q with (inject_Z 1). apply inject_Z_le. exact width_positive. }
  assert (Hh : (1 <= H)%Q).
  { change 1%Q with (inject_Z 1). apply inject_Z_le. exact HH. }
  assert (E : (I / (cw / (W * px)) / (H * px) * H == I * W / cw)%Q)
    by (field; repeat split; lra).
  rewrite E.
  apply Qle_shift_div_l; [lra|].
  assert (HIW : (I * 1 <= I * W)%Q) by (apply Qmult_le_l; lra).
  destruct Hbig; lra.
Qed.

Lemma pageGeometry_contentHPx_nonneg :
  0 <= canvasHeight canvas ->
  (0 <= contentHPx (pageGeometry ctx canvas pageSize))%Q.
Proof.
  intros HH.
  destruct (Z.eq_dec (canvasHeight canvas) 0) as [E | E].
  - unfold contentHPx.
    replace (canvas_height (pageGeometry ctx canvas pageSize)) with (canvasHeight canvas)
      by reflexivity.
    rewrite E. rewrite Qmult_0_r. apply Qle_refl.
  - pose proof (pageGeometry_contentHPx ltac:(lia)). lra.
Qed.

Lemma pagesNeeded_nonneg :
  0 <= canvasHeight canvas -> 0 <= pagesNeeded (pageGeometry ctx canvas pageSize).
Proof.
  intros HH. unfold pagesNeeded, scaledHeight.
  pose proof pageGeometry_scale_positive as Hs.
  destruct pageGeometry_lengths as (cw & px & Hcw & Hpx & Hi & _ & _ & Em).
  rewrite Em.
  assert (Hh : (0 <= inject_Z (canvasHeight canvas))%Q).
  { change 0%Q with (inject_Z 0). apply inject_Z_le. exact HH. }
  change 0 with (Js.ceil 0). unfold Js.ceil. apply Qceiling_resp_le.
  apply Qle_shift_div_l; [lra|]. rewrite Qmult_0_l.
  apply Qmult_le_0_compat; [apply Qmult_le_0_compat|]; lra.
Qed.

End ExportGeometry.

(* ================================================================== *)
(** * Paginator: pagination without bands *)
(* ================================================================== *)

Section WithoutBands.

Import Viewer.

Variable g : PageGeometry.

Hypothesis scale_pos : (0 < scale g)%Q.
Hypothesis imgHeightMm_pos : (0 < imgHeightMm g)%Q.
Hypothesis canvas_height_nonneg : 0 <= canvas_height g.
Hypothesis page_holds_rows : (20 # 19 <= contentHPx g)%Q.

Lemma inject_Z_sub (a b : Z) : (inject_Z (a - b) == inject_Z a - inject_Z b)%Q.
Proof.
  unfold Z.sub. rewrite inject_Z_plus, inject_Z_opp. reflexivity.
Qed.

Lemma round_comp (x y : Q) : (x == y)%Q -> Js.round x = Js.round y.
Proof. intros E. unfold Js.round. apply Qfloor_comp. rewrite E. reflexivity. Qed.

(** The nominal end of a page is at most half a row past [(page + 1)] pages. *)
Lemma nominalEndY_upper (page : Z) :
  (inject_Z (nominalEndY g page)
   <= inject_Z (page + 1) * contentHPx g + (1 # 2))%Q.
Proof.
  unfold nominalEndY, contentHPx.
  set (a := (inject_Z (page + 1) * imageContentH g / scale g)%Q).
  set (M := imgHeightMm g) in *.
  set (H := inject_Z (canvas_height g)).
  assert (HH : (0 <= H)%Q).
  { unfold H. change 0%Q with (inject_Z 0). apply inject_Z_le. exact canvas_height_nonneg. }
  destruct (round_bounds (Qmin a M / M * H)) as [_ Hhi].
  assert (Hx : (Qmin a M / M * H <= a / M * H)%Q).
  { apply Qmult_le_compat_r; [|exact HH].
    apply Qle_shift_div_l; [exact imgHeightMm_pos|].
    assert (E : (Qmin a M / M * M == Qmin a M)%Q) by (field; lra).
    rewrite E. apply Q.le_min_l. }
  assert (E : (a / M * H
               == inject_Z (page + 1) * (imageContentH g / scale g / M * H))%Q)
    by (unfold a; field; split; lra).
  rewrite E in Hx.
  apply Qle_trans with (inject_Z (Js.round (Qmin a M / M * H))).
  - apply inject_Z_le. apply Z.le_min_l.
  - lra.
Qed.

(** Either the page ends inside the raster, within half a row of
    [(page + 1)] pages, or it ends at the bottom. *)
Lemma nominalEndY_cases (page : Z) :
  (inject_Z (page + 1) * contentHPx g - (1 # 2) < inject_Z (nominalEndY g page))%Q
  \/ nominalEndY g page = canvas_height g.
Proof.
  unfold nominalEndY, contentHPx.
  set (a := (inject_Z (page + 1) * imageContentH g / scale g)%Q).
  set (M := imgHeightMm g) in *.
  set (H := inject_Z (canvas_height g)).
  assert (HH : (0 <= H)%Q).
  { unfold H. change 0%Q with (inject_Z 0). apply inject_Z_le. exact canvas_height_nonneg. }
  destruct (Q.min_spec a M) as [[Hlt Emin] | [Hle Emin]].
  - (* the page ends before the bottom *)
    assert (Ex : (Qmin a M / M * H
                  == inject_Z (page + 1) * (imageContentH g / scale g / M * H))%Q).
    { rewrite Emin. unfold a. field. split; lra. }
    destruct (round_bounds (Qmin a M / M * H)) as [Hlo _].
    destruct (Z.min_spec (Js.round (Qmin a M / M * H)) (canvas_height g))
      as [[_ ->] | [_ ->]].
    + left. lra.
    + right. reflexivity.
  - right.
    assert (Ex : (Qmin a M / M * H == H)%Q).
    { rewrite Emin. field. lra. }
    rewrite (round_comp _ _ Ex). unfold H. rewrite round_inject. apply Z.min_id.
Qed.

(** Without bands a page that starts within half a row of [page] pages is
    cut at its nominal end. *)
Lemma pageStep_without_bands (page prevCutY : Z) :
  (inject_Z prevCutY <= inject_Z page * contentHPx g + (1 # 2))%Q ->
  let slice := pageStep g None page prevCutY in
  srcY slice = prevCutY
  /\ usedOverlap slice = false
  /\ consumedBand slice = None
  /\ nextCutY slice = nominalEndY g page.
Proof.
  intros Hprev. cbv zeta. unfold pageStep, selectCut. cbn [andb].
  destruct (Js.ltb _ _) eqn:Efloor; cbn [srcY usedOverlap consumedBand nextCutY];
    [|repeat split; reflexivity].
  repeat split.
  apply ltb_true_lt in Efloor.
  rewrite inject_Z_sub in Efloor.
  destruct (nominalEndY_cases page) as [Hin | Hbottom].
  - exfalso. rewrite inject_Z_plus in Hin. change (inject_Z 1) with 1%Q in Hin.
    lra.
  - rewrite Hbottom in *.
    destruct (round_bounds (contentHPx g)) as [Hlo _].
    assert (Hlt : (inject_Z (canvas_height g) < inject_Z (prevCutY + Js.round (contentHPx g)))%Q).
    { rewrite inject_Z_plus. lra. }
    rewrite <- Zlt_Qlt in Hlt. lia.
Qed.

(** The cut before page [k]: the top of the raster, then the nominal end of
    the page before. *)
Lemma prevCutYAt_without_bands (k : nat) :
  prevCutYAt g None k = match k with
                        | O => 0
                        | S k' => nominalEndY g (Z.of_nat k')
                        end
  /\ (inject_Z (prevCutYAt g None k) <= inject_Z (Z.of_nat k) * contentHPx g + (1 # 2))%Q.
Proof.
  induction k as [|k [_ IH]].
  - split; [reflexivity|]. cbn [prevCutYAt Z.of_nat].
    change (inject_Z 0) with 0%Q. lra.
  - assert (Hcut : prevCutYAt g None (S k) = nominalEndY g (Z.of_nat k)).
    { cbn [prevCutYAt]. apply (pageStep_without_bands (Z.of_nat k) _ IH). }
    split; [exact Hcut|]. rewrite Hcut.
    replace (Z.of_nat (S k)) with (Z.of_nat k + 1) by lia.
    apply nominalEndY_upper.
Qed.

End WithoutBands.

(* ================================================================== *)
(** * Paginator: the exported pages *)
(* ================================================================== *)

Section ExportedPages.

Import Viewer.

Lemma pageStep_srcH_positive g allBands page prevCutY :
  1 <= srcH (pageStep g allBands page prevCutY).
Proof.
  unfold pageStep.
  destruct (selectCut g allBands page prevCutY) as [[refinedEndY useOverlap] best].
  destruct (Js.ltb _ _); cbn [srcH]; lia.
Qed.

Lemma pageLoop_srcH_positive n g allBands : forall page prevCutY,
  Forall (fun s => 1 <= srcH s) (pageLoop n g allBands page prevCutY).
Proof.
  induction n as [|n IH]; intros page prevCutY; cbn [pageLoop]; constructor.
  - apply pageStep_srcH_positive.
  - apply IH.
Qed.

(** The export has as many slices as the page loop has iterations. *)
Lemma appendCanvasToPagedPdf_length ctx canvas pageSize :
  1 <= canvasWidth canvas -> 0 <= canvasHeight canvas ->
  (length (footerLines ctx) <= 2)%nat ->
  Z.of_nat (length (appendCanvasToPagedPdf ctx canvas pageSize))
  = pagesNeeded (pageGeometry ctx canvas pageSize).
Proof.
  intros HW HH Hfooter.
  unfold appendCanvasToPagedPdf. rewrite paginate_length.
  apply Z2Nat.id. apply pagesNeeded_nonneg; auto.
Qed.

(** C10.  For a raster with at least one column (and the footer of at most
    two lines), [appendCanvasToPagedPdf] emits exactly
    [pagesNeeded = ceil(scaledHeight / imageContentH)] slices, each with
    [srcH >= 1]. *)
Theorem appendCanvasToPagedPdf_page_count :
  forall ctx canvas pageSize,
    1 <= canvasWidth canvas -> 0 <= canvasHeight canvas ->
    (length (footerLines ctx) <= 2)%nat ->
    pagesNeeded (pageGeometry ctx canvas pageSize)
    = Js.ceil (scaledHeight (pageGeometry ctx canvas pageSize)
               / imageContentH (pageGeometry ctx canvas pageSize))
    /\ Z.of_nat (length (appendCanvasToPagedPdf ctx canvas pageSize))
       = pagesNeeded (pageGeometry ctx canvas pageSize)
    /\ Forall (fun s => 1 <= srcH s) (appendCanvasToPagedPdf ctx canvas pageSize).
Proof.
  intros ctx canvas pageSize HW HH Hfooter.
  split; [reflexivity|]. split.
  - apply appendCanvasToPagedPdf_length; auto.
  - apply pageLoop_srcH_positive.
Qed.

Lemma appendCanvasToPagedPdf_page_count_witness :
  pagesNeeded (pageGeometry plainContext taintedCanvas "a4") = 4
  /\ pagesNeeded (pageGeometry plainContext taintedCanvas "a4")
     = Js.ceil (scaledHeight (pageGeometry plainContext taintedCanvas "a4")
                / imageContentH (pageGeometry plainContext taintedCanvas "a4"))
  /\ Z.of_nat (length (appendCanvasToPagedPdf plainContext taintedCanvas "a4"))
     = pagesNeeded (pageGeometry plainContext taintedCanvas "a4")
  /\ Forall (fun s => 1 <= srcH s)
            (appendCanvasToPagedPdf plainContext taintedCanvas "a4").
Proof.
  split; [vm_compute; reflexivity|].
  apply (appendCanvasToPagedPdf_page_count plainContext taintedCanvas "a4").
  - vm_compute. discriminate.
  - vm_compute. discriminate.
  - simpl. lia.
Defined.

(** The cuts when reading the pixels throws: [allBands] is [null] and the
    page loop plans its [pagesNeeded] pages; no page consumes a band or
    backs up by the overlap, and every page runs from the nominal end of
    the page before it (the top of the raster for the first) to its own
    nominal end. *)
Theorem unreadable_pixels_cut_at_nominal :
  forall ctx canvas pageSize,
    getImageData canvas = None ->
    1 <= canvasWidth canvas -> 1 <= canvasHeight canvas ->
    (length (footerLines ctx) <= 2)%nat ->
    readBands canvas = None
    /\ Z.of_nat (length (appendCanvasToPagedPdf ctx canvas pageSize))
       = pagesNeeded (pageGeometry ctx canvas pageSize)
    /\ (forall k slice,
          nth_error (appendCanvasToPagedPdf ctx canvas pageSize) k = Some slice ->
          consumedBand slice = None
          /\ usedOverlap slice = false
          /\ srcY slice = match k with
                          | O => 0
                          | S k' => nominalEndY (pageGeometry ctx canvas pageSize)
                                                (Z.of_nat k')
                          end
          /\ nextCutY slice
             = nominalEndY (pageGeometry ctx canvas pageSize) (Z.of_nat k)).
Proof.
  intros ctx canvas pageSize Hdata HW HH Hfooter.
  assert (Hbands : readBands canvas = None) by (unfold readBands; rewrite Hdata; reflexivity).
  split; [exact Hbands|]. split.
  - apply appendCanvasToPagedPdf_length; auto. lia.
  - intros k slice Hnth. unfold appendCanvasToPagedPdf in Hnth. rewrite Hbands in Hnth.
    destruct (paginate_nth _ _ _ _ Hnth) as [_ ->].
    set (g := pageGeometry ctx canvas pageSize) in *.
    assert (Hs : (0 < scale g)%Q) by (apply pageGeometry_scale_positive; auto).
    assert (HM : (0 < imgHeightMm g)%Q) by (apply pageGeometry_imgHeightMm_positive; auto).
    assert (Hh : 0 <= canvas_height g) by (unfold g; cbn; lia).
    assert (Hc : (20 # 19 <= contentHPx g)%Q) by (apply pageGeometry_contentHPx; auto).
    destruct (prevCutYAt_without_bands g Hs HM Hh Hc k) as [Hcut Hbound].
    destruct (pageStep_without_bands g Hs HM Hh Hc (Z.of_nat k) _ Hbound)
      as (HsrcY & Hover & Hband & Hnext).
    split; [exact Hband|]. split; [exact Hover|].
    split; [rewrite HsrcY; exact Hcut | exact Hnext].
Qed.

Lemma unreadable_pixels_cut_at_nominal_witness :
  map (fun s => (srcY s, nextCutY s))
      (appendCanvasToPagedPdf plainContext taintedCanvas "a4")
  = [(0, 554); (554, 1108); (1108, 1662); (1662, 2000)]
  /\ readBands taintedCanvas = None
  /\ Z.of_nat (length (appendCanvasToPagedPdf plainContext taintedCanvas "a4"))
     = pagesNeeded (pageGeometry plainContext taintedCanvas "a4")
  /\ (forall k slice,
        nth_error (appendCanvasToPagedPdf plainContext taintedCanvas "a4") k
        = Some slice ->
        consumedBand slice = None
        /\ usedOverlap slice = false
        /\ srcY slice = match k with
                        | O => 0
                        | S k' => nominalEndY
                                    (pageGeometry plainContext taintedCanvas "a4")
                                    (Z.of_nat k')
                        end
        /\ nextCutY slice
           = nominalEndY (pageGeometry plainContext taintedCanvas "a4") (Z.of_nat k)).
Proof.
  split; [vm_compute; reflexivity|].
  apply (unreadable_pixels_cut_at_nominal plainContext taintedCanvas "a4").
  - reflexivity.
  - vm_compute. discriminate.
  - vm_compute. discriminate.
  - simpl. lia.
Defined.

End ExportedPages.

(* ================================================================== *)
(** * Paginator: the bands of a readable raster *)
(* ================================================================== *)

Section DetectedBands.

Import Viewer.

(** Every band found lies inside the scanned rows. *)
Lemma bandScan_within (rowScores : list Q) (fromY toY : Z) (threshold : Q)
      (minBandPx : Z) (n : nat) :
  forall r bandStart bands,
    fromY <= r -> r + Z.of_nat n <= toY + 2 ->
    bandStart < 0 \/ fromY <= bandStart < r ->
    Forall (fun band => fromY <= start band <= end_ band /\ end_ band <= toY) bands ->
    Forall (fun band => fromY <= start band <= end_ band /\ end_ band <= toY)
           (bandScan n rowScores r toY threshold minBandPx bandStart bands).
Proof.
  induction n as [|n IH]; intros r bandStart bands Hr Hn Hstart Hbands;
    cbn [bandScan]; [exact Hbands|].
  rewrite Nat2Z.inj_succ in Hn.
  destruct (_ && _) eqn:Eblank.
  - apply IH; auto; try lia.
    destruct (bandStart <? 0) eqn:E; [apply Z.ltb_lt in E | apply Z.ltb_ge in E]; lia.
  - destruct (0 <=? bandStart) eqn:E0.
    + apply Z.leb_le in E0. apply IH; auto; try lia.
      destruct (minBandPx <=? r - 1 - bandStart + 1); auto.
      apply Forall_app. split; auto.
      constructor; [|constructor]. cbn [start end_]. lia.
    + apply Z.leb_gt in E0. apply IH; auto; lia.
Qed.

Lemma findAllWhitespaceBands_within rowScores fromY toY threshold minBandPx :
  Forall (fun band => fromY <= start band <= end_ band /\ end_ band <= toY)
         (findAllWhitespaceBands rowScores fromY toY threshold minBandPx).
Proof.
  unfold findAllWhitespaceBands.
  destruct (Z_lt_le_dec (toY + 1 - fromY + 1) 0) as [Hneg | Hpos].
  - replace (Z.to_nat (toY + 1 - fromY + 1)) with 0%nat by lia. constructor.
  - apply bandScan_within; auto; lia.
Qed.

(** The bands read from a raster satisfy the hypothesis of the slice
    invariants, and so does its geometry. *)
Lemma readBands_within ctx canvas pageSize :
  bandsWithin (pageGeometry ctx canvas pageSize) (readBands canvas).
Proof.
  unfold readBands, bandsWithin. destruct (getImageData canvas) as [data|]; [|exact I].
  eapply Forall_impl; [|apply findAllWhitespaceBands_within].
  intros band [_ Hend]. cbn. lia.
Qed.

(** Every export of a raster with at least one column meets the hypotheses
    under which the slice invariants are proved. *)
Lemma export_meets_slice_hypotheses ctx canvas pageSize :
  1 <= canvasWidth canvas -> 0 <= canvasHeight canvas ->
  (length (footerLines ctx) <= 2)%nat ->
  (0 <= contentHPx (pageGeometry ctx canvas pageSize))%Q
  /\ 0 <= canvas_height (pageGeometry ctx canvas pageSize)
  /\ bandsWithin (pageGeometry ctx canvas pageSize) (readBands canvas).
Proof.
  intros HW HH Hfooter. split; [|split].
  - apply pageGeometry_contentHPx_nonneg; auto.
  - exact HH.
  - apply readBands_within.
Qed.

End DetectedBands.

(* ================================================================== *)
(** * Capture flow: the plan in closed form *)
(* ================================================================== *)

Section PlanClosedForm.

Import ServiceWorker.

(** The offsets planned for a page: [calculateScrollPositions] with enough
    fuel. *)
Lemma calculateScrollPositions_run totalHeight viewportHeight fuel :
  0 < totalHeight -> 0 < viewportHeight ->
  (Z.to_nat (totalHeight / viewportHeight) <= fuel)%nat ->
  calculateScrollPositions fuel totalHeight viewportHeight
  = Some (if totalHeight <? viewportHeight then [0]
          else planOf totalHeight viewportHeight).
Proof.
  intros HH Hv Hfuel.
  destruct (totalHeight <? viewportHeight) eqn:E.
  - apply Z.ltb_lt in E. unfold calculateScrollPositions.
    replace (totalHeight <=? viewportHeight) with true
      by (symmetry; apply Z.leb_le; lia).
    reflexivity.
  - apply Z.ltb_ge in E. apply calculateScrollPositions_planOf; auto.
Qed.

Lemma ceil_div_bounds (a b : Z) :
  0 < b -> ((a + b - 1) / b - 1) * b < a <= (a + b - 1) / b * b.
Proof.
  intros Hb.
  pose proof (Z.mul_div_le (a + b - 1) b Hb).
  pose proof (Z.mul_succ_div_gt (a + b - 1) b Hb).
  nia.
Qed.

(** The plan has [ceil(totalHeight / viewportHeight)] offsets, and the
    [j]-th is [j * viewportHeight] clamped to the last full viewport. *)
Lemma planned_offsets totalHeight viewportHeight :
  0 < totalHeight -> 0 < viewportHeight ->
  let offsets := if totalHeight <? viewportHeight then [0]
                 else planOf totalHeight viewportHeight in
  Z.of_nat (length offsets) = (totalHeight + viewportHeight - 1) / viewportHeight
  /\ (forall j, (j < length offsets)%nat ->
        nth j offsets 0
        = Z.max 0 (Z.min (Z.of_nat j * viewportHeight)
                         (totalHeight - viewportHeight))).
Proof.
  intros HH Hv. cbv zeta.
  destruct (totalHeight <? viewportHeight) eqn:E.
  - apply Z.ltb_lt in E. split.
    + change (Z.of_nat (length [0])) with 1.
      apply Z.div_unique with (r := totalHeight - 1); lia.
    + intros j Hj. cbn [length] in Hj. replace j with 0%nat by lia.
      cbn [nth Z.of_nat]. lia.
  - apply Z.ltb_ge in E.
    destruct (planOf_shape totalHeight viewportHeight Hv E)
      as (kk & Hkk & Hbounds & [[Eq Epl] | [Hlt Epl]]); rewrite Epl.
    + rewrite multiples_length. split.
      * apply Z.div_unique with (r := viewportHeight - 1); lia.
      * intros j Hj. rewrite multiples_nth by exact Hj. nia.
    + rewrite length_app, multiples_length. cbn [length]. split.
      * apply Z.div_unique
          with (r := totalHeight - 1 - Z.of_nat kk * viewportHeight); lia.
      * intros j Hj.
        destruct (Nat.lt_ge_cases j kk) as [Hjk | Hjk].
        -- rewrite app_nth1 by (rewrite multiples_length; exact Hjk).
           rewrite multiples_nth by exact Hjk. nia.
        -- replace j with kk by lia.
           rewrite app_nth2 by (rewrite multiples_length; lia).
           rewrite multiples_length, Nat.sub_diag. cbn [nth]. nia.
Qed.

(** X1.  For a page at least one pixel tall and a viewport at least one
    pixel tall, [calculateScrollPositions] returns
    [ceil(totalHeight / viewportHeight)] offsets, and the [j]-th is
    [max(0, min(j * viewportHeight, totalHeight - viewportHeight))]. *)
Theorem calculateScrollPositions_closed_form :
  forall totalHeight viewportHeight fuel,
    0 < totalHeight -> 0 < viewportHeight ->
    (Z.to_nat (totalHeight / viewportHeight) <= fuel)%nat ->
    exists offsets,
      calculateScrollPositions fuel totalHeight viewportHeight = Some offsets
      /\ Z.of_nat (length offsets)
         = (totalHeight + viewportHeight - 1) / viewportHeight
      /\ (forall j, (j < length offsets)%nat ->
            nth j offsets 0
            = Z.max 0 (Z.min (Z.of_nat j * viewportHeight)
                             (totalHeight - viewportHeight))).
Proof.
  intros totalHeight viewportHeight fuel HH Hv Hfuel.
  eexists. split; [apply calculateScrollPositions_run; auto|].
  apply planned_offsets; auto.
Qed.

Lemma calculateScrollPositions_closed_form_witness :
  calculateScrollPositions 3 2500 720 = Some [0; 720; 1440; 1780]
  /\ exists offsets,
      calculateScrollPositions 3 2500 720 = Some offsets
      /\ Z.of_nat (length offsets) = (2500 + 720 - 1) / 720
      /\ (forall j, (j < length offsets)%nat ->
            nth j offsets 0 = Z.max 0 (Z.min (Z.of_nat j * 720) (2500 - 720))).
Proof.
  split; [reflexivity|].
  apply (calculateScrollPositions_closed_form 2500 720 3); [lia | lia |].
  vm_compute. lia.
Defined.

End PlanClosedForm.

(* ================================================================== *)
(** * Capture flow: the strategy never fails *)
(* ================================================================== *)

Section StrategyReturns.

Import ServiceWorker CAPTURE_LIMITS.

Lemma roundTo3_floor (x : Q) : (1 # 2 <= x)%Q -> (1 # 2 <= roundTo x 3)%Q.
Proof.
  intros H. unfold roundTo. change (Qpower 10 3) with 1000%Q.
  assert (H500 : 500 <= Js.round (x * 1000)).
  { rewrite <- (round_inject 500). apply round_mono.
    change (inject_Z 500) with 500%Q. lra. }
  apply inject_Z_le in H500. change (inject_Z 500) with 500%Q in H500.
  apply Qle_shift_div_l; lra.
Qed.

Lemma safeViewportHeight_positive metrics : 1 <= safeViewportHeight metrics.
Proof. unfold safeViewportHeight. lia. Qed.

Lemma safeViewportHeight_id metrics :
  1 <= viewportHeight metrics -> safeViewportHeight metrics = viewportHeight metrics.
Proof.
  intros H. unfold safeViewportHeight, Js.orZ.
  replace (viewportHeight metrics =? 0) with false by (symmetry; apply Z.eqb_neq; lia).
  lia.
Qed.

(** Both error branches of [computeCaptureStrategy] are dead. *)
Lemma computeCaptureStrategy_run (metrics : Metrics) :
  exists strategy,
    computeCaptureStrategy metrics = Js.Return strategy
    /\ (1 # 2 <= effectiveDpr strategy)%Q
    /\ (effectiveDpr strategy
        <= Qmax (1 # 2) (Js.orQ (devicePixelRatio metrics) 1) + (1 # 2000))%Q
    /\ safeViewportHeight metrics <= maxSegmentHeightCss strategy
    /\ 1 <= viewportsPerSegment strategy
    /\ viewportsPerSegment strategy * safeViewportHeight metrics
       <= maxSegmentHeightCss strategy.
Proof.
  assert (Hc : (1 # 2 <= clampedDpr metrics)%Q) by (unfold clampedDpr; apply Q.le_max_l).
  pose proof (roundTo3_floor _ Hc) as He.
  destruct (roundTo3_bounds (clampedDpr metrics)) as [_ Hup].
  assert (Hcap : (clampedDpr metrics
                  <= Qmax (1 # 2) (Js.orQ (devicePixelRatio metrics) 1))%Q).
  { unfold clampedDpr. apply Q.max_le_compat_l. apply Q.le_min_l. }
  pose proof (safeViewportHeight_positive metrics) as Hvh.
  unfold computeCaptureStrategy.
  set (e := roundTo (clampedDpr metrics) 3) in *.
  set (vh := safeViewportHeight metrics) in *.
  destruct (Qle_bool e 0) eqn:Ee.
  { apply Qle_bool_iff in Ee. lra. }
  set (m := Z.max vh _).
  assert (Hm : vh <= m) by (unfold m; lia).
  destruct (m <=? 0) eqn:Em.
  { apply Z.leb_le in Em. lia. }
  eexists. split; [reflexivity|].
  cbn [effectiveDpr maxSegmentHeightCss viewportsPerSegment].
  split; [exact He|]. split; [lra|]. split; [exact Hm|].
  unfold Js.floor. rewrite <- Zdiv_Qdiv.
  assert (Hq : 1 <= m / vh) by (apply Z.div_le_lower_bound; lia).
  rewrite Z.max_r by exact Hq.
  split; [exact Hq|].
  rewrite Z.mul_comm. apply Z.mul_div_le. lia.
Qed.

(** X2.  [computeCaptureStrategy] returns for every geometry: neither error
    is reachable.  The ratio it returns is at least 0.5 and at most half a
    thousandth above [max(0.5, devicePixelRatio)]; a segment holds at least
    one viewport, and [viewportsPerSegment] whole viewports fit in
    [maxSegmentHeightCss]. *)
Theorem computeCaptureStrategy_returns :
  forall metrics, exists strategy,
    computeCaptureStrategy metrics = Js.Return strategy
    /\ (1 # 2 <= effectiveDpr strategy)%Q
    /\ (effectiveDpr strategy
        <= Qmax (1 # 2) (Js.orQ (devicePixelRatio metrics) 1) + (1 # 2000))%Q
    /\ safeViewportHeight metrics <= maxSegmentHeightCss strategy
    /\ 1 <= viewportsPerSegment strategy
    /\ viewportsPerSegment strategy * safeViewportHeight metrics
       <= maxSegmentHeightCss strategy.
Proof. exact computeCaptureStrategy_run. Qed.

End StrategyReturns.

(* ================================================================== *)
(** * Capture flow: the shape of the segments *)
(* ================================================================== *)

Section SegmentShape.

Import ServiceWorker.

Lemma segmentsOf_nth positions viewportHeight totalHeight v k s :
  nth_error (segmentsOf positions viewportHeight totalHeight v) k = Some s ->
  (k < chunkCount (length positions) v)%nat
  /\ s = segmentAt positions viewportHeight totalHeight v k (k * v).
Proof.
  intros Hn.
  assert (Hk : (k < chunkCount (length positions) v)%nat).
  { rewrite <- (segmentsOf_length positions viewportHeight totalHeight v).
    apply nth_error_Some. congruence. }
  split; [exact Hk|].
  unfold segmentsOf in Hn. rewrite nth_error_map in Hn.
  rewrite (nth_error_nth' _ 0%nat) in Hn by (rewrite length_seq; exact Hk).
  rewrite seq_nth in Hn by exact Hk.
  cbn [option_map Nat.add] in Hn. congruence.
Qed.

Lemma segmentAt_length positions viewportHeight totalHeight v m k :
  (1 <= v)%nat -> (k * v < length positions)%nat ->
  let s := segmentAt positions viewportHeight totalHeight v m (k * v) in
  (1 <= length (ServiceWorker.positions s) <= v)%nat
  /\ (k * v + length (ServiceWorker.positions s) <= length positions)%nat
  /\ ((S k * v < length positions)%nat -> length (ServiceWorker.positions s) = v).
Proof.
  intros Hv Hk. cbv zeta. cbn [segmentAt ServiceWorker.positions].
  rewrite slice_length.
  split; [lia|]. split; [lia|].
  intros Hnext. change (S k * v)%nat with (v + k * v)%nat in Hnext. lia.
Qed.

(** X3.  With [viewportsPerSegment >= 1] the segment loop makes
    [ceil(positions.length / viewportsPerSegment)] segments.  Segment [k]
    has index [k], starts at position [k * viewportsPerSegment] and holds
    the positions from there on: exactly [viewportsPerSegment] of them,
    except that the last segment may hold fewer (but at least one). *)
Theorem buildCaptureSegments_shape :
  forall positions viewportHeight totalHeight viewportsPerSegment fuel,
    (1 <= viewportsPerSegment)%nat ->
    (length positions <= fuel)%nat ->
    exists segments,
      buildCaptureSegments fuel positions viewportHeight totalHeight
                           viewportsPerSegment = Some segments
      /\ length segments = chunkCount (length positions) viewportsPerSegment
      /\ (forall k s,
            nth_error segments k = Some s ->
            index s = k
            /\ startPositionIndex s = (k * viewportsPerSegment)%nat
            /\ ServiceWorker.positions s
               = slice positions (k * viewportsPerSegment)
                       (k * viewportsPerSegment + viewportsPerSegment)
            /\ (1 <= length (ServiceWorker.positions s) <= viewportsPerSegment)%nat
            /\ ((S k < length segments)%nat ->
                length (ServiceWorker.positions s) = viewportsPerSegment)
            /\ height s = endY s - startY s).
Proof.
  intros positions viewportHeight totalHeight v fuel Hv Hfuel.
  exists (segmentsOf positions viewportHeight totalHeight v).
  split; [apply buildCaptureSegments_segmentsOf; auto|].
  split; [apply segmentsOf_length|].
  intros k s Hnth. rewrite segmentsOf_length.
  destruct (segmentsOf_nth _ _ _ _ _ _ Hnth) as [Hk ->].
  destruct (chunkCount_bounds (length positions) v Hv) as [_ Hin].
  destruct (segmentAt_length positions viewportHeight totalHeight v k k Hv (Hin k Hk))
    as (Hlen & _ & Hfull).
  repeat split; try apply Hlen.
  intros Hnext. apply Hfull. apply Hin. exact Hnext.
Qed.

Lemma buildCaptureSegments_shape_witness :
  exists segments,
    buildCaptureSegments 3 [0; 1000; 1500] 1000 2500 2 = Some segments
    /\ length segments = chunkCount (length [0; 1000; 1500]) 2
    /\ (forall k s,
          nth_error segments k = Some s ->
          index s = k
          /\ startPositionIndex s = (k * 2)%nat
          /\ ServiceWorker.positions s = slice [0; 1000; 1500] (k * 2) (k * 2 + 2)
          /\ (1 <= length (ServiceWorker.positions s) <= 2)%nat
          /\ ((S k < length segments)%nat -> length (ServiceWorker.positions s) = 2%nat)
          /\ height s = endY s - startY s).
Proof.
  apply (buildCaptureSegments_shape [0; 1000; 1500] 1000 2500 2 3).
  - lia.
  - simpl. lia.
Defined.

End SegmentShape.

(* ================================================================== *)
(** * Capture flow: the segments of a planned page *)
(* ================================================================== *)

Section PlannedPage.

Import ServiceWorker CaptureFlow.

Variable totalHeight viewportHeight : Z.
Hypothesis totalHeight_positive : 0 < totalHeight.
Hypothesis viewportHeight_positive : 0 < viewportHeight.

Let offsets : list Z :=
  if totalHeight <? viewportHeight then [0] else planOf totalHeight viewportHeight.

Lemma offsets_length :
  (1 <= length offsets)%nat
  /\ (Z.of_nat (length offsets) - 1) * viewportHeight < totalHeight
     <= Z.of_nat (length offsets) * viewportHeight.
Proof.
  destruct (planned_offsets totalHeight viewportHeight
              totalHeight_positive viewportHeight_positive) as [Hlen _].
  fold offsets in Hlen.
  pose proof (ceil_div_bounds totalHeight viewportHeight viewportHeight_positive) as Hb.
  rewrite <- Hlen in Hb. split; [|exact Hb].
  destruct (length offsets); [|lia]. cbn in Hb. lia.
Qed.

Lemma offsets_nth j :
  (j < length offsets)%nat ->
  nth j offsets 0 = offsetAt totalHeight viewportHeight j.
Proof.
  destruct (planned_offsets totalHeight viewportHeight
              totalHeight_positive viewportHeight_positive) as [_ Hnth].
  apply Hnth.
Qed.

Lemma offsetAt_step j :
  offsetAt totalHeight viewportHeight j
  <= offsetAt totalHeight viewportHeight (S j)
  <= offsetAt totalHeight viewportHeight j + viewportHeight.
Proof. unfold offsetAt. rewrite Nat2Z.inj_succ. nia. Qed.

Lemma offsetAt_span j i :
  offsetAt totalHeight viewportHeight j
  <= offsetAt totalHeight viewportHeight (j + i)
  <= offsetAt totalHeight viewportHeight j + Z.of_nat i * viewportHeight.
Proof.
  induction i as [|i IH].
  - rewrite Nat.add_0_r. cbn [Z.of_nat]. lia.
  - rewrite Nat.add_succ_r, Nat2Z.inj_succ.
    pose proof (offsetAt_step (j + i)). nia.
Qed.

Lemma offsetAt_strict j j' :
  (j < j' < length offsets)%nat ->
  offsetAt totalHeight viewportHeight j < offsetAt totalHeight viewportHeight j'.
Proof.
  intros Hj. destruct offsets_length as [_ [Hlo _]].
  unfold offsetAt.
  assert (H1 : Z.of_nat j * viewportHeight
               <= (Z.of_nat (length offsets) - 2) * viewportHeight) by nia.
  assert (H2 : Z.of_nat j * viewportHeight < Z.of_nat j' * viewportHeight) by nia.
  nia.
Qed.

Lemma offsetAt_below j : offsetAt totalHeight viewportHeight j < totalHeight.
Proof. unfold offsetAt. lia. Qed.


Variable v : nat.
Hypothesis v_positive : (1 <= v)%nat.

(** The fields of segment [k] of the plan. *)
Lemma planned_segment k :
  (k < chunkCount (length offsets) v)%nat ->
  let s := segmentAt offsets viewportHeight totalHeight v k (k * v) in
  let n := length (positions s) in
  (1 <= n <= v)%nat
  /\ (k * v + n <= length offsets)%nat
  /\ (forall i, (i < n)%nat ->
        nth i (positions s) 0 = offsetAt totalHeight viewportHeight (k * v + i))
  /\ startY s = offsetAt totalHeight viewportHeight (k * v)
  /\ endY s = Z.min totalHeight
                    (offsetAt totalHeight viewportHeight (k * v + (n - 1))
                     + viewportHeight)
  /\ height s = endY s - startY s.
Proof.
  intros Hk. cbv zeta.
  destruct (chunkCount_bounds (length offsets) v v_positive) as [_ Hin].
  specialize (Hin k Hk).
  destruct (segmentAt_length offsets viewportHeight totalHeight v k k v_positive Hin)
    as (Hlen & Hfit & _).
  split; [exact Hlen|]. split; [exact Hfit|].
  cbn [segmentAt positions startY endY height] in *.
  set (n := length (slice offsets (k * v) (k * v + v))) in *.
  assert (Hnth : forall i, (i < n)%nat ->
            nth i (slice offsets (k * v) (k * v + v)) 0
            = offsetAt totalHeight viewportHeight (k * v + i)).
  { intros i Hi. rewrite slice_nth by lia. apply offsets_nth. lia. }
  split; [exact Hnth|].
  split; [rewrite (Hnth 0%nat) by lia; rewrite Nat.add_0_r; reflexivity|].
  split; [|reflexivity].
  rewrite Hnth by lia. reflexivity.
Qed.

(** A planned segment is between one pixel and [n] viewports tall, where
    [n] is the number of its positions. *)
Lemma planned_segment_height k :
  (k < chunkCount (length offsets) v)%nat ->
  let s := segmentAt offsets viewportHeight totalHeight v k (k * v) in
  1 <= height s <= Z.of_nat (length (positions s)) * viewportHeight.
Proof.
  intros Hk s.
  destruct (planned_segment k Hk) as (Hlen & Hfit & _ & HstartY & HendY & Hheight).
  fold s in Hlen, Hfit, HstartY, HendY, Hheight.
  rewrite Hheight, HendY, HstartY.
  pose proof (offsetAt_span (k * v) (length (positions s) - 1)) as Hspan.
  pose proof (offsetAt_below (k * v)) as Hbelow.
  replace (Z.of_nat (length (positions s) - 1))
    with (Z.of_nat (length (positions s)) - 1) in Hspan by lia.
  nia.
Qed.

End PlannedPage.

Section PlannedCapture.

Import ServiceWorker CaptureFlow.

(** [captureFullPage] plans every page at least one pixel tall. *)
Lemma planCapture_run (metrics : Metrics) (fuel : nat) :
  1 <= totalHeight metrics -> 1 <= viewportHeight metrics ->
  (Z.to_nat (totalHeight metrics / viewportHeight metrics) + 1 <= fuel)%nat ->
  exists strategy,
    computeCaptureStrategy metrics = Js.Return strategy
    /\ planCapture fuel metrics
       = Some (Js.Return
                 {| plannedPositions :=
                      if totalHeight metrics <? viewportHeight metrics then [0]
                      else planOf (totalHeight metrics) (viewportHeight metrics);
                    plannedStrategy := strategy;
                    plannedSegments :=
                      segmentsOf
                        (if totalHeight metrics <? viewportHeight metrics then [0]
                         else planOf (totalHeight metrics) (viewportHeight metrics))
                        (viewportHeight metrics) (totalHeight metrics)
                        (Z.to_nat (viewportsPerSegment strategy)) |})
    /\ (1 <= Z.to_nat (viewportsPerSegment strategy))%nat
    /\ (1 # 2 <= effectiveDpr strategy)%Q
    /\ viewportsPerSegment strategy * viewportHeight metrics
       <= maxSegmentHeightCss strategy.
Proof.
  intros HH Hv Hfuel.
  destruct (computeCaptureStrategy_run metrics)
    as (strategy & Hrun & He & _ & _ & Hvps & Hfit).
  rewrite safeViewportHeight_id in Hfit by exact Hv.
  exists strategy. split; [exact Hrun|].
  split; [|split; [lia | split; [exact He | exact Hfit]]].
  unfold planCapture.
  rewrite calculateScrollPositions_run by lia.
  rewrite Hrun.
  rewrite buildCaptureSegments_segmentsOf; [reflexivity | lia |].
  destruct (offsets_length (totalHeight metrics) (viewportHeight metrics))
    as [_ [Hlo _]]; try lia.
  set (len := length _) in *.
  assert (Z.of_nat len - 1 <= totalHeight metrics / viewportHeight metrics).
  { apply Z.div_le_lower_bound; lia. }
  lia.
Qed.

(** X4.  For a page and a viewport at least one pixel tall,
    [captureFullPage] gets its plan without error, with at least one
    segment; every segment is at least one pixel tall, holds at most
    [viewportsPerSegment] positions and is at most as tall as that many
    viewports, hence at most [maxSegmentHeightCss]. *)
Theorem planCapture_segments_fit :
  forall metrics fuel,
    1 <= totalHeight metrics -> 1 <= viewportHeight metrics ->
    (Z.to_nat (totalHeight metrics / viewportHeight metrics) + 1 <= fuel)%nat ->
    exists plan,
      planCapture fuel metrics = Some (Js.Return plan)
      /\ computeCaptureStrategy metrics = Js.Return (plannedStrategy plan)
      /\ (1 <= length (plannedSegments plan))%nat
      /\ Forall (fun s =>
                   1 <= height s
                   /\ Z.of_nat (length (positions s))
                      <= viewportsPerSegment (plannedStrategy plan)
                   /\ height s
                      <= Z.of_nat (length (positions s)) * viewportHeight metrics
                   /\ height s <= maxSegmentHeightCss (plannedStrategy plan))
                (plannedSegments plan).
Proof.
  intros metrics fuel HH Hv Hfuel.
  destruct (planCapture_run metrics fuel HH Hv Hfuel)
    as (strategy & Hrun & Hplan & Hvps & _ & Hfit).
  eexists. split; [exact Hplan|].
  cbn [plannedStrategy plannedSegments].
  split; [exact Hrun|].
  set (offsets := if totalHeight metrics <? viewportHeight metrics then [0]
                  else planOf (totalHeight metrics) (viewportHeight metrics)).
  set (v := Z.to_nat (viewportsPerSegment strategy)) in *.
  destruct (offsets_length (totalHeight metrics) (viewportHeight metrics))
    as [Hlen _]; try lia.
  fold offsets in Hlen.
  split.
  - rewrite segmentsOf_length.
    destruct (chunkCount_bounds (length offsets) v Hvps) as [Hcover _].
    destruct (chunkCount (length offsets) v); [cbn in Hcover|]; lia.
  - apply Forall_forall. intros s Hs.
    apply In_nth_error in Hs. destruct Hs as [k Hs].
    destruct (segmentsOf_nth _ _ _ _ _ _ Hs) as [Hk ->].
    destruct (planned_segment_height (totalHeight metrics) (viewportHeight metrics)
                ltac:(lia) ltac:(lia) v Hvps k Hk) as [H1 H2].
    destruct (chunkCount_bounds (length offsets) v Hvps) as [_ Hin].
    destruct (segmentAt_length offsets (viewportHeight metrics) (totalHeight metrics)
                v k k Hvps (Hin k Hk)) as ([_ Hn] & _ & _).
    fold offsets in H1, H2.
    split; [exact H1|]. split; [lia|]. split; [exact H2|].
    nia.
Qed.

Lemma planCapture_segments_fit_witness :
  exists plan,
    planCapture 4 shortPageMetrics = Some (Js.Return plan)
    /\ computeCaptureStrategy shortPageMetrics = Js.Return (plannedStrategy plan)
    /\ (1 <= length (plannedSegments plan))%nat
    /\ Forall (fun s =>
                 1 <= height s
                 /\ Z.of_nat (length (positions s))
                    <= viewportsPerSegment (plannedStrategy plan)
                 /\ height s
                    <= Z.of_nat (length (positions s)) * viewportHeight shortPageMetrics
                 /\ height s <= maxSegmentHeightCss (plannedStrategy plan))
              (plannedSegments plan).
Proof.
  apply (planCapture_segments_fit shortPageMetrics 4).
  - vm_compute. discriminate.
  - vm_compute. discriminate.
  - vm_compute. lia.
Defined.

End PlannedCapture.

(* ================================================================== *)
(** * Capture flow: the messages of a segment *)
(* ================================================================== *)

Section SegmentMessages.

Import ServiceWorker CaptureFlow.

Lemma sorted_map_seq (A : Type) (R : A -> A -> Prop) (g : nat -> A) (n : nat) :
  forall a,
    (forall i j, (a <= i < j)%nat -> (j < a + n)%nat -> R (g i) (g j)) ->
    StronglySorted R (map g (seq a n)).
Proof.
  induction n as [|n IH]; intros a HR; cbn [seq map]; constructor.
  - apply IH. intros i j Hij Hj. apply HR; lia.
  - apply Forall_forall. intros x Hx.
    apply in_map_iff in Hx. destruct Hx as (j & <- & Hj).
    apply in_seq in Hj. apply HR; lia.
Qed.

Lemma nth_map_seq (A : Type) (g : nat -> A) (d : A) (n j : nat) :
  (j < n)%nat -> nth j (map g (seq 0 n)) d = g j.
Proof.
  intros Hj.
  rewrite (nth_indep _ d (g 0%nat)) by (rewrite length_map, length_seq; exact Hj).
  rewrite (map_nth g). rewrite seq_nth by exact Hj. reflexivity.
Qed.

Lemma nth_error_map_seq (A : Type) (g : nat -> A) (n i : nat) (x : A) :
  nth_error (map g (seq 0 n)) i = Some x -> (i < n)%nat /\ x = g i.
Proof.
  intros Hn.
  assert (Hi : (i < length (map g (seq 0 n)))%nat)
    by (apply nth_error_Some; congruence).
  rewrite length_map, length_seq in Hi.
  split; [exact Hi|].
  rewrite (nth_error_nth' _ (g 0%nat)) in Hn
    by (rewrite length_map, length_seq; exact Hi).
  rewrite nth_map_seq in Hn by exact Hi. congruence.
Qed.

Variable metrics : Metrics.
Variable decoded : nat -> option Offscreen.Image.
Variable v : nat.

Hypothesis totalHeight_positive : 0 < totalHeight metrics.
Hypothesis viewportHeight_positive : 0 < viewportHeight metrics.
Hypothesis v_positive : (1 <= v)%nat.

Let offsets : list Z :=
  if totalHeight metrics <? viewportHeight metrics then [0]
  else planOf (totalHeight metrics) (viewportHeight metrics).

Let segmentOf (k : nat) : Segment :=
  segmentAt offsets (viewportHeight metrics) (totalHeight metrics) v k (k * v).

Let messageOf (k : nat) : nat -> Offscreen.StitchMessage :=
  stitchMessageAt metrics (length offsets) decoded (segmentOf k).

Let at_ (j : nat) : Z := offsetAt (totalHeight metrics) (viewportHeight metrics) j.

(** The offset of message [i] of segment [k], relative to the segment. *)
Lemma messageOf_yOffset k i :
  (k < chunkCount (length offsets) v)%nat ->
  (i < length (positions (segmentOf k)))%nat ->
  Offscreen.yOffset (messageOf k i) = at_ (k * v + i) - at_ (k * v).
Proof.
  intros Hk Hi.
  destruct (planned_segment (totalHeight metrics) (viewportHeight metrics)
              totalHeight_positive viewportHeight_positive v v_positive k Hk)
    as (_ & _ & Hnth & HstartY & _).
  unfold messageOf, stitchMessageAt. cbn [Offscreen.yOffset].
  fold offsets in Hnth, HstartY. fold (segmentOf k) in Hnth, HstartY.
  rewrite Hnth by exact Hi. rewrite HstartY. reflexivity.
Qed.

Lemma messagesOf_in_scroll_order k :
  (k < chunkCount (length offsets) v)%nat ->
  inScrollOrder (stitchMessagesOf metrics (length offsets) decoded (segmentOf k)).
Proof.
  intros Hk.
  destruct (planned_segment (totalHeight metrics) (viewportHeight metrics)
              totalHeight_positive viewportHeight_positive v v_positive k Hk)
    as (Hlen & Hfit & _).
  fold offsets in Hlen, Hfit. fold (segmentOf k) in Hlen, Hfit.
  unfold stitchMessagesOf, inScrollOrder.
  fold (messageOf k).
  destruct (length (positions (segmentOf k))) as [|n] eqn:En; [lia|].
  assert (Hy : forall i, (i < S n)%nat ->
            Offscreen.yOffset (messageOf k i) = at_ (k * v + i) - at_ (k * v)).
  { intros i Hi. apply messageOf_yOffset; [exact Hk | rewrite En; exact Hi]. }
  pose proof (sorted_map_seq _
                (fun a b => Offscreen.yOffset a < Offscreen.yOffset b)
                (messageOf k) (S n) 0) as Hsorted.
  cbn [seq map] in *.
  split; [|split].
  - rewrite Hy by lia. rewrite Nat.add_0_r. lia.
  - apply Hsorted. intros i j Hij Hj. rewrite !Hy by lia.
    pose proof (offsetAt_strict (totalHeight metrics) (viewportHeight metrics)
                  totalHeight_positive viewportHeight_positive
                  (k * v + i) (k * v + j)) as Hstrict.
    fold offsets in Hstrict. unfold at_.
    assert (Hlt : (k * v + i < k * v + j < length offsets)%nat) by lia.
    specialize (Hstrict Hlt). lia.
  - apply Forall_forall. intros m Hm.
    apply in_map_iff in Hm. destruct Hm as (i & <- & Hi).
    apply in_seq in Hi.
    unfold messageOf, stitchMessageAt. cbn [Offscreen.isFirst].
    apply Nat.eqb_neq. lia.
Qed.

(** The flags of message [i] of segment [k]. *)
Lemma messageOf_flags k i :
  (k < chunkCount (length offsets) v)%nat ->
  (i < length (positions (segmentOf k)))%nat ->
  (Offscreen.isFirst (messageOf k i) = true <-> (k = 0 /\ i = 0)%nat)
  /\ (Offscreen.isLast (messageOf k i) = true
      <-> (S k = chunkCount (length offsets) v
           /\ S i = length (positions (segmentOf k)))).
Proof.
  intros Hk Hi.
  destruct (chunkCount_bounds (length offsets) v v_positive) as [Hcover Hin].
  pose proof (Hin k Hk) as Hkv.
  destruct (segmentAt_length offsets (viewportHeight metrics) (totalHeight metrics)
              v k k v_positive Hkv) as (Hlen & Hfit & Hfull).
  fold (segmentOf k) in Hlen, Hfit, Hfull.
  unfold messageOf, stitchMessageAt. cbn [Offscreen.isFirst Offscreen.isLast].
  change (startPositionIndex (segmentOf k)) with (k * v)%nat.
  rewrite !Nat.eqb_eq. split.
  - split; [|intros [-> ->]; reflexivity].
    intros H0. split; [|lia].
    destruct k; [reflexivity|]. cbn [Nat.mul] in H0. lia.
  - split.
    + intros Hlast.
      destruct (Nat.lt_ge_cases (S k) (chunkCount (length offsets) v)) as [Hmore | Hend].
      * specialize (Hin (S k) Hmore). cbn [Nat.mul] in Hin. lia.
      * split; [lia|].
        unfold segmentOf in *. cbn [segmentAt positions] in *.
        rewrite slice_length in *. lia.
    + intros [Hend Hlast].
      rewrite <- Hend in Hcover. cbn [Nat.mul] in Hcover.
      unfold segmentOf in *. cbn [segmentAt positions] in *.
      rewrite slice_length in *. lia.
Qed.

(** Every capture starts inside its segment. *)
Lemma messageOf_inside k i :
  (k < chunkCount (length offsets) v)%nat ->
  (i < length (positions (segmentOf k)))%nat ->
  0 <= Offscreen.yOffset (messageOf k i) < height (segmentOf k)
  /\ height (segmentOf k)
     <= Offscreen.yOffset (messageOf k (length (positions (segmentOf k)) - 1))
        + viewportHeight metrics.
Proof.
  intros Hk Hi.
  destruct (planned_segment (totalHeight metrics) (viewportHeight metrics)
              totalHeight_positive viewportHeight_positive v v_positive k Hk)
    as (Hlen & Hfit & _ & HstartY & HendY & Hheight).
  fold offsets in Hlen, Hfit, HstartY, HendY, Hheight.
  fold (segmentOf k) in Hlen, Hfit, HstartY, HendY, Hheight.
  rewrite !messageOf_yOffset by (auto; lia).
  rewrite Hheight, HendY, HstartY. unfold at_.
  set (n := length (positions (segmentOf k))) in *.
  pose proof (offsetAt_span (totalHeight metrics) (viewportHeight metrics)
                totalHeight_positive viewportHeight_positive (k * v) i) as Hi0.
  pose proof (offsetAt_span (totalHeight metrics) (viewportHeight metrics)
                totalHeight_positive viewportHeight_positive
                (k * v + i) (n - 1 - i)) as Hi1.
  replace (k * v + i + (n - 1 - i))%nat with (k * v + (n - 1))%nat in Hi1 by lia.
  pose proof (offsetAt_below (totalHeight metrics) (viewportHeight metrics)
                totalHeight_positive viewportHeight_positive (k * v + i)) as Hb.
  lia.
Qed.

End SegmentMessages.

Section FlowMessages.

Import ServiceWorker CaptureFlow.

(** X5.  The messages [captureFullPage] sends for a segment of its plan are
    in scroll order: the first has [yOffset = 0], the offsets increase
    strictly and are the positions of the segment relative to its
    [startY], each below the segment height.  [isFirst] is set on the first
    message of the first segment only and [isLast] on the last message of
    the last segment only. *)
Theorem captureFullPage_messages_in_scroll_order :
  forall metrics fuel decoded,
    1 <= totalHeight metrics -> 1 <= viewportHeight metrics ->
    (Z.to_nat (totalHeight metrics / viewportHeight metrics) + 1 <= fuel)%nat ->
    exists plan,
      planCapture fuel metrics = Some (Js.Return plan)
      /\ (forall k s,
            nth_error (plannedSegments plan) k = Some s ->
            let messages :=
              stitchMessagesOf metrics (length (plannedPositions plan)) decoded s in
            inScrollOrder messages
            /\ length messages = length (positions s)
            /\ (forall i m,
                  nth_error messages i = Some m ->
                  startY s + Offscreen.yOffset m = nth i (positions s) 0
                  /\ 0 <= Offscreen.yOffset m < height s
                  /\ (i = 0%nat -> Offscreen.yOffset m = 0)
                  /\ (Offscreen.isFirst m = true <-> (k = 0 /\ i = 0)%nat)
                  /\ (Offscreen.isLast m = true
                      <-> (S k = length (plannedSegments plan)
                           /\ S i = length messages)))).
Proof.
  intros metrics fuel decoded HH Hv Hfuel.
  destruct (planCapture_run metrics fuel HH Hv Hfuel)
    as (strategy & _ & Hplan & Hvps & _ & _).
  eexists. split; [exact Hplan|].
  cbn [plannedSegments plannedPositions].
  set (offsets := if totalHeight metrics <? viewportHeight metrics then [0]
                  else planOf (totalHeight metrics) (viewportHeight metrics)).
  set (v := Z.to_nat (viewportsPerSegment strategy)) in *.
  intros k s Hs. cbv zeta.
  destruct (segmentsOf_nth _ _ _ _ _ _ Hs) as [Hk ->].
  assert (H0 : 0 < totalHeight metrics) by lia.
  assert (Hv0 : 0 < viewportHeight metrics) by lia.
  split; [apply messagesOf_in_scroll_order; auto|].
  split; [unfold stitchMessagesOf; rewrite length_map, length_seq; reflexivity|].
  intros i m Hm. unfold stitchMessagesOf in *.
  rewrite length_map, length_seq.
  apply nth_error_map_seq in Hm. destruct Hm as [Hi ->].
  pose proof (messageOf_inside metrics decoded v H0 Hv0 Hvps k i Hk Hi) as [Hin _].
  pose proof (messageOf_flags metrics decoded v Hvps k i Hk Hi) as [Hfirst Hlast].
  fold offsets in Hin, Hfirst, Hlast.
  rewrite segmentsOf_length.
  split; [unfold stitchMessageAt; cbn [Offscreen.yOffset]; lia|].
  split; [exact Hin|].
  split; [|split; [exact Hfirst | exact Hlast]].
  intros ->. unfold stitchMessageAt. cbn [Offscreen.yOffset segmentAt positions startY].
  lia.
Qed.

Lemma captureFullPage_messages_in_scroll_order_witness :
  exists plan,
    planCapture 4 shortPageMetrics = Some (Js.Return plan)
    /\ (forall k s,
          nth_error (plannedSegments plan) k = Some s ->
          let messages :=
            stitchMessagesOf shortPageMetrics (length (plannedPositions plan))
                             nativeScreenshot s in
          inScrollOrder messages
          /\ length messages = length (positions s)
          /\ (forall i m,
                nth_error messages i = Some m ->
                startY s + Offscreen.yOffset m = nth i (positions s) 0
                /\ 0 <= Offscreen.yOffset m < height s
                /\ (i = 0%nat -> Offscreen.yOffset m = 0)
                /\ (Offscreen.isFirst m = true <-> (k = 0 /\ i = 0)%nat)
                /\ (Offscreen.isLast m = true
                    <-> (S k = length (plannedSegments plan)
                         /\ S i = length messages)))).
Proof.
  apply (captureFullPage_messages_in_scroll_order shortPageMetrics 4 nativeScreenshot).
  - vm_compute. discriminate.
  - vm_compute. discriminate.
  - vm_compute. lia.
Defined.

End FlowMessages.

(* ================================================================== *)
(** * Capture flow: stitching a planned segment *)
(* ================================================================== *)

Section WindowsCover.

Import ServiceWorker CaptureFlow.

Lemma round_add_Z (x : Q) (z : Z) : Js.round (x + inject_Z z) = Js.round x + z.
Proof.
  destruct (round_bounds x) as [Hlo Hhi].
  destruct (round_bounds (x + inject_Z z)) as [Hlo' Hhi'].
  assert (H1 : (inject_Z (Js.round (x + inject_Z z))
                < inject_Z (Js.round x + z + 1))%Q).
  { rewrite !inject_Z_plus. change (inject_Z 1) with 1%Q. lra. }
  assert (H2 : (inject_Z (Js.round x + z)
                < inject_Z (Js.round (x + inject_Z z) + 1))%Q).
  { rewrite !inject_Z_plus. change (inject_Z 1) with 1%Q. lra. }
  rewrite <- Zlt_Qlt in H1, H2. lia.
Qed.

(** A chain of windows of height [step], each starting at or before the
    end of the one before, covers everything from the first start to the
    last end. *)
Lemma stepsWithin_covered (step : Z) (l : list Z) : forall y,
  (1 <= length l)%nat -> stepsWithin step l ->
  nth 0 l 0 <= y < nth (length l - 1) l 0 + step ->
  exists j, (j < length l)%nat /\ nth j l 0 <= y < nth j l 0 + step.
Proof.
  induction l as [|a l IH]; intros y Hlen Hsteps Hy; [cbn in Hlen; lia|].
  destruct (Z_lt_le_dec y (a + step)) as [Hin | Hout].
  - exists 0%nat. cbn [nth length] in *. split; lia.
  - destruct l as [|b l].
    + cbn [nth length Nat.sub] in Hy. lia.
    + destruct (IH y) as (j & Hj & Hcov).
      * cbn [length]. lia.
      * intros j Hj. apply (Hsteps (S j)). cbn [length] in *. lia.
      * pose proof (Hsteps 0%nat ltac:(cbn [length]; lia)) as H0.
        cbn [nth] in H0. cbn [length nth Nat.sub] in Hy |- *.
        rewrite Nat.sub_0_r in *. split; [cbn [nth]; lia | apply Hy].
      * exists (S j). cbn [length nth] in *. split; [lia | exact Hcov].
Qed.

Variable canvasScale : Q.
Variable viewportHeightCss drawHeight : Z.

Hypothesis scale_nonneg : (0 <= canvasScale)%Q.
Hypothesis whole_rows :
  (inject_Z viewportHeightCss * canvasScale == inject_Z drawHeight)%Q.

(** A viewport further down by at most one viewport height starts at most
    [drawHeight] rows further down on the canvas. *)
Lemma drawY_step (a b : Z) :
  b <= a + viewportHeightCss ->
  Js.round (inject_Z b * canvasScale)
  <= Js.round (inject_Z a * canvasScale) + drawHeight.
Proof.
  intros Hb.
  rewrite <- round_add_Z.
  apply Z.le_trans with (Js.round (inject_Z (a + viewportHeightCss) * canvasScale)).
  - apply round_mono. apply Qmult_le_compat_r; [|exact scale_nonneg].
    apply inject_Z_le. exact Hb.
  - apply Z.eq_le_incl. apply round_comp.
    rewrite inject_Z_plus, <- whole_rows. ring.
Qed.

Lemma drawY_end (a h : Z) :
  h <= a + viewportHeightCss ->
  Js.round (inject_Z h * canvasScale)
  <= Js.round (inject_Z a * canvasScale) + drawHeight.
Proof. apply drawY_step. Qed.

Lemma drawHeightOf_whole (m : Offscreen.StitchMessage) :
  Offscreen.viewportHeight m = viewportHeightCss ->
  Offscreen.drawHeightOf canvasScale m = drawHeight.
Proof.
  intros Hm. unfold Offscreen.drawHeightOf. rewrite Hm.
  rewrite (round_comp _ _ whole_rows). apply round_inject.
Qed.

(** Messages whose offsets start at 0 and step by at most one viewport
    height have windows that cover the canvas rows up to the end of the
    last window. *)
Lemma windows_cover (g : nat -> Offscreen.StitchMessage) (n : nat) (bottom : Z) :
  (1 <= n)%nat ->
  (forall i, (i < n)%nat -> Offscreen.viewportHeight (g i) = viewportHeightCss) ->
  Offscreen.yOffset (g 0%nat) = 0 ->
  (forall i, (S i < n)%nat ->
     Offscreen.yOffset (g (S i)) <= Offscreen.yOffset (g i) + viewportHeightCss) ->
  bottom <= Offscreen.yOffset (g (n - 1)%nat) + viewportHeightCss ->
  forall row,
    0 <= row < Js.round (inject_Z bottom * canvasScale) ->
    exists m, In m (map g (seq 0 n)) /\ Offscreen.inWindow canvasScale row m = true.
Proof.
  intros Hn Hvh Hfirst Hstep Hbottom row Hrow.
  set (l := map (fun i => Offscreen.drawYOf canvasScale (g i)) (seq 0 n)).
  assert (Hlen : length l = n) by (unfold l; rewrite length_map, length_seq; reflexivity).
  assert (Hl : forall j, (j < n)%nat ->
            nth j l 0 = Offscreen.drawYOf canvasScale (g j)).
  { intros j Hj. unfold l. apply nth_map_seq. exact Hj. }
  destruct (stepsWithin_covered drawHeight l row) as (j & Hj & Hcov).
  - lia.
  - intros j Hj. rewrite Hlen in Hj. rewrite !Hl by lia.
    unfold Offscreen.drawYOf. apply drawY_step. apply Hstep. exact Hj.
  - rewrite Hlen, !Hl by lia. unfold Offscreen.drawYOf. rewrite Hfirst.
    split.
    + assert (E : (inject_Z 0 * canvasScale == inject_Z 0)%Q) by ring.
      rewrite (round_comp _ _ E), round_inject. lia.
    + pose proof (drawY_end (Offscreen.yOffset (g (n - 1)%nat)) bottom Hbottom). lia.
  - rewrite Hlen in Hj. rewrite Hl in Hcov by exact Hj.
    exists (g j). split.
    + apply in_map. apply in_seq. lia.
    + unfold Offscreen.inWindow. rewrite drawHeightOf_whole by (apply Hvh; exact Hj).
      apply andb_true_intro. split; [apply Z.leb_le | apply Z.ltb_lt]; lia.
Qed.

End WindowsCover.

Section PlannedRoundings.

Import ServiceWorker CaptureFlow.

Lemma atTie_true (x : Q) :
  atTie x = true <-> exists n : Z, (x == inject_Z n + (1 # 2))%Q.
Proof.
  unfold atTie. rewrite Qeq_bool_iff. split.
  - intros H. exists (Qfloor x). lra.
  - intros [n Hn].
    pose proof (Qfloor_le x) as Hlo. pose proof (Qlt_floor x) as Hhi.
    assert (H1 : (inject_Z (Qfloor x) < inject_Z (n + 1))%Q).
    { rewrite inject_Z_plus. change (inject_Z 1) with 1%Q. lra. }
    assert (H2 : (inject_Z n < inject_Z (Qfloor x + 1))%Q) by lra.
    rewrite <- Zlt_Qlt in H1, H2.
    assert (E : Qfloor x = n) by lia. rewrite E. lra.
Qed.

Lemma whole_not_atTie (x : Q) (z : Z) : (x == inject_Z z)%Q -> atTie x = false.
Proof.
  intros Hx. destruct (atTie x) eqn:E; [|reflexivity].
  apply atTie_true in E. destruct E as [n Hn]. exfalso.
  assert (H : (inject_Z (2 * z) == inject_Z (2 * n + 1))%Q).
  { rewrite inject_Z_plus, !inject_Z_mult.
    change (inject_Z 2) with 2%Q. change (inject_Z 1) with 1%Q. lra. }
  unfold Qeq, inject_Z in H. cbn [Qnum Qden] in H. lia.
Qed.

Lemma atTie_shift (x y : Q) (z : Z) :
  (y == inject_Z z + x)%Q \/ (y == inject_Z z - x)%Q ->
  atTie x = false -> atTie y = false.
Proof.
  intros Hy Hx. destruct (atTie y) eqn:E; [|reflexivity].
  apply atTie_true in E. destruct E as [n Hn].
  assert (Ht : atTie x = true); [|congruence].
  apply atTie_true. destruct Hy as [Hy | Hy].
  - exists (n - z). unfold Zminus.
    rewrite inject_Z_plus, inject_Z_opp. lra.
  - exists (z - n - 1). unfold Zminus.
    rewrite !inject_Z_plus, !inject_Z_opp. change (inject_Z 1) with 1%Q. lra.
Qed.

Variable totalHeight viewportHeight drawHeight : Z.
Variable e : Q.
Hypothesis totalHeight_positive : 0 < totalHeight.
Hypothesis viewportHeight_positive : 0 < viewportHeight.
Hypothesis whole_rows :
  (inject_Z viewportHeight * e == inject_Z drawHeight)%Q.
Hypothesis page_clear : atTie (inject_Z totalHeight * e) = false.

(** A length that is made of whole viewports and at most one page height
    does not map to a tie. *)
Lemma viewports_and_page_clear (z m : Z) :
  z = m * viewportHeight
  \/ z = totalHeight - m * viewportHeight
  \/ z = m * viewportHeight - totalHeight ->
  atTie (inject_Z z * e) = false.
Proof.
  assert (Hm : (inject_Z (m * viewportHeight) * e == inject_Z (m * drawHeight))%Q).
  { rewrite !inject_Z_mult, <- whole_rows. ring. }
  intros [-> | [-> | ->]].
  - apply (whole_not_atTie _ (m * drawHeight)). exact Hm.
  - apply (atTie_shift (inject_Z totalHeight * e) _ (- (m * drawHeight)));
      [|exact page_clear].
    left. rewrite inject_Z_sub, inject_Z_opp, <- Hm. ring.
  - apply (atTie_shift (inject_Z totalHeight * e) _ (m * drawHeight));
      [|exact page_clear].
    right. rewrite inject_Z_sub, <- Hm. ring.
Qed.

Lemma offsetAt_shape (j : nat) :
  exists m,
    offsetAt totalHeight viewportHeight j = m * viewportHeight
    \/ offsetAt totalHeight viewportHeight j = totalHeight - viewportHeight.
Proof.
  unfold offsetAt.
  destruct (Z.max_spec 0 (Z.min (Z.of_nat j * viewportHeight)
                                (totalHeight - viewportHeight)))
    as [[_ ->] | [_ ->]].
  - destruct (Z.min_spec (Z.of_nat j * viewportHeight)
                         (totalHeight - viewportHeight)) as [[_ ->] | [_ ->]].
    + exists (Z.of_nat j). left. reflexivity.
    + exists 0. right. reflexivity.
  - exists 0. left. reflexivity.
Qed.

Let offsets : list Z :=
  if totalHeight <? viewportHeight then [0] else planOf totalHeight viewportHeight.

Variable v : nat.
Hypothesis v_positive : (1 <= v)%nat.

(** No product that the stitch of a planned segment rounds is at a tie:
    neither the canvas height nor the [drawY] of a message. *)
Lemma planned_roundings_clear (k : nat) :
  (k < chunkCount (length offsets) v)%nat ->
  let s := segmentAt offsets viewportHeight totalHeight v k (k * v) in
  atTie (inject_Z (height s) * e) = false
  /\ (forall i, (i < length (positions s))%nat ->
        atTie (inject_Z (nth i (positions s) 0 - startY s) * e) = false).
Proof.
  intros Hk s.
  destruct (planned_segment totalHeight viewportHeight totalHeight_positive
              viewportHeight_positive v v_positive k Hk)
    as (Hlen & _ & Hnth & HstartY & HendY & Hheight).
  fold offsets in Hlen, Hnth, HstartY, HendY, Hheight.
  fold s in Hlen, Hnth, HstartY, HendY, Hheight.
  destruct (offsetAt_shape (k * v)) as [m0 Hstart].
  split.
  - rewrite Hheight, HendY, HstartY.
    destruct (offsetAt_shape (k * v + (length (positions s) - 1))) as [m1 Hlast].
    pose proof (offsetAt_span totalHeight viewportHeight totalHeight_positive
                  viewportHeight_positive (k * v) (length (positions s) - 1))
      as [Hup _].
    destruct (Z.min_spec totalHeight
                (offsetAt totalHeight viewportHeight
                          (k * v + (length (positions s) - 1)) + viewportHeight))
      as [[_ ->] | [_ ->]].
    + destruct Hstart as [-> | ->].
      * apply (viewports_and_page_clear _ m0). right. left. reflexivity.
      * apply (viewports_and_page_clear _ 1). left. lia.
    + destruct Hlast as [-> | ->]; destruct Hstart as [-> | ->].
      * apply (viewports_and_page_clear _ (m1 + 1 - m0)). left. lia.
      * apply (viewports_and_page_clear _ (m1 + 2)). right. right. lia.
      * apply (viewports_and_page_clear _ m0). right. left. lia.
      * apply (viewports_and_page_clear _ 1). left. lia.
  - intros i Hi. rewrite (Hnth i Hi), HstartY.
    destruct (offsetAt_shape (k * v + i)) as [m1 Hpos].
    destruct Hpos as [-> | ->]; destruct Hstart as [-> | ->].
    + apply (viewports_and_page_clear _ (m1 - m0)). left. lia.
    + apply (viewports_and_page_clear _ (m1 + 1)). right. right. lia.
    + apply (viewports_and_page_clear _ (m0 + 1)). right. left. lia.
    + apply (viewports_and_page_clear _ 0). left. lia.
Qed.

End PlannedRoundings.

Section StitchedPlan.

Import ServiceWorker CaptureFlow.

Lemma prepareCanvas_size viewportWidth totalHeight dpr doc :
  Offscreen.prepareCanvas viewportWidth totalHeight dpr = Js.Return doc ->
  exists cv,
    Offscreen.canvas doc = Some cv
    /\ Offscreen.width cv
       = Js.round (inject_Z (Z.max 1 viewportWidth) * Qmax (1 # 2) dpr)
    /\ Offscreen.height cv
       = Js.round (inject_Z (Z.max 1 totalHeight) * Qmax (1 # 2) dpr)
    /\ Offscreen.width cv <= CAPTURE_LIMITS.MAX_CANVAS_DIMENSION
    /\ Offscreen.height cv <= CAPTURE_LIMITS.MAX_CANVAS_DIMENSION
    /\ Offscreen.width cv * Offscreen.height cv <= CAPTURE_LIMITS.MAX_CANVAS_AREA.
Proof.
  unfold Offscreen.prepareCanvas, Offscreen.determineCanvasStrategy. intros H.
  repeat match type of H with
         | context [if ?c then _ else _] =>
             destruct c eqn:?; cbn [Js.bind] in H; try discriminate
         end.
  injection H as <-. eexists. split; [reflexivity|].
  cbn [Offscreen.width Offscreen.height Offscreen.canvasWidth Offscreen.canvasHeight].
  repeat match goal with
         | E : (_ <? _) = false |- _ => apply Z.ltb_ge in E
         end.
  repeat split; assumption.
Qed.

(** Stitching segment [k] of the plan into the canvas prepared for it. *)
Lemma planned_segment_stitched (metrics : Metrics)
      (decoded : nat -> option Offscreen.Image) (drawHeight : Z) (e : Q) (v k : nat)
      (doc : Offscreen.Document) :
  0 < totalHeight metrics -> 0 < viewportHeight metrics -> (1 <= v)%nat ->
  (1 # 2 <= e)%Q ->
  (inject_Z (viewportHeight metrics) * e == inject_Z drawHeight)%Q ->
  (forall globalIndex, exists img,
      decoded globalIndex = Some img
      /\ drawHeight < 2 * Offscreen.naturalHeight img) ->
  let offsets := if totalHeight metrics <? viewportHeight metrics then [0]
                 else planOf (totalHeight metrics) (viewportHeight metrics) in
  let s := segmentAt offsets (viewportHeight metrics) (totalHeight metrics) v k (k * v) in
  (k < chunkCount (length offsets) v)%nat ->
  Offscreen.prepareCanvas (viewportWidth metrics) (height s) e = Js.Return doc ->
  exists cv cstrategy,
    Offscreen.stitchAll doc (stitchMessagesOf metrics (length offsets) decoded s)
    = Js.Return {| Offscreen.canvas := Some cv;
                   Offscreen.canvasStrategy := Some cstrategy |}
    /\ Offscreen.height cv = Js.round (inject_Z (height s) * e)
    /\ (forall row,
          0 <= row < Offscreen.height cv ->
          exists call,
            Offscreen.writersOf row (Offscreen.drawn cv) = [call]
            /\ In (Offscreen.issuedBy call)
                  (stitchMessagesOf metrics (length offsets) decoded s)).
Proof.
  intros H0 Hv0 Hvps He Hwhole Himg offsets s Hk Hprep.
  set (c := Qmax (1 # 2) e).
  assert (Ec : (c == e)%Q) by (apply Q.max_r; exact He).
  assert (Hc : (0 < c)%Q) by (rewrite Ec; lra).
  assert (HcD : (inject_Z (viewportHeight metrics) * c == inject_Z drawHeight)%Q)
    by (rewrite Ec; exact Hwhole).
  assert (HD : 0 < Js.round (inject_Z (viewportHeight metrics) * c)).
  { rewrite (round_comp _ _ HcD), round_inject.
    assert (HDq : (inject_Z 0 < inject_Z drawHeight)%Q).
    { rewrite <- HcD. change (inject_Z 0) with 0%Q.
      apply Qmult_lt_0_compat; [|exact Hc].
      change 0%Q with (inject_Z 0). rewrite <- Zlt_Qlt. lia. }
    rewrite <- Zlt_Qlt in HDq. exact HDq. }
  destruct (planned_segment_height (totalHeight metrics) (viewportHeight metrics)
              H0 Hv0 v Hvps k Hk) as [Hheight _].
  fold offsets in Hheight. fold s in Hheight.
  destruct (prepareCanvas_fresh _ _ _ _ Hprep)
    as (cv0 & cstrategy & Edoc & Hscale & HL & Hdrawn & _).
  destruct (prepareCanvas_size _ _ _ _ Hprep) as (cv0' & Hcv0 & _ & Hsize & _).
  rewrite Edoc in Hcv0. cbn [Offscreen.canvas] in Hcv0. injection Hcv0 as <-.
  rewrite Z.max_r in Hsize by lia. fold c in Hsize, Hscale.
  set (messages := stitchMessagesOf metrics (length offsets) decoded s).
  assert (Horder : inScrollOrder messages).
  { unfold messages, s, offsets. apply messagesOf_in_scroll_order; auto. }
  assert (Hcap : Forall (segmentCapture c (viewportHeight metrics)) messages).
  { apply Forall_forall. intros m Hm. unfold messages, stitchMessagesOf in Hm.
    apply in_map_iff in Hm. destruct Hm as (i & <- & _).
    split; [reflexivity|].
    destruct (Himg (startPositionIndex s + i)%nat) as (img & Eimg & Hrows).
    exists img. split; [exact Eimg|].
    rewrite (round_comp _ _ HcD), round_inject. exact Hrows. }
  destruct (stitchAll_fresh c (viewportHeight metrics) Hc HD cstrategy cv0 messages
                            Hscale HL Hdrawn Horder Hcap)
    as (cv' & Hstitch & Hsame & Hwritten).
  exists cv', cstrategy.
  split; [rewrite Edoc; exact Hstitch|].
  assert (Hrows : Offscreen.height cv' = Js.round (inject_Z (height s) * c))
    by congruence.
  split.
  { rewrite Hrows. apply round_comp. rewrite Ec. reflexivity. }
  intros row Hrow. rewrite Hrows in Hrow.
  assert (Hcover : exists m, In m messages /\ Offscreen.inWindow c row m = true).
  { unfold messages, stitchMessagesOf.
    assert (Hn : (1 <= length (positions s))%nat).
    { destruct (chunkCount_bounds (length offsets) v Hvps) as [_ Hin].
      apply (segmentAt_length offsets (viewportHeight metrics) (totalHeight metrics)
               v k k Hvps (Hin k Hk)). }
    apply (windows_cover c (viewportHeight metrics) drawHeight (Qlt_le_weak _ _ Hc) HcD
             (stitchMessageAt metrics (length offsets) decoded s)
             (length (positions s)) (height s)); auto.
    - unfold s, offsets.
      rewrite (messageOf_yOffset metrics decoded v H0 Hv0 Hvps k 0 Hk)
        by (fold offsets; fold s; lia).
      rewrite Nat.add_0_r. lia.
    - intros i Hi. unfold s, offsets in Hi |- *.
      rewrite !(messageOf_yOffset metrics decoded v H0 Hv0 Hvps k) by (auto; lia).
      pose proof (offsetAt_step (totalHeight metrics) (viewportHeight metrics)
                    H0 Hv0 (k * v + i)) as Hstep.
      rewrite <- Nat.add_succ_r in Hstep. lia.
    - unfold s, offsets.
      apply (messageOf_inside metrics decoded v H0 Hv0 Hvps k 0 Hk).
      fold offsets. fold s. lia. }
  destruct Hcover as (m & Hin & Hwin).
  specialize (Hwritten row).
  destruct (find (Offscreen.inWindow c row) messages) as [m'|] eqn:Efind.
  - destruct (Offscreen.writersOf row (Offscreen.drawn cv')) as [|call [|call' calls]];
      cbn [map] in Hwritten; try discriminate.
    exists call. split; [reflexivity|].
    injection Hwritten as ->.
    apply find_some in Efind. apply Efind.
  - pose proof (find_none _ _ Efind m Hin) as Hout. congruence.
Qed.

(** X6.  Let the effective ratio map the viewport height to a whole number
    of canvas rows, let the roundings of the capture come out in binary64
    as they do here (the ratio is a whole number of eighths, or neither
    the page height nor the viewport width maps to a rounding tie), and
    let every screenshot decode to an image with more than half as many
    rows.  Then for every segment of the plan whose canvas the offscreen
    document accepts: unless the ratio is a whole number of eighths,
    neither the canvas height nor the [drawY] of any message is rounded at
    a tie; preparing the canvas and stitching the segment's messages
    succeeds; and every row of the canvas is the destination of exactly one
    [drawImage] call: no row is left blank and none is drawn twice. *)
Theorem planned_segment_rows_written_once :
  forall metrics fuel decoded drawHeight,
    1 <= totalHeight metrics -> 1 <= viewportHeight metrics ->
    (Z.to_nat (totalHeight metrics / viewportHeight metrics) + 1 <= fuel)%nat ->
    (forall strategy,
        computeCaptureStrategy metrics = Js.Return strategy ->
        (inject_Z (viewportHeight metrics) * effectiveDpr strategy
         == inject_Z drawHeight)%Q
        /\ roundsAsComputed metrics (effectiveDpr strategy)) ->
    (forall globalIndex, exists img,
        decoded globalIndex = Some img
        /\ drawHeight < 2 * Offscreen.naturalHeight img) ->
    exists plan,
      planCapture fuel metrics = Some (Js.Return plan)
      /\ (forall s doc,
            In s (plannedSegments plan) ->
            Offscreen.prepareCanvas (viewportWidth metrics) (height s)
                                    (effectiveDpr (plannedStrategy plan))
            = Js.Return doc ->
            (binaryRatio (effectiveDpr (plannedStrategy plan)) = true
             \/ (atTie (inject_Z (height s)
                        * effectiveDpr (plannedStrategy plan)) = false
                 /\ Forall (fun m =>
                              atTie (inject_Z (Offscreen.yOffset m)
                                     * effectiveDpr (plannedStrategy plan))
                              = false)
                           (stitchMessagesOf metrics
                              (length (plannedPositions plan)) decoded s)))
            /\ exists doc' cv,
                stitchSegment metrics (plannedStrategy plan)
                              (length (plannedPositions plan)) decoded s
                = Js.Return doc'
                /\ Offscreen.canvas doc' = Some cv
                /\ Offscreen.height cv
                   = Js.round (inject_Z (height s)
                               * effectiveDpr (plannedStrategy plan))
                /\ (forall row,
                      0 <= row < Offscreen.height cv ->
                      exists call,
                        Offscreen.writersOf row (Offscreen.drawn cv) = [call]
                        /\ In (Offscreen.issuedBy call)
                              (stitchMessagesOf metrics
                                 (length (plannedPositions plan)) decoded s))).
Proof.
  intros metrics fuel decoded D HH Hv Hfuel Hrounds Himg.
  destruct (planCapture_run metrics fuel HH Hv Hfuel)
    as (strategy & Hrun & Hplan & Hvps & He & _).
  destruct (Hrounds strategy Hrun) as (Hwhole & _ & Hclear).
  eexists. split; [exact Hplan|].
  cbn [plannedSegments plannedPositions plannedStrategy].
  intros s doc Hs Hprep.
  apply In_nth_error in Hs. destruct Hs as [k Hs].
  destruct (segmentsOf_nth _ _ _ _ _ _ Hs) as [Hk Es]. subst s.
  split.
  { destruct Hclear as [Hbinary | [Hpage _]]; [left; exact Hbinary | right].
    destruct (planned_roundings_clear
                (totalHeight metrics) (viewportHeight metrics) D
                (effectiveDpr strategy) ltac:(lia) ltac:(lia) Hwhole Hpage
                (Z.to_nat (viewportsPerSegment strategy)) Hvps k Hk)
      as [Hheight Hoffsets].
    split; [exact Hheight|].
    apply Forall_forall. intros m Hm. unfold stitchMessagesOf in Hm.
    apply in_map_iff in Hm. destruct Hm as (i & <- & Hi).
    apply in_seq in Hi. cbn [stitchMessageAt Offscreen.yOffset].
    apply Hoffsets. lia. }
  destruct (planned_segment_stitched metrics decoded D (effectiveDpr strategy)
              (Z.to_nat (viewportsPerSegment strategy)) k doc
              ltac:(lia) ltac:(lia) Hvps He Hwhole Himg Hk Hprep)
    as (cv & cstrategy & Hstitch & Hheight & Hrows).
  eexists. exists cv.
  split.
  { unfold stitchSegment. rewrite Hprep. exact Hstitch. }
  split; [reflexivity|]. split; [exact Hheight | exact Hrows].
Qed.

Lemma planned_segment_rows_written_once_witness :
  Offscreen.prepareCanvas 1280 2500 (1500 # 1000)
  = Js.Return
      {| Offscreen.canvas :=
           Some {| Offscreen.width := 1920; Offscreen.height := 3750;
                   Offscreen.lastDrawnBottomY := 0; Offscreen.drawn := [] |};
         Offscreen.canvasStrategy :=
           Some {| Offscreen.scale := 1500 # 1000;
                   Offscreen.canvasWidth := 1920;
                   Offscreen.canvasHeight := 3750 |} |}
  /\ exists plan,
      planCapture 4 shortPageMetrics = Some (Js.Return plan)
      /\ (forall s doc,
            In s (plannedSegments plan) ->
            Offscreen.prepareCanvas (viewportWidth shortPageMetrics) (height s)
                                    (effectiveDpr (plannedStrategy plan))
            = Js.Return doc ->
            (binaryRatio (effectiveDpr (plannedStrategy plan)) = true
             \/ (atTie (inject_Z (height s)
                        * effectiveDpr (plannedStrategy plan)) = false
                 /\ Forall (fun m =>
                              atTie (inject_Z (Offscreen.yOffset m)
                                     * effectiveDpr (plannedStrategy plan))
                              = false)
                           (stitchMessagesOf shortPageMetrics
                              (length (plannedPositions plan))
                              nativeScreenshot s)))
            /\ exists doc' cv,
                stitchSegment shortPageMetrics (plannedStrategy plan)
                              (length (plannedPositions plan)) nativeScreenshot s
                = Js.Return doc'
                /\ Offscreen.canvas doc' = Some cv
                /\ Offscreen.height cv
                   = Js.round (inject_Z (height s)
                               * effectiveDpr (plannedStrategy plan))
                /\ (forall row,
                      0 <= row < Offscreen.height cv ->
                      exists call,
                        Offscreen.writersOf row (Offscreen.drawn cv) = [call]
                        /\ In (Offscreen.issuedBy call)
                              (stitchMessagesOf shortPageMetrics
                                 (length (plannedPositions plan))
                                 nativeScreenshot s))).
Proof.
  split; [vm_compute; reflexivity|].
  apply (planned_segment_rows_written_once shortPageMetrics 4 nativeScreenshot 1080).
  - vm_compute. discriminate.
  - vm_compute. discriminate.
  - vm_compute. lia.
  - intros strategy Hrun. vm_compute in Hrun. injection Hrun as <-.
    split; [vm_compute; reflexivity|].
    split; [vm_compute; reflexivity|]. left. vm_compute. reflexivity.
  - intros globalIndex. eexists. split; [reflexivity|]. cbn. lia.
Defined.

End StitchedPlan.

(* ================================================================== *)
(** * Stitcher: the geometry of one stitch *)
(* ================================================================== *)

Section StitchGeometry.

Import Offscreen.

Lemma orZ_zero (x : Z) : Js.orZ x 0 = x.
Proof.
  unfold Js.orZ. destruct (x =? 0) eqn:E; [|reflexivity].
  apply Z.eqb_eq in E. auto.
Qed.

(** The rows cropped from the source are to the source height as the
    overlap is to the window height, within half a source row. *)
Lemma crop_proportional (overlapPx drawHeight srcH : Z) :
  0 < drawHeight ->
  Z.abs (2 * (Js.round ((inject_Z overlapPx / inject_Z drawHeight) * inject_Z srcH)
              * drawHeight
              - overlapPx * srcH)) <= drawHeight.
Proof.
  intros HD.
  assert (HDq : (0 < inject_Z drawHeight)%Q).
  { change 0%Q with (inject_Z 0). rewrite <- Zlt_Qlt. exact HD. }
  destruct (round_bounds ((inject_Z overlapPx / inject_Z drawHeight) * inject_Z srcH))
    as [Hlo Hhi].
  set (r := Js.round _) in *.
  set (q := (inject_Z overlapPx / inject_Z drawHeight * inject_Z srcH)%Q) in *.
  assert (E : (q * inject_Z drawHeight == inject_Z overlapPx * inject_Z srcH)%Q)
    by (unfold q; field; lra).
  assert (Hup : (inject_Z r * inject_Z drawHeight
                 <= (q + (1 # 2)) * inject_Z drawHeight)%Q)
    by (apply Qmult_le_compat_r; lra).
  assert (Hdown : ((q - (1 # 2)) * inject_Z drawHeight
                   <= inject_Z r * inject_Z drawHeight)%Q)
    by (apply Qmult_le_compat_r; lra).
  assert (H1 : (inject_Z (2 * (r * drawHeight))
                <= inject_Z (2 * (overlapPx * srcH) + drawHeight))%Q).
  { rewrite inject_Z_plus, !inject_Z_mult. change (inject_Z 2) with 2%Q. lra. }
  assert (H2 : (inject_Z (2 * (overlapPx * srcH) - drawHeight)
                <= inject_Z (2 * (r * drawHeight)))%Q).
  { rewrite inject_Z_sub, !inject_Z_mult. change (inject_Z 2) with 2%Q. lra. }
  rewrite <- Zle_Qle in H1, H2. lia.
Qed.

(** X7.  One stitch with a loaded image and a window of positive height,
    whatever has been drawn before: the stitch succeeds, moves
    [_lastDrawnBottomY] to the bottom of the capture's window and issues at
    most one [drawImage].  That call copies the full width of the image from
    a source rectangle that ends at the bottom of the image into a
    destination rectangle that ends at the bottom of the window, and the
    rows cropped from the source are proportional to the rows cropped from
    the window within half a source row. *)
Theorem stitchViewport_draw_geometry :
  forall cv strategy m img,
    dataUrl m = Some img ->
    0 < drawHeightOf (scale strategy) m ->
    exists calls,
      stitchViewport {| canvas := Some cv; canvasStrategy := Some strategy |} m
      = Js.Return
          {| canvas :=
               Some {| width := width cv;
                       height := height cv;
                       lastDrawnBottomY :=
                         drawYOf (scale strategy) m + drawHeightOf (scale strategy) m;
                       drawn := drawn cv ++ calls |};
             canvasStrategy := Some strategy |}
      /\ (length calls <= 1)%nat
      /\ Forall (fun call =>
                   issuedBy call = m
                   /\ sx call = 0 /\ sw call = naturalWidth img
                   /\ dx call = 0 /\ dw call = width cv
                   /\ 0 < sh call /\ 0 < dh call
                   /\ sy call + sh call = naturalHeight img
                   /\ dy call + dh call
                      = drawYOf (scale strategy) m + drawHeightOf (scale strategy) m
                   /\ drawYOf (scale strategy) m <= dy call
                   /\ Z.abs (2 * (sy call * drawHeightOf (scale strategy) m
                                  - (dy call - drawYOf (scale strategy) m)
                                    * naturalHeight img))
                      <= drawHeightOf (scale strategy) m)
                calls.
Proof.
  intros cv strategy m img Himg HD.
  unfold stitchViewport. cbn [canvas canvasStrategy]. rewrite Himg.
  fold (drawYOf (scale strategy) m). fold (drawHeightOf (scale strategy) m).
  set (d := drawYOf (scale strategy) m) in *.
  set (D := drawHeightOf (scale strategy) m) in *.
  rewrite orZ_zero. set (L := lastDrawnBottomY cv) in *.
  unfold overlapCrop.
  destruct (negb (isFirst m) && (0 <? yOffset m) && (d <? L)) eqn:Ecrop.
  - apply andb_true_iff in Ecrop. destruct Ecrop as [Een Elt].
    rewrite Een, Elt. apply Z.ltb_lt in Elt.
    pose proof (crop_proportional (L - d) D (naturalHeight img) HD) as Hprop.
    set (crop := Js.round _) in *.
    destruct ((0 <? naturalHeight img - crop) && (0 <? D - (L - d))) eqn:Edraw.
    + apply andb_true_iff in Edraw. destruct Edraw as [Es Ed].
      apply Z.ltb_lt in Es, Ed.
      eexists. split; [do 4 f_equal; lia|].
      split; [cbn [length]; lia|].
      constructor; [|constructor].
      cbn [issuedBy sx sy sw sh dx dy dw dh].
      repeat split; try lia.
    + exists []. split; [rewrite app_nil_r; do 4 f_equal; lia|].
      split; [cbn [length]; lia | constructor].
  - assert (Epair : (if negb (isFirst m) && (0 <? yOffset m)
                     then if d <? L
                          then (Js.round (inject_Z (L - d) / inject_Z D
                                          * inject_Z (naturalHeight img)), L)
                          else (0, d)
                     else (0, d)) = (0, d)).
    { destruct (negb (isFirst m) && (0 <? yOffset m)); auto.
      simpl in Ecrop. rewrite Ecrop. reflexivity. }
    rewrite Epair.
    destruct ((0 <? naturalHeight img - 0) && (0 <? D - (d - d))) eqn:Edraw.
    + apply andb_true_iff in Edraw. destruct Edraw as [Es Ed].
      apply Z.ltb_lt in Es, Ed.
      eexists. split; [do 4 f_equal; lia|].
      split; [cbn [length]; lia|].
      constructor; [|constructor].
      cbn [issuedBy sx sy sw sh dx dy dw dh].
      repeat split; try lia.
    + exists []. split; [rewrite app_nil_r; do 4 f_equal; lia|].
      split; [cbn [length]; lia | constructor].
Qed.

Lemma stitchViewport_draw_geometry_witness :
  exists calls,
    stitchViewport
      {| canvas := Some {| width := 100; height := 1500;
                           lastDrawnBottomY := 1000; drawn := [] |};
         canvasStrategy := Some {| scale := 1; canvasWidth := 100;
                                   canvasHeight := 1500 |} |}
      (captureAt 500 false)
    = Js.Return
        {| canvas :=
             Some {| width := 100; height := 1500;
                     lastDrawnBottomY :=
                       drawYOf 1 (captureAt 500 false)
                       + drawHeightOf 1 (captureAt 500 false);
                     drawn := [] ++ calls |};
           canvasStrategy := Some {| scale := 1; canvasWidth := 100;
                                     canvasHeight := 1500 |} |}
    /\ (length calls <= 1)%nat
    /\ Forall (fun call =>
                 issuedBy call = captureAt 500 false
                 /\ sx call = 0 /\ sw call = 100
                 /\ dx call = 0 /\ dw call = 100
                 /\ 0 < sh call /\ 0 < dh call
                 /\ sy call + sh call = 1000
                 /\ dy call + dh call
                    = drawYOf 1 (captureAt 500 false)
                      + drawHeightOf 1 (captureAt 500 false)
                 /\ drawYOf 1 (captureAt 500 false) <= dy call
                 /\ Z.abs (2 * (sy call * drawHeightOf 1 (captureAt 500 false)
                                - (dy call - drawYOf 1 (captureAt 500 false)) * 1000))
                    <= drawHeightOf 1 (captureAt 500 false))
              calls.
Proof.
  apply (stitchViewport_draw_geometry
           {| width := 100; height := 1500; lastDrawnBottomY := 1000; drawn := [] |}
           {| scale := 1; canvasWidth := 100; canvasHeight := 1500 |}
           (captureAt 500 false)
           {| naturalWidth := 100; naturalHeight := 1000 |}).
  - reflexivity.
  - vm_compute. reflexivity.
Defined.

End StitchGeometry.

(* ================================================================== *)
(** * Capture flow: the canvas of a planned segment *)
(* ================================================================== *)

Section PlannedCanvas.

Import ServiceWorker CaptureFlow.

(** X8.  The canvas the offscreen document prepares for a segment, when it
    accepts it, is stitched at the ratio the service worker planned: the
    clamp to 0.5 of [determineCanvasStrategy] changes nothing.  The canvas
    is [round(viewportWidth * effectiveDpr)] by
    [round(segmentHeight * effectiveDpr)] pixels, at least 1 x 1 and within
    the limits. *)
Theorem prepareCanvas_at_planned_ratio :
  forall metrics strategy segmentHeight doc,
    1 <= viewportWidth metrics -> 1 <= segmentHeight ->
    computeCaptureStrategy metrics = Js.Return strategy ->
    Offscreen.prepareCanvas (viewportWidth metrics) segmentHeight
                            (effectiveDpr strategy) = Js.Return doc ->
    exists cv cstrategy,
      doc = {| Offscreen.canvas := Some cv;
               Offscreen.canvasStrategy := Some cstrategy |}
      /\ (Offscreen.scale cstrategy == effectiveDpr strategy)%Q
      /\ Offscreen.width cv
         = Js.round (inject_Z (viewportWidth metrics) * effectiveDpr strategy)
      /\ Offscreen.height cv
         = Js.round (inject_Z segmentHeight * effectiveDpr strategy)
      /\ 1 <= Offscreen.width cv <= CAPTURE_LIMITS.MAX_CANVAS_DIMENSION
      /\ 1 <= Offscreen.height cv <= CAPTURE_LIMITS.MAX_CANVAS_DIMENSION
      /\ Offscreen.width cv * Offscreen.height cv <= CAPTURE_LIMITS.MAX_CANVAS_AREA.
Proof.
  intros metrics strategy h doc Hw Hh Hrun Hprep.
  destruct (computeCaptureStrategy_run metrics) as (strategy' & Hrun' & He & _).
  rewrite Hrun in Hrun'. injection Hrun' as <-.
  set (e := effectiveDpr strategy) in *.
  assert (Ec : (Qmax (1 # 2) e == e)%Q) by (apply Q.max_r; exact He).
  destruct (prepareCanvas_fresh _ _ _ _ Hprep)
    as (cv & cstrategy & Edoc & Hscale & _).
  destruct (prepareCanvas_size _ _ _ _ Hprep)
    as (cv' & Hcv & Hwidth & Hheight & Hlw & Hlh & Harea).
  rewrite Edoc in Hcv. cbn [Offscreen.canvas] in Hcv. injection Hcv as <-.
  rewrite Z.max_r in Hwidth, Hheight by lia.
  assert (Ew : Offscreen.width cv = Js.round (inject_Z (viewportWidth metrics) * e)).
  { rewrite Hwidth. apply round_comp. rewrite Ec. reflexivity. }
  assert (Eh : Offscreen.height cv = Js.round (inject_Z h * e)).
  { rewrite Hheight. apply round_comp. rewrite Ec. reflexivity. }
  assert (Hone : forall z, 1 <= z -> 1 <= Js.round (inject_Z z * e)).
  { intros z Hz. change 1 with (Js.round (1 # 2)) at 1. apply round_mono.
    apply inject_Z_le in Hz. change (inject_Z 1) with 1%Q in Hz.
    apply Qle_trans with (inject_Z z * (1 # 2))%Q; [lra|].
    rewrite (Qmult_comm (inject_Z z) (1 # 2)), (Qmult_comm (inject_Z z) e).
    apply Qmult_le_compat_r; lra. }
  exists cv, cstrategy. split; [exact Edoc|].
  split; [rewrite Hscale; exact Ec|].
  split; [exact Ew|]. split; [exact Eh|].
  split; [split; [rewrite Ew; apply Hone; exact Hw | exact Hlw]|].
  split; [split; [rewrite Eh; apply Hone; exact Hh | exact Hlh]|].
  exact Harea.
Qed.

Lemma prepareCanvas_at_planned_ratio_witness :
  exists cv cstrategy,
    laptopSegmentCanvas
    = {| Offscreen.canvas := Some cv; Offscreen.canvasStrategy := Some cstrategy |}
    /\ (Offscreen.scale cstrategy == effectiveDpr laptopStrategy)%Q
    /\ Offscreen.width cv
       = Js.round (inject_Z (viewportWidth laptopMetrics) * effectiveDpr laptopStrategy)
    /\ Offscreen.height cv
       = Js.round (inject_Z 2500 * effectiveDpr laptopStrategy)
    /\ 1 <= Offscreen.width cv <= CAPTURE_LIMITS.MAX_CANVAS_DIMENSION
    /\ 1 <= Offscreen.height cv <= CAPTURE_LIMITS.MAX_CANVAS_DIMENSION
    /\ Offscreen.width cv * Offscreen.height cv <= CAPTURE_LIMITS.MAX_CANVAS_AREA.
Proof.
  apply (prepareCanvas_at_planned_ratio laptopMetrics laptopStrategy 2500
                                        laptopSegmentCanvas).
  - vm_compute. discriminate.
  - lia.
  - vm_compute. reflexivity.
  - vm_compute. reflexivity.
Defined.

End PlannedCanvas.

(* ================================================================== *)
(** * Paginator: the whitespace bands are the maximal blank runs *)
(* ================================================================== *)

Section BandScan.

Import Viewer.

Lemma StronglySorted_snoc (A : Type) (R : A -> A -> Prop) (l : list A) (x : A) :
  StronglySorted R l -> Forall (fun y => R y x) l -> StronglySorted R (l ++ [x]).
Proof.
  induction l as [|a l IH]; intros Hs Hx; cbn [app].
  - constructor; constructor.
  - apply StronglySorted_inv in Hs. destruct Hs as [Hs Ha].
    apply Forall_cons_iff in Hx. destruct Hx as [Hax Hx].
    constructor; [apply IH; assumption|].
    apply Forall_app. split; [exact Ha | constructor; [exact Hax | constructor]].
Qed.

Variable rowScores : list Q.
Variable fromY toY : Z.
Variable blankThreshold : Q.
Variable minBandPx : Z.

Let blank (r : Z) : bool := blankRow rowScores blankThreshold r.

Let good (band : Band) : Prop :=
  band = bandAt (start band) (end_ band)
  /\ minBandPx <= width band
  /\ maximalBlankRun rowScores fromY toY blankThreshold band.

Let run (a b : Z) : Prop :=
  fromY <= a <= b /\ b <= toY
  /\ (forall r, a <= r <= b -> blank r = true)
  /\ minBandPx <= b - a + 1.

Lemma blank_nonneg r : blank r = true -> 0 <= r.
Proof.
  unfold blank, blankRow. destruct (nth_error _ _); [|discriminate].
  intros H. apply andb_true_iff in H. destruct H as [H _].
  apply Z.leb_le in H. exact H.
Qed.

(** The scan from row [r]: [bound] is the first row not yet accounted for
    by [bands], the start of the open run if there is one and [r]
    otherwise. *)
Lemma bandScan_invariant (n : nat) : forall r bandStart bands bound,
  r + Z.of_nat n = toY + 2 -> fromY <= r ->
  ((bandStart < 0 /\ bound = r
    /\ (r = fromY \/ blank (r - 1) = false \/ toY + 1 < r))
   \/ (0 <= bandStart /\ bound = bandStart
       /\ fromY <= bandStart < r /\ r <= toY + 1
       /\ (forall x, bandStart <= x < r -> blank x = true)
       /\ (bandStart = fromY \/ blank (bandStart - 1) = false))) ->
  Forall good bands ->
  StronglySorted bandsApart bands ->
  Forall (fun band => end_ band + 1 < bound) bands ->
  (forall a b, run a b -> b < bound ->
     exists band, In band bands /\ start band <= a /\ b <= end_ band) ->
  let result :=
    bandScan n rowScores r toY blankThreshold minBandPx bandStart bands in
  Forall good result
  /\ StronglySorted bandsApart result
  /\ (forall a b, run a b ->
        exists band, In band result /\ start band <= a /\ b <= end_ band).
Proof.
  induction n as [|n IH];
    intros r bandStart bands bound Hn Hr Hstate Hgood Hsorted Hbound Hcomplete;
    cbn [bandScan].
  - split; [exact Hgood|]. split; [exact Hsorted|].
    intros a b Hrun. apply Hcomplete; [exact Hrun|].
    destruct Hrun as (_ & Hb & _). cbn [Z.of_nat] in Hn.
    destruct Hstate as [(_ & -> & _) | (_ & _ & _ & Hopen & _)]; lia.
  - rewrite Nat2Z.inj_succ in Hn.
    change (match nth_error rowScores (Z.to_nat r) with
            | Some score => (0 <=? r) && Js.ltb score blankThreshold
            | None => false
            end) with (blank r).
    destruct ((r <=? toY) && blank r) eqn:Eblank.
    + (* row [r] is blank: the run opens or goes on *)
      apply andb_true_iff in Eblank. destruct Eblank as [Ele Eb].
      apply Z.leb_le in Ele. pose proof (blank_nonneg r Eb) as Hr0.
      apply IH with (bound := bound);
        [lia | lia | | exact Hgood | exact Hsorted | exact Hbound | exact Hcomplete].
      destruct Hstate as [(Hclosed & -> & Hprev) | (Hopen & -> & Hin & Hle & Hrows & Hmax)].
      * right. replace (bandStart <? 0) with true by (symmetry; apply Z.ltb_lt; lia).
        split; [exact Hr0|]. split; [reflexivity|].
        split; [lia|]. split; [lia|]. split.
        -- intros x Hx. replace x with r by lia. exact Eb.
        -- destruct Hprev as [? | [? | ?]]; [left; assumption | right; assumption | lia].
      * right. replace (bandStart <? 0) with false by (symmetry; apply Z.ltb_ge; lia).
        split; [exact Hopen|]. split; [reflexivity|].
        split; [lia|]. split; [lia|]. split; [|exact Hmax].
        intros x Hx. destruct (Z.eq_dec x r) as [-> | Hne]; [exact Eb|].
        apply Hrows. lia.
    + (* row [r] is not blank, or lies past [toY] *)
      assert (Hnot : forall b, b <= toY -> blank b = true -> b <> r).
      { intros b Hb Hbb ->. apply Z.leb_le in Hb. rewrite Hb, Hbb in Eblank.
        discriminate. }
      assert (Hclosed' : r + 1 = fromY \/ blank (r + 1 - 1) = false \/ toY + 1 < r + 1).
      { replace (r + 1 - 1) with r by lia.
        apply andb_false_iff in Eblank. destruct Eblank as [E | E].
        - apply Z.leb_gt in E. right. right. lia.
        - right. left. exact E. }
      destruct Hstate as [(Hclosed & -> & Hprev) | (Hopen & -> & Hin & Hle & Hrows & Hmax)].
      * replace (0 <=? bandStart) with false by (symmetry; apply Z.leb_gt; lia).
        apply IH with (bound := r + 1);
          [lia | lia | | exact Hgood | exact Hsorted | |].
        -- left. split; [lia|]. split; [reflexivity | exact Hclosed'].
        -- eapply Forall_impl; [|exact Hbound]. cbn beta. intros band Hb. lia.
        -- intros a b Hrun Hb. apply Hcomplete; [exact Hrun|].
           destruct Hrun as (Ha & Hbt & Hblank & _).
           specialize (Hnot b Hbt (Hblank b ltac:(lia))). lia.
      * replace (0 <=? bandStart) with true by (symmetry; apply Z.leb_le; lia).
        cbv zeta.
        assert (Hrun_in : forall a b, run a b -> b < r + 1 ->
                  (bandStart <= a /\ b <= r - 1) \/ b < bandStart).
        { intros a b (Ha & Hbt & Hblank & Hw) Hb.
          specialize (Hnot b Hbt (Hblank b ltac:(lia))).
          destruct (Z_lt_le_dec a bandStart) as [Hlt | Hge]; [|left; lia].
          right. destruct (Z_lt_le_dec b bandStart) as [? | Hbge]; [assumption|].
          exfalso. destruct Hmax as [-> | Hmax]; [lia|].
          rewrite (Hblank (bandStart - 1)) in Hmax by lia. discriminate. }
        destruct (minBandPx <=? r - 1 - bandStart + 1) eqn:Ew.
        -- apply Z.leb_le in Ew.
           apply IH with (bound := r + 1); [lia | lia | | | | |].
           ++ left. split; [lia|]. split; [reflexivity | exact Hclosed'].
           ++ apply Forall_app. split; [exact Hgood|]. constructor; [|constructor].
              split; [reflexivity|]. split; [exact Ew|].
              unfold maximalBlankRun. cbn [start end_].
              split; [lia|]. split; [lia|].
              split; [intros x Hx; apply Hrows; lia|].
              split; [exact Hmax|].
              replace (r - 1 + 1) with r by lia.
              replace (r + 1 - 1) with r in Hclosed' by lia.
              destruct Hclosed' as [? | [? | ?]]; [lia | right; assumption | left; lia].
           ++ apply StronglySorted_snoc; [exact Hsorted|].
              eapply Forall_impl; [|exact Hbound]. intros b Hb.
              unfold bandsApart. cbn [start]. exact Hb.
           ++ apply Forall_app. split.
              ** eapply Forall_impl; [|exact Hbound]. cbn beta. intros b Hb. lia.
              ** constructor; [cbn [end_]; lia | constructor].
           ++ intros a b Hrun Hb.
              destruct (Hrun_in a b Hrun Hb) as [[Ha Hb'] | Hlt].
              ** eexists. split; [apply in_or_app; right; left; reflexivity|].
                 cbn [start end_]. lia.
              ** destruct (Hcomplete a b Hrun Hlt) as (band' & Hin' & Hcov).
                 exists band'. split; [apply in_or_app; left; exact Hin' | exact Hcov].
        -- apply Z.leb_gt in Ew.
           apply IH with (bound := r + 1); [lia | lia | | exact Hgood | exact Hsorted | |].
           ++ left. split; [lia|]. split; [reflexivity | exact Hclosed'].
           ++ eapply Forall_impl; [|exact Hbound]. cbn beta. intros b Hb. lia.
           ++ intros a b Hrun Hb.
              destruct (Hrun_in a b Hrun Hb) as [[Ha Hb'] | Hlt].
              ** exfalso. destruct Hrun as (_ & _ & _ & Hw). lia.
              ** apply Hcomplete; assumption.
Qed.

(** The three facts about the bands found between [fromY] and [toY]. *)
Lemma findAllWhitespaceBands_runs :
  let result :=
    findAllWhitespaceBands rowScores fromY toY blankThreshold minBandPx in
  Forall good result
  /\ StronglySorted bandsApart result
  /\ (forall a b, run a b ->
        exists band, In band result /\ start band <= a /\ b <= end_ band).
Proof.
  cbv zeta. unfold findAllWhitespaceBands.
  destruct (Z_lt_le_dec (toY + 1 - fromY + 1) 0) as [Hneg | Hpos].
  - replace (Z.to_nat (toY + 1 - fromY + 1)) with 0%nat by lia. cbn [bandScan].
    split; [constructor|]. split; [constructor|].
    intros a b (Ha & Hb & _). lia.
  - apply bandScan_invariant with (bound := fromY).
    + lia.
    + lia.
    + left. split; [lia|]. split; [reflexivity|]. left. reflexivity.
    + constructor.
    + constructor.
    + constructor.
    + intros a b (Ha & _) Hb. lia.
Qed.

End BandScan.

Section DetectedRuns.

Import Viewer.

(** X9.  Every band that [findAllWhitespaceBands] reports is a maximal run
    of blank rows inside the scanned range: its rows all score below the
    threshold, the row before it and the row after it (when inside the
    range) do not, it is at least [minBandPx] rows wide, and its [centre]
    and [width] are those of its [start] and [end]. *)
Theorem findAllWhitespaceBands_sound :
  forall rowScores fromY toY blankThreshold minBandPx,
    Forall (fun band =>
              band = bandAt (start band) (end_ band)
              /\ minBandPx <= width band
              /\ maximalBlankRun rowScores fromY toY blankThreshold band)
           (findAllWhitespaceBands rowScores fromY toY blankThreshold minBandPx).
Proof.
  intros. apply (findAllWhitespaceBands_runs rowScores fromY toY blankThreshold minBandPx).
Qed.

(** X10.  The bands are reported top to bottom and never touch: at least
    one row lies between the end of a band and the start of any later one. *)
Theorem findAllWhitespaceBands_ordered :
  forall rowScores fromY toY blankThreshold minBandPx,
    StronglySorted bandsApart
      (findAllWhitespaceBands rowScores fromY toY blankThreshold minBandPx).
Proof.
  intros. apply (findAllWhitespaceBands_runs rowScores fromY toY blankThreshold minBandPx).
Qed.

(** X11.  No whitespace is missed: every run of at least [minBandPx]
    consecutive blank rows inside the scanned range lies within one of the
    reported bands. *)
Theorem findAllWhitespaceBands_complete :
  forall rowScores fromY toY blankThreshold minBandPx a b,
    fromY <= a <= b -> b <= toY ->
    (forall r, a <= r <= b -> blankRow rowScores blankThreshold r = true) ->
    minBandPx <= b - a + 1 ->
    exists band,
      In band (findAllWhitespaceBands rowScores fromY toY blankThreshold minBandPx)
      /\ start band <= a /\ b <= end_ band.
Proof.
  intros rowScores fromY toY blankThreshold minBandPx a b Ha Hb Hblank Hw.
  apply (findAllWhitespaceBands_runs rowScores fromY toY blankThreshold minBandPx).
  repeat split; try assumption; lia.
Qed.

Lemma findAllWhitespaceBands_complete_witness :
  findAllWhitespaceBands sevenRowScores 0 6 12 2 = [bandAt 0 1; bandAt 3 5]
  /\ exists band,
      In band (findAllWhitespaceBands sevenRowScores 0 6 12 2)
      /\ start band <= 4 /\ 5 <= end_ band.
Proof.
  split; [reflexivity|].
  apply (findAllWhitespaceBands_complete sevenRowScores 0 6 12 2 4 5).
  - lia.
  - lia.
  - intros r Hr. assert (Er : r = 4 \/ r = 5) by lia.
    destruct Er as [-> | ->]; reflexivity.
  - lia.
Defined.

End DetectedRuns.

(* ================================================================== *)
(** * Paginator: the row scores of a flat raster *)
(* ================================================================== *)

Section FlatRaster.

Import Viewer.

Lemma sumQ_constant (l : list Q) (b : Q) :
  Forall (fun x => (x == b)%Q) l ->
  (sumQ l == inject_Z (Z.of_nat (length l)) * b)%Q.
Proof.
  unfold sumQ. intros Hl.
  assert (Hacc : forall acc,
            (fold_left Qplus l acc == acc + inject_Z (Z.of_nat (length l)) * b)%Q).
  { induction Hl as [|x l Hx Hl IH]; intros acc; cbn [fold_left length].
    - cbn [Z.of_nat]. change (inject_Z 0) with 0%Q. ring.
    - rewrite IH, Hx, Nat2Z.inj_succ, <- Z.add_1_r, inject_Z_plus.
      change (inject_Z 1) with 1%Q. ring. }
  rewrite Hacc. ring.
Qed.

Lemma sampledColumns_range (canvasWidth stride : Z) (fuel : nat) : forall c0 c,
  0 < stride ->
  In c (sampledColumns fuel c0 canvasWidth stride) -> c0 <= c < canvasWidth.
Proof.
  induction fuel as [|fuel IH]; intros c0 c Hs Hin; cbn [sampledColumns] in Hin;
    [contradiction|].
  destruct (c0 <? canvasWidth) eqn:E; [|contradiction].
  apply Z.ltb_lt in E. destruct Hin as [<- | Hin]; [lia|].
  specialize (IH _ _ Hs Hin). lia.
Qed.

Lemma rowsFrom_range (from : Z) (count : nat) (r : Z) :
  In r (rowsFrom from count) -> from <= r < from + Z.of_nat count.
Proof.
  unfold rowsFrom. intros Hin. apply in_map_iff in Hin.
  destruct Hin as (k & <- & Hk). apply in_seq in Hk. lia.
Qed.

Lemma nth_flat_pixels (px : list Z) (n p c : nat) :
  length px = 4%nat -> (p < n)%nat -> (c < 4)%nat ->
  nth (4 * p + c) (concat (repeat px n)) 0 = nth c px 0.
Proof.
  intros Hpx. revert p. induction n as [|n IH]; intros p Hp Hc; [lia|].
  cbn [repeat concat]. destruct p as [|p].
  - replace (4 * 0 + c)%nat with c by lia. apply app_nth1. lia.
  - rewrite app_nth2 by lia. rewrite Hpx.
    replace (4 * S p + c - 4)%nat with (4 * p + c)%nat by lia.
    apply IH; lia.
Qed.

Variable width height red green blue alpha : Z.

Let data : list Z :=
  concat (repeat [red; green; blue; alpha] (Z.to_nat (width * height))).

Let flat : Q := (inject_Z (red + green + blue) / 3)%Q.

Lemma uniform_brightness (r c : Z) :
  0 <= r < height -> 0 <= c < width ->
  (brightnessAt data width r c == flat)%Q.
Proof.
  intros Hr Hc.
  assert (Hpix : forall k,
            0 <= k < 4 ->
            pixel data ((r * width + c) * 4 + k)
            = nth (Z.to_nat k) [red; green; blue; alpha] 0).
  { intros k Hk. unfold pixel, data.
    replace (Z.to_nat ((r * width + c) * 4 + k))
      with (4 * Z.to_nat (r * width + c) + Z.to_nat k)%nat by nia.
    apply nth_flat_pixels; [reflexivity|nia|lia]. }
  unfold brightnessAt, flat. cbv zeta.
  pose proof (Hpix 0 ltac:(lia)) as H0.
  pose proof (Hpix 1 ltac:(lia)) as H1.
  pose proof (Hpix 2 ltac:(lia)) as H2.
  rewrite Z.add_0_r in H0.
  change (Z.to_nat 0) with 0%nat in H0.
  change (Z.to_nat 1) with 1%nat in H1.
  change (Z.to_nat 2) with 2%nat in H2.
  cbn [nth] in H0, H1, H2.
  rewrite H0, H1, H2. reflexivity.
Qed.

Lemma uniform_background :
  1 <= height ->
  columnsOf width sampleStride <> [] ->
  (detectBackgroundBrightness data width height sampleStride == flat)%Q.
Proof.
  intros Hh Hcols. unfold detectBackgroundBrightness. cbv zeta.
  set (edgeRows := Z.max 1 (Js.round (inject_Z height * (3 # 100)))).
  assert (Hedge : 1 <= edgeRows <= height).
  { unfold edgeRows. split; [lia|]. apply Z.max_lub; [lia|].
    destruct (round_bounds (inject_Z height * (3 # 100))) as [_ Hhi].
    assert (H1 : (1 <= inject_Z height)%Q)
      by (change 1%Q with (inject_Z 1); apply inject_Z_le; lia).
    rewrite Zle_Qle. lra. }
  set (rows := rowsFrom 0 (Z.to_nat edgeRows)
               ++ rowsFrom (height - edgeRows) (Z.to_nat edgeRows)).
  set (samples := flat_map _ rows).
  assert (Hsamples : Forall (fun x => (x == flat)%Q) samples).
  { apply Forall_forall. intros x Hx. unfold samples in Hx.
    apply in_flat_map in Hx. destruct Hx as (r & Hr & Hx).
    apply in_map_iff in Hx. destruct Hx as (c & <- & Hc).
    apply sampledColumns_range in Hc; [|reflexivity].
    apply uniform_brightness; [|lia].
    unfold rows in Hr. apply in_app_or in Hr.
    destruct Hr as [Hr | Hr]; apply rowsFrom_range in Hr; lia. }
  assert (Hn : (1 <= length samples)%nat).
  { unfold samples, rows.
    destruct (Z.to_nat edgeRows) as [|k] eqn:Ek; [lia|].
    unfold rowsFrom at 1. cbn [seq map app flat_map].
    rewrite length_app, length_map.
    destruct (columnsOf width sampleStride); [congruence | cbn [length]; lia]. }
  replace (0 <? Z.of_nat (length samples)) with true
    by (symmetry; apply Z.ltb_lt; lia).
  rewrite (sumQ_constant samples flat Hsamples).
  assert (Hq : (1 <= inject_Z (Z.of_nat (length samples)))%Q)
    by (change 1%Q with (inject_Z 1); apply inject_Z_le; lia).
  field. lra.
Qed.

(** Every row of a flat raster scores zero. *)
Lemma uniform_row_scores :
  1 <= height ->
  Forall (fun score => (score == 0)%Q)
         (buildRowScores data width height sampleStride
            (detectBackgroundBrightness data width height sampleStride)).
Proof.
  intros Hh. unfold buildRowScores. apply Forall_forall. intros score Hs.
  apply in_map_iff in Hs. destruct Hs as (r & <- & Hr).
  apply rowsFrom_range in Hr. cbv zeta.
  destruct (columnsOf width sampleStride) as [|c0 cols] eqn:Ecols.
  - cbn [map length Z.of_nat Z.ltb Z.compare]. reflexivity.
  - pose proof (uniform_background Hh) as Hbg.
    rewrite Ecols in Hbg. specialize (Hbg ltac:(discriminate)).
    set (bg := detectBackgroundBrightness data width height sampleStride) in *.
    set (deviations := map _ (c0 :: cols)).
    assert (Hdev : Forall (fun x => (x == 0)%Q) deviations).
    { apply Forall_forall. intros x Hx. unfold deviations in Hx.
      apply in_map_iff in Hx. destruct Hx as (c & <- & Hc).
      rewrite <- Ecols in Hc. apply sampledColumns_range in Hc; [|reflexivity].
      rewrite uniform_brightness by lia. rewrite Hbg.
      assert (E : (flat - flat == 0)%Q) by ring.
      rewrite E. reflexivity. }
    destruct (0 <? Z.of_nat (length deviations)); [|reflexivity].
    rewrite (sumQ_constant deviations 0 Hdev).
    unfold Qdiv. ring.
Qed.

End FlatRaster.

Section FlatRasterBands.

Import Viewer.

Lemma buildRowScores_length data canvasWidth canvasHeight stride bgBrightness :
  length (buildRowScores data canvasWidth canvasHeight stride bgBrightness)
  = Z.to_nat canvasHeight.
Proof.
  unfold buildRowScores, rowsFrom. rewrite !length_map, length_seq. reflexivity.
Qed.

Lemma zero_score_blank (rowScores : list Q) (threshold : Q) (r : Z) :
  (0 < threshold)%Q ->
  Forall (fun score => (score == 0)%Q) rowScores ->
  0 <= r < Z.of_nat (length rowScores) ->
  blankRow rowScores threshold r = true.
Proof.
  intros Ht Hzero Hr. unfold blankRow.
  destruct (nth_error rowScores (Z.to_nat r)) as [score|] eqn:E.
  - apply nth_error_In in E. rewrite Forall_forall in Hzero.
    specialize (Hzero score E).
    replace (0 <=? r) with true by (symmetry; apply Z.leb_le; lia).
    cbn [andb]. unfold Js.ltb.
    destruct (Qle_bool threshold score) eqn:El; [|reflexivity].
    apply Qle_bool_iff in El. rewrite Hzero in El. lra.
  - apply nth_error_None in E. lia.
Qed.

(** X12.  A raster of one flat colour, at least two rows tall, is one
    whitespace band from its first row to its last: every row scores zero
    against the detected background, whatever the red, green, blue and
    alpha of the colour and whatever the width. *)
Theorem readBands_uniform_raster :
  forall width height red green blue alpha,
    2 <= height ->
    readBands (uniformRaster width height red green blue alpha)
    = Some [bandAt 0 (height - 1)].
Proof.
  intros width height red green blue alpha Hh.
  unfold readBands, uniformRaster. cbn [getImageData canvasWidth canvasHeight].
  set (data := concat (repeat [red; green; blue; alpha]
                              (Z.to_nat (width * height)))).
  set (rowScores := buildRowScores data width height sampleStride _).
  f_equal.
  assert (Hzero : Forall (fun score => (score == 0)%Q) rowScores).
  { apply uniform_row_scores. lia. }
  assert (Hlen : Z.of_nat (length rowScores) = height).
  { unfold rowScores. rewrite buildRowScores_length. lia. }
  assert (Hblank : forall r, 0 <= r <= height - 1 ->
            blankRow rowScores BLANK_ROW_THRESHOLD r = true).
  { intros r Hr. apply zero_score_blank; [reflexivity | exact Hzero | lia]. }
  destruct (findAllWhitespaceBands_runs rowScores 0 (height - 1)
              BLANK_ROW_THRESHOLD MIN_BAND_PX) as (Hgood & Hsorted & Hcomplete).
  set (bands := findAllWhitespaceBands rowScores 0 (height - 1)
                  BLANK_ROW_THRESHOLD MIN_BAND_PX) in *.
  assert (Hall : forall band, In band bands -> band = bandAt 0 (height - 1)).
  { intros band Hin. rewrite Forall_forall in Hgood.
    destruct (Hgood band Hin) as (Eband & _ & Hrange & Hup & _ & Hstart & Hend).
    assert (Es : start band = 0).
    { destruct Hstart as [? | Hnb]; [assumption|].
      destruct (Z.eq_dec (start band) 0) as [? | Hne]; [assumption|].
      rewrite Hblank in Hnb by lia. discriminate. }
    assert (Ee : end_ band = height - 1).
    { destruct Hend as [? | Hnb]; [assumption|].
      destruct (Z.eq_dec (end_ band) (height - 1)) as [? | Hne]; [assumption|].
      rewrite Hblank in Hnb by lia. discriminate. }
    rewrite Eband, Es, Ee. reflexivity. }
  destruct (Hcomplete 0 (height - 1)) as (band & Hin & _).
  { split; [lia|]. split; [lia|]. split; [exact Hblank | unfold MIN_BAND_PX; lia]. }
  destruct bands as [|b1 [|b2 rest]].
  - contradiction.
  - rewrite (Hall b1) by (left; reflexivity). reflexivity.
  - exfalso. apply StronglySorted_inv in Hsorted. destruct Hsorted as [_ Hb1].
    apply Forall_cons_iff in Hb1. destruct Hb1 as [Hapart _].
    rewrite (Hall b1) in Hapart by (left; reflexivity).
    rewrite (Hall b2) in Hapart by (right; left; reflexivity).
    unfold bandsApart in Hapart. cbn [start end_ bandAt] in Hapart. lia.
Qed.

(** An opaque red raster, 8 x 5. *)
Lemma readBands_uniform_raster_witness :
  readBands (uniformRaster 8 5 255 0 0 255) = Some [bandAt 0 (5 - 1)].
Proof.
  apply (readBands_uniform_raster 8 5 255 0 0 255). lia.
Defined.

End FlatRasterBands.

(* ================================================================== *)
(** * Paginator: an unreadable raster is tiled *)
(* ================================================================== *)

Section TiledWithoutBands.

Import Viewer.

Variable g : PageGeometry.

Hypothesis scale_pos : (0 < scale g)%Q.
Hypothesis imgHeightMm_pos : (0 < imgHeightMm g)%Q.
Hypothesis imageContentH_pos : (0 < imageContentH g)%Q.
Hypothesis canvas_height_nonneg : 0 <= canvas_height g.
Hypothesis page_holds_rows : (20 # 19 <= contentHPx g)%Q.

(** The last page ends at the bottom of the raster. *)
Lemma nominalEndY_last : nominalEndY g (pagesNeeded g - 1) = canvas_height g.
Proof.
  unfold nominalEndY. cbv zeta.
  replace (pagesNeeded g - 1 + 1) with (pagesNeeded g) by lia.
  set (M := imgHeightMm g) in *. set (H := inject_Z (canvas_height g)).
  assert (Hceil : (scaledHeight g / imageContentH g <= inject_Z (pagesNeeded g))%Q)
    by apply Qle_ceiling.
  unfold scaledHeight in Hceil. fold M in Hceil.
  assert (Hreach : (M <= inject_Z (pagesNeeded g) * imageContentH g / scale g)%Q).
  { apply Qle_shift_div_l; [exact scale_pos|].
    apply Qle_trans with (M * scale g / imageContentH g * imageContentH g)%Q.
    - assert (E : (M * scale g / imageContentH g * imageContentH g == M * scale g)%Q)
        by (field; lra).
      rewrite E. apply Qle_refl.
    - apply Qmult_le_compat_r; [exact Hceil | lra]. }
  assert (Emin : (Qmin (inject_Z (pagesNeeded g) * imageContentH g / scale g) M == M)%Q)
    by (apply Q.min_r; exact Hreach).
  assert (Ex : (Qmin (inject_Z (pagesNeeded g) * imageContentH g / scale g) M / M * H
                == H)%Q).
  { rewrite Emin. field. lra. }
  rewrite (round_comp _ _ Ex). unfold H. rewrite round_inject. apply Z.min_id.
Qed.

Lemma pagesNeeded_positive : 1 <= canvas_height g -> 1 <= pagesNeeded g.
Proof.
  intros Hh. unfold pagesNeeded, Js.ceil.
  assert (Hpos : (0 < scaledHeight g / imageContentH g)%Q).
  { unfold scaledHeight. apply Qlt_shift_div_l; [exact imageContentH_pos|].
    assert (Hp : (0 < imgHeightMm g * scale g)%Q)
      by (apply Qmult_lt_0_compat; assumption).
    lra. }
  pose proof (Qle_ceiling (scaledHeight g / imageContentH g)) as Hc.
  assert (Hlt : (inject_Z 0 < inject_Z (Qceiling (scaledHeight g / imageContentH g)))%Q).
  { change (inject_Z 0) with 0%Q. lra. }
  rewrite <- Zlt_Qlt in Hlt. lia.
Qed.

(** Without bands the slice height is the distance to the next cut, capped
    at one page and raised to one row; the cap costs at most one row. *)
Lemma pageStep_without_bands_srcH (k : nat) :
  let slice := pageStep g None (Z.of_nat k) (prevCutYAt g None k) in
  srcH slice = Z.max 1 (Z.min (nextCutY slice - srcY slice)
                              (Js.round (contentHPx g)))
  /\ nextCutY slice - srcY slice - 1 <= srcH slice.
Proof.
  cbv zeta.
  destruct (prevCutYAt_without_bands g scale_pos imgHeightMm_pos
              canvas_height_nonneg page_holds_rows k) as [Hcut Hbound].
  destruct (pageStep_without_bands g scale_pos imgHeightMm_pos
              canvas_height_nonneg page_holds_rows (Z.of_nat k) _ Hbound)
    as (HsrcY & _ & _ & Hnext).
  cbv zeta in HsrcY, Hnext.
  assert (HsrcH : srcH (pageStep g None (Z.of_nat k) (prevCutYAt g None k))
                  = Z.max 1 (Z.min (nominalEndY g (Z.of_nat k) - prevCutYAt g None k)
                                   (Js.round (contentHPx g)))).
  { rewrite <- Hnext. unfold pageStep, selectCut. cbn [andb].
    destruct (Js.ltb _ _) eqn:Efloor; cbn [srcH nextCutY]; reflexivity. }
  rewrite HsrcY, Hnext, HsrcH. split; [reflexivity|].
  set (N := nominalEndY g (Z.of_nat k)) in *.
  set (P := prevCutYAt g None k) in *.
  assert (Hgap : N - P <= Js.round (contentHPx g) + 1).
  { pose proof (nominalEndY_upper g scale_pos imgHeightMm_pos canvas_height_nonneg
                  (Z.of_nat k)) as Hup.
    fold N in Hup.
    destruct (round_bounds (contentHPx g)) as [Hlo _].
    assert (Hprev : (inject_Z (Z.of_nat k) * contentHPx g - (1 # 2) < inject_Z P)%Q
                    \/ N <= P).
    { destruct k as [|k'].
      - left. unfold P. cbn [prevCutYAt Z.of_nat]. change (inject_Z 0) with 0%Q. lra.
      - rewrite Hcut.
        destruct (nominalEndY_cases g scale_pos imgHeightMm_pos canvas_height_nonneg
                    (Z.of_nat k')) as [Hin | Hbottom].
        + left. replace (Z.of_nat (S k')) with (Z.of_nat k' + 1) by lia. exact Hin.
        + right. rewrite Hbottom. apply nominalEndY_le. }
    destruct Hprev as [Hprev | Hle]; [|pose proof (round_nonneg (contentHPx g) ltac:(lra)); lia].
    rewrite inject_Z_plus in Hup. change (inject_Z 1) with 1%Q in Hup.
    assert (Hq : (inject_Z (N - P) < inject_Z (Js.round (contentHPx g) + 2))%Q).
    { rewrite inject_Z_sub, inject_Z_plus. change (inject_Z 2) with 2%Q. lra. }
    rewrite <- Zlt_Qlt in Hq. lia. }
  lia.
Qed.

End TiledWithoutBands.

Section TiledExport.

Import Viewer.

(** X13.  When the pixels cannot be read, the pages tile the raster: the
    first slice starts at row 0, every later slice starts at the cut of
    the slice before, and the cut of the last slice is the bottom of the
    raster.  A slice is as tall as the distance to its cut, except that the
    cap at one page can drop one row and that it is never shorter than one
    row. *)
Theorem unreadable_pixels_tile_raster :
  forall ctx canvas pageSize,
    getImageData canvas = None ->
    1 <= canvasWidth canvas -> 1 <= canvasHeight canvas ->
    (length (footerLines ctx) <= 2)%nat ->
    let slices := appendCanvasToPagedPdf ctx canvas pageSize in
    (exists first, nth_error slices 0 = Some first /\ srcY first = 0)
    /\ (forall k s s',
          nth_error slices k = Some s -> nth_error slices (S k) = Some s' ->
          srcY s' = nextCutY s)
    /\ (exists last,
          nth_error slices (length slices - 1) = Some last
          /\ nextCutY last = canvasHeight canvas)
    /\ Forall (fun s =>
                 nextCutY s - srcY s - 1 <= srcH s <= Z.max 1 (nextCutY s - srcY s))
              slices.
Proof.
  intros ctx canvas pageSize Hdata HW HH Hfooter. cbv zeta.
  unfold appendCanvasToPagedPdf.
  replace (readBands canvas) with (@None (list Band))
    by (unfold readBands; rewrite Hdata; reflexivity).
  set (g := pageGeometry ctx canvas pageSize).
  assert (Hs : (0 < scale g)%Q) by (apply pageGeometry_scale_positive; auto).
  assert (HM : (0 < imgHeightMm g)%Q) by (apply pageGeometry_imgHeightMm_positive; auto).
  assert (Hh : 0 <= canvas_height g) by (unfold g; cbn; lia).
  assert (Hc : (20 # 19 <= contentHPx g)%Q) by (apply pageGeometry_contentHPx; auto).
  assert (HI : (0 < imageContentH g)%Q).
  { destruct (pageGeometry_lengths ctx canvas pageSize Hfooter)
      as (cw & px & _ & _ & HIH & _).
    fold g in HIH. lra. }
  assert (Hpages : 1 <= pagesNeeded g).
  { apply pagesNeeded_positive; auto; unfold g; cbn; lia. }
  assert (Hlen : length (paginate g None) = Z.to_nat (pagesNeeded g))
    by apply paginate_length.
  assert (Hnth : forall k, (k < Z.to_nat (pagesNeeded g))%nat ->
            nth_error (paginate g None) k
            = Some (pageStep g None (Z.of_nat k) (prevCutYAt g None k))).
  { intros k Hk.
    destruct (nth_error (paginate g None) k) as [s|] eqn:E.
    - destruct (paginate_nth _ _ _ _ E) as [_ ->]. reflexivity.
    - apply nth_error_None in E. lia. }
  assert (Hstep : forall k,
            srcY (pageStep g None (Z.of_nat k) (prevCutYAt g None k))
            = prevCutYAt g None k
            /\ nextCutY (pageStep g None (Z.of_nat k) (prevCutYAt g None k))
               = nominalEndY g (Z.of_nat k)).
  { intros k.
    destruct (prevCutYAt_without_bands g Hs HM Hh Hc k) as [_ Hbound].
    destruct (pageStep_without_bands g Hs HM Hh Hc (Z.of_nat k) _ Hbound)
      as (HsrcY & _ & _ & Hnext).
    split; assumption. }
  split; [|split; [|split]].
  - eexists. split; [apply Hnth; lia|]. apply (Hstep 0%nat).
  - intros k s s' Hk Hk'.
    destruct (paginate_nth _ _ _ _ Hk) as [_ ->].
    destruct (paginate_nth _ _ _ _ Hk') as [_ ->].
    rewrite (proj1 (Hstep (S k))). reflexivity.
  - eexists. split; [apply Hnth; lia|].
    rewrite (proj2 (Hstep _)), Hlen.
    replace (Z.of_nat (Z.to_nat (pagesNeeded g) - 1)) with (pagesNeeded g - 1) by lia.
    rewrite (nominalEndY_last g Hs HM HI). reflexivity.
  - apply Forall_forall. intros s Hin.
    apply In_nth_error in Hin. destruct Hin as [k Hk].
    destruct (paginate_nth _ _ _ _ Hk) as [_ ->].
    destruct (pageStep_without_bands_srcH g Hs HM Hh Hc k) as [HsrcH Hgap].
    split; [exact Hgap|]. rewrite HsrcH. lia.
Qed.

Lemma unreadable_pixels_tile_raster_witness :
  map (fun s => (srcY s, srcH s, nextCutY s))
      (appendCanvasToPagedPdf plainContext taintedCanvas "a4")
  = [(0, 554, 554); (554, 554, 1108); (1108, 554, 1662); (1662, 338, 2000)]
  /\ (exists first,
        nth_error (appendCanvasToPagedPdf plainContext taintedCanvas "a4") 0
        = Some first /\ srcY first = 0)
  /\ (forall k s s',
        nth_error (appendCanvasToPagedPdf plainContext taintedCanvas "a4") k = Some s ->
        nth_error (appendCanvasToPagedPdf plainContext taintedCanvas "a4") (S k)
        = Some s' ->
        srcY s' = nextCutY s)
  /\ (exists last,
        nth_error (appendCanvasToPagedPdf plainContext taintedCanvas "a4")
                  (length (appendCanvasToPagedPdf plainContext taintedCanvas "a4") - 1)
        = Some last
        /\ nextCutY last = canvasHeight taintedCanvas)
  /\ Forall (fun s =>
               nextCutY s - srcY s - 1 <= srcH s <= Z.max 1 (nextCutY s - srcY s))
            (appendCanvasToPagedPdf plainContext taintedCanvas "a4").
Proof.
  split; [vm_compute; reflexivity|].
  apply (unreadable_pixels_tile_raster plainContext taintedCanvas "a4").
  - reflexivity.
  - vm_compute. discriminate.
  - vm_compute. discriminate.
  - simpl. lia.
Defined.

End TiledExport.

(* ================================================================== *)
(** * Paged PDF: one slice per page *)
(* ================================================================== *)

Section PdfPages.

Import Viewer PdfExport.

(** Once a page holds an image, every further image goes on a page of
    its own. *)
Lemma addSlices_pages_after (images : list PlacedImage) : forall pdf,
  pagesOf (fst (addSlices pdf false images))
  = pagesOf pdf ++ map (fun image => [image]) images
  /\ snd (addSlices pdf false images) = false.
Proof.
  induction images as [|image rest IH]; intros pdf; cbn [addSlices map].
  - rewrite app_nil_r. split; reflexivity.
  - destruct (IH (addImage (addPage pdf) image)) as [Hpages Hflag].
    rewrite Hpages, Hflag. split; [|reflexivity].
    unfold pagesOf, addImage, addPage. cbn [finished current app].
    rewrite <- !app_assoc. reflexivity.
Qed.

(** The first image goes on the page the new document starts with. *)
Lemma addSlices_pages_first (images : list PlacedImage) :
  images <> [] ->
  pagesOf (fst (addSlices newPdf true images)) = map (fun image => [image]) images
  /\ snd (addSlices newPdf true images) = false.
Proof.
  destruct images as [|image rest]; [congruence|]. intros _.
  cbn [addSlices map].
  destruct (addSlices_pages_after rest (addImage newPdf image)) as [Hpages Hflag].
  rewrite Hpages, Hflag. split; reflexivity.
Qed.

Variable ctx : ExportContext.
Variable pageSize : string.

Let step (state : Pdf * bool) (canvas : SourceCanvas) : Pdf * bool :=
  appendCanvasToPagedPdfInto ctx (fst state) canvas pageSize (snd state).

Let imagesOf (canvases : list SourceCanvas) : list PlacedImage :=
  flat_map (fun canvas => pageImagesOf ctx canvas pageSize) canvases.

Lemma fold_pages_after (canvases : list SourceCanvas) : forall pdf,
  pagesOf (fst (fold_left step canvases (pdf, false)))
  = pagesOf pdf ++ map (fun image => [image]) (imagesOf canvases).
Proof.
  induction canvases as [|canvas rest IH]; intros pdf; cbn [fold_left].
  - cbn. rewrite app_nil_r. reflexivity.
  - unfold step at 2. cbn [fst snd]. unfold appendCanvasToPagedPdfInto.
    destruct (addSlices_pages_after (pageImagesOf ctx canvas pageSize) pdf)
      as [Hpages Hflag].
    destruct (addSlices pdf false (pageImagesOf ctx canvas pageSize)) as [pdf' flag].
    cbn [fst snd] in Hpages, Hflag. subst flag.
    rewrite IH, Hpages. unfold imagesOf. cbn [flat_map].
    rewrite map_app, app_assoc. reflexivity.
Qed.

Lemma fold_pages_first (canvases : list SourceCanvas) :
  pagesOf (fst (fold_left step canvases (newPdf, true)))
  = match imagesOf canvases with
    | [] => [[]]
    | images => map (fun image => [image]) images
    end.
Proof.
  induction canvases as [|canvas rest IH]; cbn [fold_left].
  - reflexivity.
  - unfold step at 2. cbn [fst snd]. unfold appendCanvasToPagedPdfInto.
    unfold imagesOf. cbn [flat_map].
    destruct (pageImagesOf ctx canvas pageSize) as [|image images] eqn:E.
    + cbn [addSlices app]. exact IH.
    + destruct (addSlices_pages_first (image :: images) ltac:(discriminate))
        as [Hpages Hflag].
      destruct (addSlices newPdf true (image :: images)) as [pdf' flag].
      cbn [fst snd] in Hpages, Hflag. subst flag.
      rewrite fold_pages_after, Hpages. cbn [app map].
      rewrite map_app. reflexivity.
Qed.

End PdfPages.

Section PdfPageCount.

Import Viewer PdfExport.

(** X14.  The paged PDF of a capture in several parts has one page per
    slice, in order, each holding exactly that slice: the parts follow one
    another without a blank page between them and no page receives two
    slices.  Only when no part yields a slice does the document keep the
    single empty page it starts with. *)
Theorem savePagedMultipartPdf_one_slice_per_page :
  forall ctx canvases pageSize,
    pagesOf (savePagedMultipartPdf ctx canvases pageSize)
    = match flat_map (fun canvas => pageImagesOf ctx canvas pageSize) canvases with
      | [] => [[]]
      | images => map (fun image => [image]) images
      end.
Proof.
  intros ctx canvases pageSize. unfold savePagedMultipartPdf.
  apply fold_pages_first.
Qed.

Lemma pageImagesOf_length ctx canvas pageSize :
  1 <= canvasWidth canvas -> 0 <= canvasHeight canvas ->
  (length (footerLines ctx) <= 2)%nat ->
  Z.of_nat (length (pageImagesOf ctx canvas pageSize))
  = pagesNeeded (pageGeometry ctx canvas pageSize).
Proof.
  intros HW HH Hfooter. unfold pageImagesOf. rewrite length_map.
  apply appendCanvasToPagedPdf_length; assumption.
Qed.

Lemma flat_map_length_sum (A B : Type) (f : A -> list B) (count : A -> Z) (l : list A) :
  Forall (fun a => Z.of_nat (length (f a)) = count a) l ->
  Z.of_nat (length (flat_map f l)) = fold_right Z.add 0 (map count l).
Proof.
  induction 1 as [|a l Ha Hl IH]; cbn [flat_map map fold_right]; [reflexivity|].
  rewrite length_app, Nat2Z.inj_add, Ha, IH. reflexivity.
Qed.

(** X15.  For parts with at least one column and one row (and a footer of
    at most two lines), the paged PDF has as many pages as the parts need
    together, the sum of their [pagesNeeded], and every page holds one
    image. *)
Theorem savePagedMultipartPdf_page_count :
  forall ctx canvases pageSize,
    canvases <> [] ->
    Forall (fun canvas => 1 <= canvasWidth canvas /\ 1 <= canvasHeight canvas)
           canvases ->
    (length (footerLines ctx) <= 2)%nat ->
    Z.of_nat (length (pagesOf (savePagedMultipartPdf ctx canvases pageSize)))
    = fold_right Z.add 0
        (map (fun canvas => pagesNeeded (pageGeometry ctx canvas pageSize)) canvases)
    /\ Forall (fun page => length page = 1%nat)
              (pagesOf (savePagedMultipartPdf ctx canvases pageSize)).
Proof.
  intros ctx canvases pageSize Hne Hcanvases Hfooter.
  unfold savePagedMultipartPdf. rewrite fold_pages_first.
  assert (Hcount : Z.of_nat (length (flat_map (fun canvas =>
                                pageImagesOf ctx canvas pageSize) canvases))
                   = fold_right Z.add 0
                       (map (fun canvas =>
                               pagesNeeded (pageGeometry ctx canvas pageSize))
                            canvases)).
  { apply flat_map_length_sum. eapply Forall_impl; [|exact Hcanvases].
    cbn beta. intros canvas [HW HH]. apply pageImagesOf_length; auto. lia. }
  assert (Hsome : 1 <= fold_right Z.add 0
                         (map (fun canvas =>
                                 pagesNeeded (pageGeometry ctx canvas pageSize))
                              canvases)).
  { destruct canvases as [|canvas rest]; [congruence|].
    apply Forall_cons_iff in Hcanvases. destruct Hcanvases as [[HW HH] Hrest].
    cbn [map fold_right].
    assert (Hfirst : 1 <= pagesNeeded (pageGeometry ctx canvas pageSize)).
    { destruct (pageGeometry_lengths ctx canvas pageSize Hfooter)
        as (cw & px & _ & _ & HIH & _).
      apply pagesNeeded_positive.
      - apply pageGeometry_scale_positive; auto.
      - apply pageGeometry_imgHeightMm_positive; auto.
      - lra.
      - cbn. lia. }
    assert (Hothers : 0 <= fold_right Z.add 0
                             (map (fun canvas =>
                                     pagesNeeded (pageGeometry ctx canvas pageSize))
                                  rest)).
    { clear - Hrest Hfooter. induction Hrest as [|c l [HW HH] Hl IH];
        cbn [map fold_right]; [lia|].
      pose proof (pagesNeeded_nonneg ctx c pageSize HW Hfooter ltac:(lia)). lia. }
    lia. }
  destruct (flat_map _ canvases) as [|image images] eqn:E.
  - cbn [length Z.of_nat] in Hcount. lia.
  - rewrite length_map. split; [exact Hcount|].
    apply Forall_forall. intros page Hpage.
    apply in_map_iff in Hpage. destruct Hpage as (i & <- & _). reflexivity.
Qed.

Lemma savePagedMultipartPdf_page_count_witness :
  Z.of_nat (length (pagesOf (savePagedMultipartPdf plainContext
                               [taintedCanvas; shortTaintedCanvas] "a4"))) = 6
  /\ Z.of_nat (length (pagesOf (savePagedMultipartPdf plainContext
                                  [taintedCanvas; shortTaintedCanvas] "a4")))
     = fold_right Z.add 0
         (map (fun canvas => pagesNeeded (pageGeometry plainContext canvas "a4"))
              [taintedCanvas; shortTaintedCanvas])
  /\ Forall (fun page => length page = 1%nat)
            (pagesOf (savePagedMultipartPdf plainContext
                        [taintedCanvas; shortTaintedCanvas] "a4")).
Proof.
  split; [vm_compute; reflexivity|].
  apply (savePagedMultipartPdf_page_count plainContext
           [taintedCanvas; shortTaintedCanvas] "a4").
  - discriminate.
  - repeat constructor; vm_compute; discriminate.
  - simpl. lia.
Defined.

End PdfPageCount.

(* ================================================================== *)
(** * Paged PDF: the height of a slice on its page *)
(* ================================================================== *)

Section PlacedHeight.

Import Viewer PdfExport.

Lemma pageStep_srcH_upper g allBands page prevCutY :
  srcH (pageStep g allBands page prevCutY) <= Z.max 1 (Js.round (contentHPx g)).
Proof.
  unfold pageStep.
  destruct (selectCut g allBands page prevCutY) as [[refinedEndY useOverlap] best].
  destruct (Js.ltb _ _); cbn [srcH]; lia.
Qed.

Lemma pageLoop_srcH_upper n g allBands : forall page prevCutY,
  Forall (fun s => srcH s <= Z.max 1 (Js.round (contentHPx g)))
         (pageLoop n g allBands page prevCutY).
Proof.
  induction n as [|n IH]; intros page prevCutY; cbn [pageLoop]; constructor.
  - apply pageStep_srcH_upper.
  - apply IH.
Qed.

(** X16.  Every slice is placed at the top-left margin and drawn
    [srcH * (imageContentH / contentHPx)] millimetres tall, one page row per
    source row.  That is more than nothing and at most half a source row
    more than the image area of the page: the slice is not squeezed, and it
    can overrun the area reserved for it only by the rounding of
    [contentHPx]. *)
Theorem placed_slice_height :
  forall ctx canvas pageSize,
    1 <= canvasWidth canvas -> 1 <= canvasHeight canvas ->
    (length (footerLines ctx) <= 2)%nat ->
    let g := pageGeometry ctx canvas pageSize in
    Forall (fun image =>
              x image = margin /\ y image = margin
              /\ (h image
                  == inject_Z (srcH (placedSlice image))
                     * (imageContentH g / contentHPx g))%Q
              /\ (0 < h image)%Q
              /\ (h image
                  <= imageContentH g + imageContentH g / contentHPx g / 2)%Q)
           (pageImagesOf ctx canvas pageSize).
Proof.
  intros ctx canvas pageSize HW HH Hfooter g.
  assert (Hs : (0 < scale g)%Q) by (apply pageGeometry_scale_positive; auto).
  assert (HM : (0 < imgHeightMm g)%Q) by (apply pageGeometry_imgHeightMm_positive; auto).
  assert (Hc : (20 # 19 <= contentHPx g)%Q) by (apply pageGeometry_contentHPx; auto).
  assert (HI : (0 < imageContentH g)%Q).
  { destruct (pageGeometry_lengths ctx canvas pageSize Hfooter)
      as (cw & px & _ & _ & HIH & _).
    fold g in HIH. lra. }
  assert (HHq : (0 < inject_Z (canvasHeight canvas))%Q).
  { change 0%Q with (inject_Z 0). rewrite <- Zlt_Qlt. lia. }
  assert (Hrow : (0 < imageContentH g / contentHPx g)%Q).
  { apply Qlt_shift_div_l; lra. }
  assert (Egeom : canvas_height g = canvasHeight canvas) by reflexivity.
  apply Forall_forall. intros image Himage.
  unfold pageImagesOf in Himage. apply in_map_iff in Himage.
  destruct Himage as (s & <- & Hslice).
  unfold placeSlice. cbn [x y h placedSlice]. fold g.
  split; [reflexivity|]. split; [reflexivity|].
  assert (Eh : (inject_Z (srcH s) / inject_Z (canvasHeight canvas)
                * imgHeightMm g * scale g
                == inject_Z (srcH s) * (imageContentH g / contentHPx g))%Q).
  { unfold contentHPx. rewrite Egeom. field. repeat split; lra. }
  split; [exact Eh|].
  assert (Hbounds : 1 <= srcH s <= Z.max 1 (Js.round (contentHPx g))).
  { unfold appendCanvasToPagedPdf, paginate in Hslice. fold g in Hslice.
    pose proof (pageLoop_srcH_positive (Z.to_nat (pagesNeeded g)) g (readBands canvas)
                  0 0) as Hlo.
    pose proof (pageLoop_srcH_upper (Z.to_nat (pagesNeeded g)) g (readBands canvas)
                  0 0) as Hhi.
    rewrite Forall_forall in Hlo, Hhi. split; [apply Hlo | apply Hhi]; exact Hslice. }
  assert (Hround : 1 <= Js.round (contentHPx g)).
  { change 1 with (Js.round (1 # 2)). apply round_mono. lra. }
  destruct (round_bounds (contentHPx g)) as [_ Hup].
  assert (Hq : (1 <= inject_Z (srcH s) <= contentHPx g + (1 # 2))%Q).
  { split.
    - change 1%Q with (inject_Z 1). apply inject_Z_le. lia.
    - apply Qle_trans with (inject_Z (Js.round (contentHPx g))); [|exact Hup].
      apply inject_Z_le. lia. }
  rewrite Eh. split.
  - apply Qmult_lt_0_compat; lra.
  - apply Qle_trans
      with ((contentHPx g + (1 # 2)) * (imageContentH g / contentHPx g))%Q.
    + apply Qmult_le_compat_r; lra.
    + apply Qle_lteq. right. field. lra.
Qed.

Lemma placed_slice_height_witness :
  map (fun image => srcH (placedSlice image))
      (pageImagesOf plainContext taintedCanvas "a4") = [554; 554; 554; 338]
  /\ Forall (fun image =>
               x image = margin /\ y image = margin
               /\ (h image
                   == inject_Z (srcH (placedSlice image))
                      * (imageContentH (pageGeometry plainContext taintedCanvas "a4")
                         / contentHPx (pageGeometry plainContext taintedCanvas "a4")))%Q
               /\ (0 < h image)%Q
               /\ (h image
                   <= imageContentH (pageGeometry plainContext taintedCanvas "a4")
                      + imageContentH (pageGeometry plainContext taintedCanvas "a4")
                        / contentHPx (pageGeometry plainContext taintedCanvas "a4")
                        / 2)%Q)
            (pageImagesOf plainContext taintedCanvas "a4").
Proof.
  split; [vm_compute; reflexivity|].
  apply (placed_slice_height plainContext taintedCanvas "a4").
  - vm_compute. discriminate.
  - vm_compute. discriminate.
  - simpl. lia.
Defined.

End PlacedHeight.

(* ================================================================== *)
(** * Capture store: deleting a capture *)
(* ================================================================== *)

Section StoreLaws.

Import CaptureStore.

Lemma find_filter_none (A : Type) (f g : A -> bool) (l : list A) :
  (forall x, f x = true -> g x = false) -> find f (filter g l) = None.
Proof.
  intros Hfg. induction l as [|a l IH]; cbn [filter find]; [reflexivity|].
  destruct (g a) eqn:Eg; [|exact IH].
  cbn [find]. destruct (f a) eqn:Ef; [|exact IH].
  rewrite (Hfg a Ef) in Eg. discriminate.
Qed.

Lemma find_filter_keep (A : Type) (f g : A -> bool) (l : list A) :
  (forall x, f x = true -> g x = true) -> find f (filter g l) = find f l.
Proof.
  intros Hfg. induction l as [|a l IH]; cbn [filter find]; [reflexivity|].
  destruct (f a) eqn:Ef.
  - rewrite (Hfg a Ef). cbn [find]. rewrite Ef. reflexivity.
  - destruct (g a); [cbn [find]; rewrite Ef|]; exact IH.
Qed.

Lemma filter_filter_none (A : Type) (f g : A -> bool) (l : list A) :
  (forall x, f x = true -> g x = false) -> filter f (filter g l) = [].
Proof.
  intros Hfg. induction l as [|a l IH]; cbn [filter]; [reflexivity|].
  destruct (g a) eqn:Eg; [|exact IH].
  cbn [filter]. destruct (f a) eqn:Ef; [|exact IH].
  rewrite (Hfg a Ef) in Eg. discriminate.
Qed.

Lemma filter_filter_keep (A : Type) (f g : A -> bool) (l : list A) :
  (forall x, f x = true -> g x = true) -> filter f (filter g l) = filter f l.
Proof.
  intros Hfg. induction l as [|a l IH]; cbn [filter]; [reflexivity|].
  destruct (f a) eqn:Ef.
  - rewrite (Hfg a Ef). cbn [filter]. rewrite Ef, IH. reflexivity.
  - destruct (g a); [cbn [filter]; rewrite Ef|]; exact IH.
Qed.

Lemma other_capture (id id' x : string) :
  id' <> id -> String.eqb x id' = true -> negb (String.eqb x id) = true.
Proof.
  intros Hne Hx. apply String.eqb_eq in Hx. subst x.
  apply negb_true_iff. apply String.eqb_neq. exact Hne.
Qed.

Lemma hasKey_ofCapture id index row : hasKey id index row = true -> ofCapture id row = true.
Proof. unfold hasKey. intros H. apply andb_true_iff in H. apply H. Qed.

(** Stores that agree elsewhere answer alike for every other capture. *)
Lemma agreeElsewhere_reads id a b id' :
  agreeElsewhere id a b -> id' <> id ->
  getCaptureMeta a id' = getCaptureMeta b id'
  /\ (forall index, getCaptureSegment a id' index = getCaptureSegment b id' index)
  /\ listCaptureSegments a id' = listCaptureSegments b id'.
Proof.
  intros [Hc Hs] Hne. unfold getCaptureMeta, getCaptureSegment, listCaptureSegments.
  split; [|split].
  - rewrite <- (find_filter_keep _ (hasCaptureId id')
                  (fun m => negb (hasCaptureId id m)) (captures a)),
            <- (find_filter_keep _ (hasCaptureId id')
                  (fun m => negb (hasCaptureId id m)) (captures b)), Hc;
      [reflexivity | |]; intros x Hx; apply (other_capture id id'); assumption.
  - intros index.
    rewrite <- (find_filter_keep _ (hasKey id' index)
                  (fun row => negb (ofCapture id row)) (segments a)),
            <- (find_filter_keep _ (hasKey id' index)
                  (fun row => negb (ofCapture id row)) (segments b)), Hs;
      [reflexivity | |]; intros x Hx; apply hasKey_ofCapture in Hx;
      apply (other_capture id id'); assumption.
  - rewrite <- (filter_filter_keep _ (ofCapture id')
                  (fun row => negb (ofCapture id row)) (segments a)),
            <- (filter_filter_keep _ (ofCapture id')
                  (fun row => negb (ofCapture id row)) (segments b)), Hs;
      [reflexivity | |]; intros x Hx; apply (other_capture id id'); assumption.
Qed.



Lemma filter_idem (A : Type) (g : A -> bool) (l : list A) :
  filter g (filter g l) = filter g l.
Proof. apply filter_filter_keep. auto. Qed.

Lemma deleteCapture_elsewhere id store :
  agreeElsewhere id store (deleteCapture store id).
Proof.
  split; cbn [deleteCapture captures segments]; symmetry; apply filter_idem.
Qed.

Lemma deleteCapture_absent id store : absent id (deleteCapture store id).
Proof.
  unfold absent, getCaptureMeta, getCaptureSegment, listCaptureSegments.
  cbn [deleteCapture captures segments]. split; [|split].
  - apply find_filter_none. intros m Hm. rewrite Hm. reflexivity.
  - rewrite filter_filter_none; [reflexivity|].
    intros row Hrow. rewrite Hrow. reflexivity.
  - intros index. apply find_filter_none. intros row Hrow.
    rewrite (hasKey_ofCapture _ _ _ Hrow). reflexivity.
Qed.



Lemma orNull_truthy captureId id :
  orNull captureId = Some id -> truthy id = true /\ captureId = Some id.
Proof.
  unfold orNull. destruct captureId as [s|]; [|discriminate].
  destruct (truthy s) eqn:E; [|discriminate].
  intros [= <-]. split; [exact E | reflexivity].
Qed.

Lemma orNull_Some id : truthy id = true -> orNull (Some id) = Some id.
Proof. intros H. unfold orNull. rewrite H. reflexivity. Qed.

End StoreLaws.

Section StoreDelete.

Import CaptureStore.

(** X17.  [CaptureStore.deleteCapture] removes the metadata and every
    segment of the capture and nothing else: every other capture reads as
    before.  The pending id is cleared when it is this capture and kept
    otherwise. *)
Theorem deleteCapture_removes_one_capture :
  forall store id,
    getCaptureMeta (deleteCapture store id) id = None
    /\ listCaptureSegments (deleteCapture store id) id = []
    /\ (forall index, getCaptureSegment (deleteCapture store id) id index = None)
    /\ (forall id',
          id' <> id ->
          getCaptureMeta (deleteCapture store id) id' = getCaptureMeta store id'
          /\ (forall index,
                getCaptureSegment (deleteCapture store id) id' index
                = getCaptureSegment store id' index)
          /\ listCaptureSegments (deleteCapture store id) id'
             = listCaptureSegments store id')
    /\ getPendingCaptureId (deleteCapture store id)
       = match getPendingCaptureId store with
         | Some pending => if String.eqb pending id then None else Some pending
         | None => None
         end.
Proof.
  intros store id.
  destruct (deleteCapture_absent id store) as (Hmeta & Hlist & Hsegment).
  split; [exact Hmeta|]. split; [exact Hlist|]. split; [exact Hsegment|].
  split.
  - intros id' Hne.
    destruct (agreeElsewhere_reads id store (deleteCapture store id) id'
                (deleteCapture_elsewhere id store) Hne) as (H1 & H2 & H3).
    split; [symmetry; exact H1|]. split; [|symmetry; exact H3].
    intros index. symmetry. apply H2.
  - unfold getPendingCaptureId, deleteCapture. cbn [pendingRow].
    destruct (pendingRow store) as [[value|]|]; cbn [orNull]; try reflexivity.
    destruct (String.eqb value id) eqn:E.
    + cbn [orNull]. destruct (truthy value); [rewrite E|]; reflexivity.
    + cbn [orNull]. destruct (truthy value); [rewrite E|]; reflexivity.
Qed.

End StoreDelete.

(* ================================================================== *)
(** * Service worker: the pending capture *)
(* ================================================================== *)

Section PendingCapture.

Import CaptureStore Worker.

Lemma readPendingCaptureId_store w :
  captures (store (fst (readPendingCaptureId w))) = captures (store w)
  /\ segments (store (fst (readPendingCaptureId w))) = segments (store w).
Proof.
  unfold readPendingCaptureId.
  destruct (orNull (pendingCaptureId w)); cbn [fst]; [split; reflexivity|].
  destruct (getPendingCaptureId (store w)); cbn [fst store]; [split; reflexivity|].
  destruct (session w) as [value|]; cbn [fst store]; [|split; reflexivity].
  destruct (orNull value); split; reflexivity.
Qed.

(** Once read, the pending id is in memory. *)
Lemma readPendingCaptureId_some w w' pending :
  readPendingCaptureId w = (w', Some pending) ->
  readPendingCaptureId w' = (w', Some pending).
Proof.
  unfold readPendingCaptureId at 1.
  destruct (orNull (pendingCaptureId w)) as [p|] eqn:Ememory.
  - intros [= <- <-]. unfold readPendingCaptureId. rewrite Ememory. reflexivity.
  - destruct (getPendingCaptureId (store w)) as [persisted|] eqn:Estore.
    + intros [= <- <-]. unfold readPendingCaptureId. cbn [pendingCaptureId].
      unfold getPendingCaptureId in Estore.
      destruct (pendingRow (store w)) as [value|]; [|discriminate].
      destruct (orNull_truthy _ _ Estore) as [Ht _].
      rewrite (orNull_Some _ Ht). reflexivity.
    + destruct (session w) as [value|]; [|intros [= _ ?]; discriminate].
      destruct (orNull value) as [p|] eqn:Esession; [|intros [= _ ?]; discriminate].
      intros [= <- <-]. unfold readPendingCaptureId. cbn [pendingCaptureId].
      destruct (orNull_truthy _ _ Esession) as [Ht _].
      rewrite (orNull_Some _ Ht). reflexivity.
Qed.

Lemma readPendingCaptureId_none w w' :
  readPendingCaptureId w = (w', None) ->
  snd (readPendingCaptureId w') = None.
Proof.
  unfold readPendingCaptureId at 1.
  destruct (orNull (pendingCaptureId w)) as [p|] eqn:Ememory; [discriminate|].
  destruct (getPendingCaptureId (store w)) as [persisted|] eqn:Estore; [discriminate|].
  destruct (session w) as [value|] eqn:Esession.
  - destruct (orNull value) as [p|] eqn:Evalue; [discriminate|].
    intros [= <-]. unfold readPendingCaptureId.
    cbn [pendingCaptureId store session orNull]. rewrite Estore, Evalue. reflexivity.
  - intros [= <-]. unfold readPendingCaptureId.
    cbn [pendingCaptureId store session orNull]. rewrite Estore. reflexivity.
Qed.

Lemma setPendingCapture_null w :
  snd (readPendingCaptureId (setPendingCapture w None)) = None.
Proof.
  unfold setPendingCapture, readPendingCaptureId.
  cbn [orNull pendingCaptureId store session setPendingCaptureId
       getPendingCaptureId pendingRow].
  destruct (session w); reflexivity.
Qed.



(** X18.  After [setPendingCapture(id)] with a non-empty id, the pending
    capture reads back as [id]: from memory, and also after the worker has
    been restarted and its memory is gone, from the store. *)
Theorem setPendingCapture_read_back :
  forall w id,
    truthy id = true ->
    snd (readPendingCaptureId (setPendingCapture w (Some id))) = Some id
    /\ snd (readPendingCaptureId
              {| pendingCaptureId := None;
                 store := store (setPendingCapture w (Some id));
                 session := session (setPendingCapture w (Some id)) |}) = Some id
    /\ snd (getPendingCapture (setPendingCapture w (Some id))) = Reply id.
Proof.
  intros w id Hid.
  unfold getPendingCapture, readPendingCaptureId, setPendingCapture.
  cbn [pendingCaptureId store session setPendingCaptureId getPendingCaptureId
       pendingRow].
  unfold orNull. rewrite !Hid. cbn [snd pendingRow]. rewrite ?Hid.
  repeat split; reflexivity.
Qed.

Lemma setPendingCapture_read_back_witness :
  snd (readPendingCaptureId (setPendingCapture freshWorker (Some "cap_1"%string)))
  = Some "cap_1"%string
  /\ snd (readPendingCaptureId
            {| pendingCaptureId := None;
               store := store (setPendingCapture freshWorker (Some "cap_1"%string));
               session := session (setPendingCapture freshWorker (Some "cap_1"%string)) |})
     = Some "cap_1"%string
  /\ snd (getPendingCapture (setPendingCapture freshWorker (Some "cap_1"%string)))
     = Reply "cap_1"%string.
Proof.
  apply (setPendingCapture_read_back freshWorker "cap_1"). reflexivity.
Defined.

(** X19.  [deleteCapture(id)] of the service worker with a non-empty id
    replies [ok]; afterwards the store holds neither metadata nor segments
    of the capture, every other capture reads as before, and the capture is
    no longer pending: neither the memory of the worker, nor the store, nor
    the session storage brings it back. *)
Theorem worker_deleteCapture_forgets_capture :
  forall w id,
    truthy id = true ->
    let w' := fst (deleteCapture w (Some id)) in
    snd (deleteCapture w (Some id)) = Reply tt
    /\ absent id (store w')
    /\ (forall id',
          id' <> id ->
          CaptureStore.getCaptureMeta (store w') id'
          = CaptureStore.getCaptureMeta (store w) id'
          /\ (forall index,
                CaptureStore.getCaptureSegment (store w') id' index
                = CaptureStore.getCaptureSegment (store w) id' index))
    /\ snd (readPendingCaptureId w') <> Some id
    /\ snd (getCaptureMeta w' (Some id)) = ErrorReply "Capture metadata not found".
Proof.
  intros w id Hid. cbv zeta.
  unfold deleteCapture. rewrite (orNull_Some _ Hid).
  set (w1 := {| pendingCaptureId := pendingCaptureId w;
                store := CaptureStore.deleteCapture (store w) id;
                session := session w |}).
  destruct (readPendingCaptureId w1) as [w2 current] eqn:Eread.
  pose proof (readPendingCaptureId_store w1) as [Hc Hs].
  rewrite Eread in Hc, Hs. cbn [fst] in Hc, Hs.
  assert (Hfinal : exists w3,
            (match current with
             | Some pending =>
                 if String.eqb pending id then setPendingCapture w2 None else w2
             | None => w2
             end) = w3
            /\ captures (store w3) = captures (store w1)
            /\ segments (store w3) = segments (store w1)
            /\ snd (readPendingCaptureId w3) <> Some id).
  { destruct current as [pending|].
    - destruct (String.eqb pending id) eqn:E.
      + eexists. split; [reflexivity|].
        split; [exact Hc|]. split; [exact Hs|].
        rewrite setPendingCapture_null. discriminate.
      + eexists. split; [reflexivity|].
        split; [exact Hc|]. split; [exact Hs|].
        rewrite (readPendingCaptureId_some _ _ _ Eread). cbn [snd].
        intros [= ->]. rewrite String.eqb_refl in E. discriminate.
    - eexists. split; [reflexivity|].
      split; [exact Hc|]. split; [exact Hs|].
      rewrite (readPendingCaptureId_none _ _ Eread). discriminate. }
  destruct Hfinal as (w3 & -> & Hc3 & Hs3 & Hpending).
  cbn [fst snd].
  assert (Habsent : absent id (store w3)).
  { destruct (deleteCapture_absent id (store w)) as (Hm & Hl & Hg).
    unfold absent, CaptureStore.getCaptureMeta, CaptureStore.getCaptureSegment,
      listCaptureSegments in *.
    rewrite Hc3, Hs3. cbn [w1 store]. repeat split; assumption. }
  split; [reflexivity|]. split; [exact Habsent|]. split; [|split; [exact Hpending|]].
  - intros id' Hne.
    destruct (agreeElsewhere_reads id (store w) (CaptureStore.deleteCapture (store w) id)
                id' (deleteCapture_elsewhere id (store w)) Hne) as (H1 & H2 & _).
    unfold CaptureStore.getCaptureMeta, CaptureStore.getCaptureSegment in *.
    rewrite Hc3, Hs3. cbn [w1 store].
    split; [symmetry; exact H1|]. intros index. symmetry. apply H2.
  - unfold getCaptureMeta, resolveCaptureId. rewrite (orNull_Some _ Hid).
    destruct Habsent as [Hmeta _]. rewrite Hmeta. reflexivity.
Qed.

Lemma worker_deleteCapture_forgets_capture_witness :
  snd (deleteCapture (setPendingCapture freshWorker (Some "cap_1"%string))
                     (Some "cap_1"%string)) = Reply tt
  /\ absent "cap_1"
       (store (fst (deleteCapture (setPendingCapture freshWorker (Some "cap_1"%string))
                                  (Some "cap_1"%string))))
  /\ (forall id',
        id' <> "cap_1"%string ->
        CaptureStore.getCaptureMeta
          (store (fst (deleteCapture (setPendingCapture freshWorker (Some "cap_1"%string))
                                     (Some "cap_1"%string)))) id'
        = CaptureStore.getCaptureMeta
            (store (setPendingCapture freshWorker (Some "cap_1"%string))) id'
        /\ (forall index,
              CaptureStore.getCaptureSegment
                (store (fst (deleteCapture
                               (setPendingCapture freshWorker (Some "cap_1"%string))
                               (Some "cap_1"%string)))) id' index
              = CaptureStore.getCaptureSegment
                  (store (setPendingCapture freshWorker (Some "cap_1"%string)))
                  id' index))
  /\ snd (readPendingCaptureId
            (fst (deleteCapture (setPendingCapture freshWorker (Some "cap_1"%string))
                                (Some "cap_1"%string))))
     <> Some "cap_1"%string
  /\ snd (getCaptureMeta
            (fst (deleteCapture (setPendingCapture freshWorker (Some "cap_1"%string))
                                (Some "cap_1"%string)))
            (Some "cap_1"%string))
     = ErrorReply "Capture metadata not found".
Proof.
  apply (worker_deleteCapture_forgets_capture
           (setPendingCapture freshWorker (Some "cap_1"%string)) "cap_1").
  reflexivity.
Defined.

End PendingCapture.

(* ================================================================== *)
(** * captureFullPage: what reaches the store *)
(* ================================================================== *)

Section FullPageStore.

Import CaptureStore FullPageCapture ServiceWorker CaptureFlow.




Variable tab : Tab.
Variable metrics : Metrics.
Variable strategy : CaptureStrategy.
Variable positionsLength : nat.
Variable id : string.


Hypothesis id_truthy : truthy id = true.
Hypothesis scrolls : forall globalIndex, scrollTo tab globalIndex = Js.Return tt.
Hypothesis captures_return :
  forall globalIndex, exists image, captureWithRetry tab globalIndex = Js.Return image.

Variable good : Segment -> Offscreen.Canvas -> Prop.


End FullPageStore.

Section FullPageOutcome.

Import CaptureStore FullPageCapture ServiceWorker CaptureFlow.



End FullPageOutcome.

Section FullPageWitness.

Import CaptureStore FullPageCapture ServiceWorker CaptureFlow.


End FullPageWitness.

(* ================================================================== *)
(** * captureFullPage: a failed capture leaves nothing behind *)
(* ================================================================== *)

Section FullPageFailure.

Import CaptureStore FullPageCapture ServiceWorker CaptureFlow.





End FullPageFailure.

(* ================================================================== *)
(** * captureWithRetry: attempts, backoff and outcome *)
(* ================================================================== *)

Section RetryLaws.

Lemma delaysOf_app (a b : list Retry.Event) :
  delaysOf (a ++ b) = delaysOf a + delaysOf b.
Proof.
  induction a as [|[ms|] a IH]; cbn [app delaysOf]; lia.
Qed.

Lemma capturesOf_app (a b : list Retry.Event) :
  capturesOf (a ++ b) = (capturesOf a + capturesOf b)%nat.
Proof.
  induction a as [|[ms|] a IH]; cbn [app capturesOf]; lia.
Qed.

Lemma succ_le_pow2 (a : nat) : Z.of_nat a + 1 <= 2 ^ Z.of_nat a.
Proof.
  induction a as [|a IH]; [cbn; lia|].
  rewrite Nat2Z.inj_succ, Z.pow_succ_r by lia. lia.
Qed.

Lemma backoffOf_bounds (errMsg : string) (attempt : nat) :
  0 < Retry.backoffOf errMsg attempt <= 600 * 2 ^ Z.of_nat attempt.
Proof.
  unfold Retry.backoffOf.
  pose proof (succ_le_pow2 attempt).
  destruct (Retry.includes _ errMsg); lia.
Qed.

Variable attempts : nat -> Js.completion string.
Variable timeAt : nat -> Z.

Lemma firstSuccess_range (n : nat) : forall attempt k dataUrl,
  firstSuccess attempts n attempt = Some (k, dataUrl) ->
  (attempt <= k < attempt + n)%nat.
Proof.
  induction n as [|n IH]; intros attempt k dataUrl Hfirst;
    cbn [firstSuccess] in Hfirst; [discriminate|].
  destruct (attempts attempt).
  - inversion Hfirst; subst. lia.
  - apply IH in Hfirst. lia.
Qed.

Lemma retryLoop_outcome (remaining : nat) :
  forall attempt lastCaptureTime events r t ev,
    (1 <= remaining)%nat ->
    (attempt + remaining = Retry.maxRetries)%nat ->
    Retry.retryLoop attempts timeAt remaining attempt lastCaptureTime events
    = (r, t, ev) ->
    delaysOf events <= delaysOf ev
    /\ delaysOf ev + 600 * 2 ^ Z.of_nat attempt <= delaysOf events + 600 * 2 ^ 4
    /\ match firstSuccess attempts remaining attempt with
       | Some (k, dataUrl) =>
           r = Js.Return dataUrl /\ t = timeAt k
           /\ (attempt <= k)%nat
           /\ capturesOf ev = (capturesOf events + (k - attempt) + 1)%nat
       | None =>
           r = attempts 4%nat /\ t = timeAt 4%nat
           /\ capturesOf ev = (capturesOf events + remaining)%nat
       end.
Proof.
  induction remaining as [|remaining IH]; intros attempt last events r t ev Hpos Hsum Hrun;
    [lia|].
  cbn [Retry.retryLoop firstSuccess] in Hrun |- *.
  unfold Retry.maxRetries in Hsum.
  assert (Hpow : 2 ^ Z.of_nat attempt <= 2 ^ 4)
    by (apply Z.pow_le_mono_r; lia).
  destruct (attempts attempt) as [dataUrl|errMsg] eqn:Hattempt.
  - inversion Hrun; subst r t ev.
    rewrite delaysOf_app, capturesOf_app. cbn [delaysOf capturesOf].
    repeat split; lia.
  - destruct (attempt <? Retry.maxRetries - 1)%nat eqn:Hlast.
    + apply Nat.ltb_lt in Hlast. unfold Retry.maxRetries in Hlast.
      apply IH in Hrun; [|lia|unfold Retry.maxRetries; lia].
      destruct Hrun as (Hlow & Hhigh & Hout).
      rewrite !delaysOf_app in Hlow, Hhigh. cbn [delaysOf] in Hlow, Hhigh.
      pose proof (backoffOf_bounds errMsg attempt) as Hb.
      rewrite Nat2Z.inj_succ, Z.pow_succ_r in Hhigh by lia.
      split; [lia|]. split; [lia|].
      destruct (firstSuccess attempts remaining (S attempt)) as [[k dataUrl]|].
      * destruct Hout as (-> & -> & Hk & Hcount).
        rewrite !capturesOf_app in Hcount. cbn [capturesOf] in Hcount.
        repeat split; lia.
      * destruct Hout as (-> & -> & Hcount).
        rewrite !capturesOf_app in Hcount. cbn [capturesOf] in Hcount.
        repeat split; lia.
    + apply Nat.ltb_ge in Hlast. unfold Retry.maxRetries in Hlast.
      assert (attempt = 4%nat) by lia. subst attempt.
      assert (remaining = 0%nat) by lia. subst remaining.
      inversion Hrun; subst r t ev.
      rewrite delaysOf_app, capturesOf_app. cbn [delaysOf capturesOf firstSuccess].
      rewrite Hattempt. repeat split; lia.
Qed.

Lemma retryLoop_events (remaining : nat) :
  forall attempt lastCaptureTime events r t ev,
    (1 <= remaining)%nat ->
    (attempt + remaining = Retry.maxRetries)%nat ->
    Retry.retryLoop attempts timeAt remaining attempt lastCaptureTime events
    = (r, t, ev) ->
    exists k,
      (attempt <= k < Retry.maxRetries)%nat
      /\ ev = events ++ callsBetween attempts attempt k
      /\ capturesOf ev = (capturesOf events + (k - attempt) + 1)%nat.
Proof.
  induction remaining as [|remaining IH];
    intros attempt last events r t ev Hpos Hsum Hrun; [lia|].
  cbn [Retry.retryLoop] in Hrun. unfold Retry.maxRetries in Hsum.
  destruct (attempts attempt) as [dataUrl|errMsg] eqn:Hattempt.
  - inversion Hrun; subst r t ev. exists attempt.
    unfold callsBetween, Retry.maxRetries. rewrite Nat.sub_diag.
    cbn [seq flat_map app]. rewrite capturesOf_app. cbn [capturesOf].
    repeat split; lia.
  - destruct (attempt <? Retry.maxRetries - 1)%nat eqn:Hlast.
    + apply Nat.ltb_lt in Hlast. unfold Retry.maxRetries in Hlast.
      apply IH in Hrun; [|lia|unfold Retry.maxRetries; lia].
      destruct Hrun as (k & Hk & Hev & Hcount).
      exists k. split; [lia|]. split.
      * rewrite Hev. unfold callsBetween.
        replace (k - attempt)%nat with (S (k - S attempt)) by lia.
        cbn [seq flat_map]. unfold errorOf at 2. rewrite Hattempt.
        rewrite <- !app_assoc. reflexivity.
      * rewrite !capturesOf_app in Hcount. cbn [capturesOf] in Hcount. lia.
    + apply Nat.ltb_ge in Hlast. unfold Retry.maxRetries in Hlast.
      inversion Hrun; subst r t ev. exists attempt.
      unfold callsBetween, Retry.maxRetries. rewrite Nat.sub_diag.
      cbn [seq flat_map app]. rewrite capturesOf_app. cbn [capturesOf].
      repeat split; lia.
Qed.

End RetryLaws.

(** X22.  [captureWithRetry] first waits for the rest of the throttle gap,
    exactly when the last capture is less than 550 ms ago, and then calls
    [captureVisibleTab]: at least once and at most five times, each failed
    call but the fifth followed by one wait, of [600 * 2^attempt] ms after
    a rate-limit error and of [200 * (attempt + 1)] ms after another, and
    these waits add up to at most 9000 ms.  It returns the data URL of the
    first call that succeeds, with [lastCaptureTime] the time of that call.
    It throws only when all five calls fail, and then the error of the
    fifth call, never its own 'Capture failed after retries'. *)
Theorem captureWithRetry_outcome :
  forall now lastCaptureTime attempts timeAt r t ev,
    Retry.captureWithRetry now lastCaptureTime attempts timeAt = (r, t, ev) ->
    exists k,
      (k < Retry.maxRetries)%nat
      /\ ev = throttleWait now lastCaptureTime ++ callsUpTo attempts k
      /\ (now - lastCaptureTime < Retry.captureThrottleMs ->
          exists rest,
            ev = Retry.Delay (Retry.captureThrottleMs - (now - lastCaptureTime))
                 :: Retry.CaptureVisibleTab :: rest)
      /\ (Retry.captureThrottleMs <= now - lastCaptureTime ->
          exists rest, ev = Retry.CaptureVisibleTab :: rest)
      /\ delaysOf (callsUpTo attempts k) <= 9000
      /\ delaysOf ev
         <= Z.max 0 (Retry.captureThrottleMs - (now - lastCaptureTime)) + 9000
      /\ capturesOf ev = S k
      /\ t = timeAt k
      /\ match firstSuccess attempts Retry.maxRetries 0 with
         | Some (first, dataUrl) => k = first /\ r = Js.Return dataUrl
         | None => k = 4%nat /\ r = attempts 4%nat
         end.
Proof.
  intros now last attempts timeAt r t ev Hrun.
  unfold Retry.captureWithRetry in Hrun.
  change (Js.orZ Retry.captureThrottleMs 550) with Retry.captureThrottleMs in Hrun.
  fold (throttleWait now last) in Hrun.
  assert (Hpos : (1 <= Retry.maxRetries)%nat) by (unfold Retry.maxRetries; lia).
  pose proof (retryLoop_outcome attempts timeAt Retry.maxRetries 0%nat last
                (throttleWait now last) r t ev Hpos eq_refl Hrun)
    as (Hlow & Hhigh & Hout).
  destruct (retryLoop_events attempts timeAt Retry.maxRetries 0%nat last
              (throttleWait now last) r t ev Hpos eq_refl Hrun)
    as (k & Hk & Hev & Hcount).
  fold (callsUpTo attempts k) in Hev.
  assert (Hwait : capturesOf (throttleWait now last) = 0%nat
                  /\ delaysOf (throttleWait now last)
                     = Z.max 0 (Retry.captureThrottleMs - (now - last))).
  { unfold throttleWait.
    destruct (now - last <? Retry.captureThrottleMs) eqn:Hgap;
      [apply Z.ltb_lt in Hgap|apply Z.ltb_ge in Hgap];
      cbn [capturesOf delaysOf]; split; lia. }
  destruct Hwait as (Hc & Hd).
  change (2 ^ Z.of_nat 0) with 1 in Hhigh. change (2 ^ 4) with 16 in Hhigh.
  assert (Hcalls : delaysOf (callsUpTo attempts k) <= 9000).
  { rewrite Hev, delaysOf_app in Hhigh. lia. }
  exists k. split; [lia|]. split; [exact Hev|]. split; [|split].
  - intros Hgap. rewrite Hev. unfold throttleWait.
    replace (now - last <? Retry.captureThrottleMs) with true
      by (symmetry; apply Z.ltb_lt; exact Hgap).
    unfold callsUpTo, callsBetween.
    destruct (seq 0 (k - 0)); cbn [flat_map app]; eexists; reflexivity.
  - intros Hgap. rewrite Hev. unfold throttleWait.
    replace (now - last <? Retry.captureThrottleMs) with false
      by (symmetry; apply Z.ltb_ge; exact Hgap).
    unfold callsUpTo, callsBetween.
    destruct (seq 0 (k - 0)); cbn [flat_map app]; eexists; reflexivity.
  - split; [exact Hcalls|]. split; [lia|]. split; [lia|].
    destruct (firstSuccess attempts Retry.maxRetries 0) as [[first dataUrl]|]
      eqn:Hfirst.
    + destruct Hout as (-> & -> & Hfirstk & Hcount').
      assert (k = first) by lia. subst k. repeat split.
    + destruct Hout as (-> & -> & Hcount').
      unfold Retry.maxRetries in *.
      assert (k = 4%nat) by lia. subst k. repeat split.
Qed.

Lemma captureWithRetry_outcome_witness :
  exists k,
    (k < Retry.maxRetries)%nat
    /\ [Retry.Delay 450; Retry.CaptureVisibleTab; Retry.Delay 600;
        Retry.CaptureVisibleTab; Retry.Delay 400; Retry.CaptureVisibleTab]
       = throttleWait 1000 900 ++ callsUpTo thirdTimeLucky k.
Proof.
  destruct (captureWithRetry_outcome
              1000 900 thirdTimeLucky
              (fun attempt => 1450 + 700 * Z.of_nat attempt)
              (Js.Return "data:image/png;base64,AAAA"%string) 2850
              [Retry.Delay 450; Retry.CaptureVisibleTab; Retry.Delay 600;
               Retry.CaptureVisibleTab; Retry.Delay 400;
               Retry.CaptureVisibleTab]) as (k & Hk & Hev & _).
  - vm_compute. reflexivity.
  - exists k. split; [exact Hk|exact Hev].
Defined.

(* ================================================================== *)
(** * blobToDataUrl: the chunks of the binary string *)
(* ================================================================== *)

Section ChunkLaws.

Lemma firstn_add (A : Type) (i c : nat) : forall l : list A,
  firstn (i + c) l = firstn i l ++ firstn c (skipn i l).
Proof.
  induction i as [|i IH]; intros [|a l]; cbn [Nat.add firstn skipn app];
    try reflexivity.
  - destruct c; reflexivity.
  - rewrite IH. reflexivity.
Qed.

Lemma binaryLoop_run (bytes : list Z) (chunk : nat) (Hchunk : (0 < chunk)%nat)
      (fuel : nat) :
  forall i,
    (length bytes <= i + fuel * chunk)%nat ->
    Retry.binaryLoop fuel bytes chunk i (firstn i bytes) = Some bytes.
Proof.
  induction fuel as [|fuel IH]; intros i Hfuel.
  - cbn [Retry.binaryLoop].
    destruct (i <? length bytes)%nat eqn:Hi;
      [apply Nat.ltb_lt in Hi; lia|apply Nat.ltb_ge in Hi].
    rewrite firstn_all2 by lia. reflexivity.
  - cbn [Retry.binaryLoop].
    destruct (i <? length bytes)%nat eqn:Hi;
      [apply Nat.ltb_lt in Hi|apply Nat.ltb_ge in Hi].
    + unfold ServiceWorker.slice.
      replace (i + chunk - i)%nat with chunk by lia.
      rewrite <- firstn_add. apply IH. lia.
    + rewrite firstn_all2 by lia. reflexivity.
Qed.

End ChunkLaws.

(** X23.  The loop of [blobToDataUrl] that builds the binary string in
    chunks of 0x8000 bytes ends after one round per chunk, and the string
    holds every byte of the blob once, in the order of the blob. *)
Theorem blobToDataUrl_keeps_every_byte :
  forall (bytes : list Z) (fuel : nat),
    (length bytes <= fuel * Retry.chunkSize)%nat ->
    Retry.binaryOf fuel bytes = Some bytes.
Proof.
  intros bytes fuel Hfuel. unfold Retry.binaryOf.
  apply (binaryLoop_run bytes Retry.chunkSize) with (i := 0%nat).
  - unfold Retry.chunkSize. lia.
  - exact Hfuel.
Qed.

Lemma blobToDataUrl_keeps_every_byte_witness :
  Retry.binaryOf 1 [137; 80; 78; 71] = Some [137; 80; 78; 71].
Proof.
  apply blobToDataUrl_keeps_every_byte.
  unfold Retry.chunkSize. cbn [length]. lia.
Defined.

(* ================================================================== *)
(** * From storeCurrentSegment to the reply of getCaptureSegment *)
(* ================================================================== *)

Section SegmentServed.

Import CaptureStore.



End SegmentServed.

(* ================================================================== *)
(** * The annotation engine *)
(* ================================================================== *)

Section AnnotationLaws.

Import Annotation.

Lemma finishTextInput_layer e :
  staticLayer e = actions e ->
  staticLayer (finishTextInput e) = actions (finishTextInput e).
Proof.
  intros H. unfold finishTextInput.
  destruct (textInput e); [|exact H].
  destruct (negb _); cbn [withTextInput commit staticLayer actions];
    rewrite ?H; reflexivity.
Qed.

Lemma step_layer e event :
  staticLayer e = actions e ->
  staticLayer (step e event) = actions (step e event).
Proof.
  intros H. destruct event; cbn [step].
  - unfold setTool. cbn [withStroke staticLayer actions].
    apply finishTextInput_layer. exact H.
  - exact H.
  - exact H.
  - unfold onMouseDown. destruct (currentTool e) as [tool|]; [|exact H].
    destruct (negb _); [exact H|].
    destruct tool; try exact H.
    unfold createTextInput. cbn [withTextInput staticLayer actions].
    apply finishTextInput_layer. exact H.
  - destruct (listening e); [|exact H]. unfold onMouseMove.
    destruct (negb _); [exact H|].
    destruct (currentTool e) as [[| | | |]|]; exact H.
  - destruct (listening e); [|exact H]. unfold onMouseUp.
    cbn [withStroke isDrawing currentTool currentPath startPoint color
         strokeWidth].
    destruct (negb _); [exact H|].
    destruct (currentTool e) as [[| | | |]|]; try exact H;
      cbn [withStroke staticLayer actions];
      repeat match goal with
             | |- context [if ?c then _ else _] => destruct c
             | |- context [match startPoint e with _ => _ end] =>
                 destruct (startPoint e)
             end;
      cbn [commit withStroke staticLayer actions]; rewrite ?H; reflexivity.
  - destruct (textInput e); exact H.
  - apply finishTextInput_layer. exact H.
  - unfold cancelTextInput. destruct (textInput e); exact H.
  - unfold undo. destruct (rev (actions e)); [exact H|]. reflexivity.
  - unfold redo. destruct (rev (redoStack e)); [exact H|]. reflexivity.
  - unfold clearAll. destruct (actions e) eqn:E; [rewrite H, E|]; reflexivity.
Qed.

Lemma run_invariant (P : Engine -> Prop) :
  (forall e event, P e -> P (step e event)) ->
  forall events e, P e -> P (run e events).
Proof.
  intros Hstep events. unfold run.
  induction events as [|event events IH]; intros e He; cbn [fold_left];
    [exact He|].
  apply IH. apply Hstep. exact He.
Qed.

(** The engine is idle or in a stroke that the window listeners follow. *)
Definition settled (e : Engine) : Prop :=
  (isDrawing e = true -> listening e = true /\ currentTool e <> None)
  /\ (isDrawing e = false -> currentPath e = [] /\ startPoint e = None).

Lemma finishTextInput_stroke e :
  isDrawing (finishTextInput e) = isDrawing e
  /\ listening (finishTextInput e) = listening e
  /\ currentTool (finishTextInput e) = currentTool e
  /\ currentPath (finishTextInput e) = currentPath e
  /\ startPoint (finishTextInput e) = startPoint e
  /\ lastPreviewPoint (finishTextInput e) = lastPreviewPoint e.
Proof.
  unfold finishTextInput. destruct (textInput e); [|repeat split].
  destruct (negb _); repeat split.
Qed.

Lemma step_settled e event : settled e -> settled (step e event).
Proof.
  intros Hs. pose proof Hs as [Hon Hoff]. destruct event; cbn [step].
  - unfold setTool, settled.
    cbn [withStroke isDrawing listening currentTool currentPath startPoint].
    split; [discriminate|]. intros _. split; reflexivity.
  - exact Hs.
  - exact Hs.
  - unfold onMouseDown. destruct (currentTool e) as [tool|] eqn:Htool;
      [|exact Hs].
    destruct (negb _); [exact Hs|].
    destruct tool; unfold settled;
      cbn [withStroke isDrawing listening currentTool currentPath startPoint];
      try (split; [intros _; split; [reflexivity|rewrite Htool; discriminate]
                  |discriminate]).
    unfold createTextInput.
    cbn [withTextInput isDrawing listening currentTool currentPath startPoint].
    destruct (finishTextInput_stroke e) as (-> & -> & -> & -> & -> & _).
    rewrite Htool. split; [exact Hon|exact Hoff].
  - destruct (listening e) eqn:Hl; [|exact Hs].
    unfold onMouseMove.
    destruct (isDrawing e) eqn:Hd; cbn [negb]; [|exact Hs].
    destruct (currentTool e) as [tool|] eqn:Htool; [|exact Hs].
    destruct tool; try exact Hs; unfold settled;
      cbn [withStroke isDrawing listening currentTool currentPath startPoint];
      rewrite ?Hd, ?Hl, ?Htool;
      (split; [intros _; split; [reflexivity|discriminate]|discriminate]).
  - destruct (listening e) eqn:Hl; [|exact Hs].
    unfold onMouseUp.
    cbn [withStroke isDrawing currentTool currentPath startPoint color
         strokeWidth].
    destruct (isDrawing e) eqn:Hd; cbn [negb].
    + destruct (currentTool e) as [tool|] eqn:Htool.
      * unfold settled.
        cbn [withStroke isDrawing listening currentTool currentPath startPoint].
        split; [discriminate|]. intros _. split; reflexivity.
      * destruct (Hon eq_refl) as [_ Hne]. contradiction.
    + unfold settled.
      cbn [withStroke isDrawing listening currentTool currentPath startPoint].
      rewrite ?Hd. split; [discriminate|exact Hoff].
  - destruct (textInput e); exact Hs.
  - unfold settled.
    destruct (finishTextInput_stroke e) as (-> & -> & -> & -> & -> & _).
    exact Hs.
  - unfold cancelTextInput. destruct (textInput e); exact Hs.
  - unfold undo. destruct (rev (actions e)); exact Hs.
  - unfold redo. destruct (rev (redoStack e)); exact Hs.
  - unfold clearAll. destruct (actions e); exact Hs.
Qed.

End AnnotationLaws.

(** X25.  Whatever the user does with toolbar, mouse, text box, undo, redo
    and clear, the static canvas of the annotation engine shows exactly
    the list [actions], each action rendered once and in order: rendering
    a finished action on top ([_renderToStatic]) and clearing and
    rendering all of them ([redraw]) never get out of step. *)
Theorem static_layer_shows_actions :
  forall events,
    Annotation.staticLayer (Annotation.run Annotation.newEngine events)
    = Annotation.actions (Annotation.run Annotation.newEngine events).
Proof.
  intros events.
  apply (run_invariant
           (fun e => Annotation.staticLayer e = Annotation.actions e)).
  - intros e event. apply step_layer.
  - reflexivity.
Qed.

(** X26.  Whatever the user does, a stroke in progress has a tool and the
    window listeners attached, so its mouse-up arrives; and when no stroke
    is in progress [_drawPreviewOnly] draws nothing, so an animation frame
    that fires after the mouse-up cannot paint the finished stroke on the
    preview canvas again. *)
Theorem idle_engine_previews_nothing :
  forall events,
    let e := Annotation.run Annotation.newEngine events in
    (Annotation.isDrawing e = true ->
     Annotation.listening e = true /\ Annotation.currentTool e <> None)
    /\ (Annotation.isDrawing e = false ->
        Annotation.drawPreviewOnly e = None).
Proof.
  intros events e.
  assert (Hsettled : settled e).
  { apply run_invariant.
    - intros e0 event. apply step_settled.
    - split; [discriminate|]. intros _. split; reflexivity. }
  destruct Hsettled as [Hon Hoff]. split; [exact Hon|].
  intros Hidle. destruct (Hoff Hidle) as [Hpath Hstart].
  unfold Annotation.drawPreviewOnly. rewrite Hpath, Hstart.
  destruct (Annotation.currentTool e) as [[| | | |]|]; reflexivity.
Qed.

(* ================================================================== *)
(** * The annotation engine: undo, redo and strokes *)
(* ================================================================== *)

Section UndoLaws.

Import Annotation.

Lemma rev_snoc_inv (A : Type) (l rest : list A) (a : A) :
  rev l = a :: rest -> l = rev rest ++ [a].
Proof.
  intros H. rewrite <- (rev_involutive l), H. reflexivity.
Qed.

Lemma undo_redo e :
  staticLayer e = actions e -> hasAnnotations e = true -> redo (undo e) = e.
Proof.
  intros Hlayer Hsome. unfold undo.
  destruct (rev (actions e)) as [|popped rest] eqn:Hrev.
  - apply (f_equal (@rev Action)) in Hrev. rewrite rev_involutive in Hrev.
    unfold hasAnnotations in Hsome. rewrite Hrev in Hsome. discriminate.
  - apply rev_snoc_inv in Hrev. unfold redo.
    cbn [redraw withStacks redoStack actions]. rewrite rev_app_distr.
    cbn [rev app]. cbn [redraw withStacks]. rewrite rev_involutive.
    destruct e. cbn in *. subst. reflexivity.
Qed.

Lemma redo_undo e :
  staticLayer e = actions e -> redoStack e <> [] -> undo (redo e) = e.
Proof.
  intros Hlayer Hsome. unfold redo.
  destruct (rev (redoStack e)) as [|popped rest] eqn:Hrev.
  - apply (f_equal (@rev Action)) in Hrev. rewrite rev_involutive in Hrev.
    contradiction.
  - apply rev_snoc_inv in Hrev. unfold undo.
    cbn [redraw withStacks redoStack actions]. rewrite rev_app_distr.
    cbn [rev app]. cbn [redraw withStacks]. rewrite rev_involutive.
    destruct e. cbn in *. subst. reflexivity.
Qed.

End UndoLaws.

(** X27.  In an engine whose static canvas shows its actions, undo and
    redo are inverse to each other on the whole state: redo after undo
    restores the engine when there is an action to undo, and undo after
    redo restores it when there is one to redo.  Finishing an annotation
    empties the redo stack, so redo does nothing after it.  [clearAll]
    leaves no annotation, and empties the redo stack unless there was no
    action to clear, in which case it returns early and redo still brings
    the undone actions back. *)
Theorem undo_redo_inverse :
  forall e,
    Annotation.staticLayer e = Annotation.actions e ->
    (Annotation.hasAnnotations e = true ->
     Annotation.redo (Annotation.undo e) = e)
    /\ (Annotation.redoStack e <> [] ->
        Annotation.undo (Annotation.redo e) = e)
    /\ (forall action,
          Annotation.redo (Annotation.commit e action)
          = Annotation.commit e action)
    /\ Annotation.hasAnnotations (Annotation.clearAll e) = false
    /\ Annotation.redoStack (Annotation.clearAll e)
       = (if Annotation.hasAnnotations e then [] else Annotation.redoStack e).
Proof.
  intros e Hlayer. split; [apply undo_redo; exact Hlayer|].
  split; [apply redo_undo; exact Hlayer|].
  split; [reflexivity|].
  unfold Annotation.clearAll, Annotation.hasAnnotations.
  destruct (Annotation.actions e) eqn:Hactions.
  - rewrite Hactions. split; reflexivity.
  - split; reflexivity.
Qed.

Lemma undo_redo_inverse_witness :
  Annotation.redo
    (Annotation.undo
       (Annotation.commit redPen
          (Annotation.BlurAction {| Annotation.x := 10; Annotation.y := 10 |}
                                 {| Annotation.x := 90; Annotation.y := 40 |}
                                 15)))
  = Annotation.commit redPen
      (Annotation.BlurAction {| Annotation.x := 10; Annotation.y := 10 |}
                             {| Annotation.x := 90; Annotation.y := 40 |} 15).
Proof.
  apply (undo_redo_inverse
           (Annotation.commit redPen
              (Annotation.BlurAction
                 {| Annotation.x := 10; Annotation.y := 10 |}
                 {| Annotation.x := 90; Annotation.y := 40 |} 15))).
  - reflexivity.
  - reflexivity.
Defined.

Section StrokeLaws.

Import Annotation.

Lemma last_snoc_some (path : list Point) (p : Point) :
  last (map Some (path ++ [p])) None = Some p.
Proof.
  rewrite map_app. cbn [map]. apply last_last.
Qed.

Lemma subsequence_nil (b : list Point) : subsequence [] b.
Proof. destruct b; exact I. Qed.

Lemma subsequence_skip (a b : list Point) (q : Point) :
  subsequence a b -> subsequence a (q :: b).
Proof.
  destruct a as [|p a]; [intros _; exact I|].
  intros H. cbn [subsequence]. right. exact H.
Qed.

(** The points kept from [moves] after the point [lastPt]. *)
Lemma extendPath_moves (moves : list Point) :
  forall (before : list Point) (lastPt : Point),
  exists kept,
    fold_left extendPath moves (before ++ [lastPt]) = before ++ lastPt :: kept
    /\ spaced (lastPt :: kept)
    /\ subsequence kept moves
    /\ (kept = []
        <-> forallb (fun p => negb (Qle_bool 4 (dist2 lastPt p))) moves = true).
Proof.
  induction moves as [|m moves IH]; intros before lastPt.
  - exists []. cbn [fold_left spaced subsequence forallb].
    repeat split; auto.
  - cbn [fold_left forallb]. unfold extendPath at 2.
    rewrite last_snoc_some.
    destruct (Qle_bool 4 (dist2 lastPt m)) eqn:Hfar; cbn [negb andb].
    + destruct (IH (before ++ [lastPt]) m) as (kept & Hrun & Hspaced & Hsub & _).
      exists (m :: kept). rewrite Hrun, <- app_assoc. cbn [app].
      split; [reflexivity|]. split.
      * cbn [spaced]. split; [apply Qle_bool_iff; exact Hfar|exact Hspaced].
      * split; [cbn [subsequence]; left; split; [reflexivity|exact Hsub]|].
        split; discriminate.
    + destruct (IH before lastPt) as (kept & Hrun & Hspaced & Hsub & Hnone).
      exists kept. split; [exact Hrun|]. split; [exact Hspaced|].
      split; [apply subsequence_skip; exact Hsub|exact Hnone].
Qed.

(** Mouse moves during a stroke of the draw or highlight tool. *)
Lemma run_moves (moves : list Point) : forall e,
  isDrawing e = true -> listening e = true ->
  (currentTool e = Some Draw \/ currentTool e = Some Highlight) ->
  run e (map MouseMove moves)
  = withStroke e true (fold_left extendPath moves (currentPath e))
               (startPoint e) (lastPreviewPoint e) true.
Proof.
  unfold run.
  induction moves as [|m moves IH]; intros e Hd Hl Htool; cbn [map fold_left].
  - destruct e. cbn in *. subst. reflexivity.
  - cbn [step]. rewrite Hl. unfold onMouseMove. rewrite Hd. cbn [negb].
    assert (Hmove : match currentTool e with
                    | Some Draw | Some Highlight =>
                        withStroke e true (extendPath (currentPath e) m)
                                   (startPoint e) (lastPreviewPoint e)
                                   (listening e)
                    | Some Arrow | Some Blur =>
                        withStroke e true (currentPath e) (startPoint e)
                                   (Some m) (listening e)
                    | Some Text => e
                    | None => e
                    end
                    = withStroke e true (extendPath (currentPath e) m)
                                 (startPoint e) (lastPreviewPoint e) true).
    { rewrite Hl. destruct Htool as [-> | ->]; reflexivity. }
    rewrite Hmove. rewrite IH.
    + reflexivity.
    + reflexivity.
    + reflexivity.
    + exact Htool.
Qed.

End StrokeLaws.

(** X28.  A stroke of the draw tool (mouse down with the main button, any
    mouse moves, mouse up) adds an action exactly when some mouse move is
    2 px or more from the point of the mouse down.  The path of the action
    starts at that point, keeps some of the moves in their order, and any
    two consecutive points of it are 2 px or more apart; the point of the
    mouse up is not part of it.  The action carries the colour and stroke
    width of the engine and empties the redo stack.  Otherwise actions and
    redo stack stay as they were.  Either way the stroke is over and the
    window listeners are removed. *)
Theorem draw_stroke_path :
  forall e down moves up,
    Annotation.currentTool e = Some Annotation.Draw ->
    let e' := Annotation.run e (Annotation.MouseDown 0 down
                                :: map Annotation.MouseMove moves
                                ++ [Annotation.MouseUp up]) in
    Annotation.isDrawing e' = false
    /\ Annotation.listening e' = false
    /\ Annotation.currentPath e' = []
    /\ if forallb (fun p => negb (Qle_bool 4 (Annotation.dist2 down p))) moves
       then Annotation.actions e' = Annotation.actions e
            /\ Annotation.redoStack e' = Annotation.redoStack e
       else exists kept,
           Annotation.actions e'
           = Annotation.actions e
             ++ [Annotation.DrawAction (down :: kept) (Annotation.color e)
                                       (Annotation.strokeWidth e)]
           /\ kept <> []
           /\ spaced (down :: kept)
           /\ subsequence kept moves
           /\ Annotation.redoStack e' = [].
Proof.
  intros e down moves up Htool e'.
  assert (He' : e' = Annotation.onMouseUp
                       (Annotation.run
                          (Annotation.onMouseDown e 0 down)
                          (map Annotation.MouseMove moves)) up).
  { unfold e', Annotation.run. cbn [fold_left Annotation.step].
    rewrite fold_left_app. cbn [fold_left Annotation.step].
    fold (Annotation.run (Annotation.onMouseDown e 0 down)
                         (map Annotation.MouseMove moves)).
    rewrite run_moves.
    - reflexivity.
    - unfold Annotation.onMouseDown. rewrite Htool. reflexivity.
    - unfold Annotation.onMouseDown. rewrite Htool. reflexivity.
    - left. unfold Annotation.onMouseDown. rewrite Htool. exact Htool. }
  rewrite run_moves in He'.
  2-4: unfold Annotation.onMouseDown; rewrite Htool; try reflexivity.
  2: left; exact Htool.
  unfold Annotation.onMouseDown in He'. rewrite Htool in He'.
  cbn [Z.eqb negb Annotation.withStroke Annotation.currentPath
       Annotation.startPoint Annotation.lastPreviewPoint] in He'.
  destruct (extendPath_moves moves [] down)
    as (kept & Hrun & Hspaced & Hsub & Hnone).
  cbn [app] in Hrun. rewrite Hrun in He'.
  unfold Annotation.onMouseUp in He'.
  cbn [Annotation.withStroke Annotation.isDrawing Annotation.currentTool
       Annotation.currentPath Annotation.startPoint Annotation.color
       Annotation.strokeWidth Annotation.lastPreviewPoint negb] in He'.
  rewrite Htool in He'.
  destruct (forallb _ moves) eqn:Hall.
  - destruct Hnone as [_ Hnone]. rewrite (Hnone eq_refl) in He'.
    cbn [length Nat.ltb Nat.leb] in He'. rewrite He'.
    cbn [Annotation.withStroke Annotation.isDrawing Annotation.listening
         Annotation.currentPath Annotation.actions Annotation.redoStack].
    repeat split.
  - assert (Hkept : kept <> []).
    { intros Hk. apply Hnone in Hk. discriminate. }
    destruct kept as [|k kept]; [contradiction|].
    cbn [length Nat.ltb Nat.leb] in He'. rewrite He'.
    cbn [Annotation.withStroke Annotation.commit Annotation.isDrawing
         Annotation.listening Annotation.currentPath Annotation.actions
         Annotation.redoStack].
    split; [reflexivity|]. split; [reflexivity|]. split; [reflexivity|].
    exists (k :: kept).
    split; [reflexivity|]. split; [exact Hkept|]. split; [exact Hspaced|].
    split; [exact Hsub|reflexivity].
Qed.

Lemma draw_stroke_path_witness :
  Annotation.isDrawing
    (Annotation.run redPen
       (Annotation.MouseDown 0 {| Annotation.x := 10; Annotation.y := 10 |}
        :: map Annotation.MouseMove
               [{| Annotation.x := 11; Annotation.y := 10 |};
                {| Annotation.x := 13; Annotation.y := 10 |}]
        ++ [Annotation.MouseUp {| Annotation.x := 14; Annotation.y := 10 |}]))
  = false.
Proof.
  apply (draw_stroke_path
           redPen
           {| Annotation.x := 10; Annotation.y := 10 |}
           [{| Annotation.x := 11; Annotation.y := 10 |};
            {| Annotation.x := 13; Annotation.y := 10 |}]
           {| Annotation.x := 14; Annotation.y := 10 |}).
  reflexivity.
Defined.

(* ================================================================== *)
(** * The viewer: zoom *)
(* ================================================================== *)

Section ZoomLaws.

Lemma setZoom_range view newZoom :
  (1 # 10 <= Zoom.zoom (Zoom.setZoom view newZoom) <= 5)%Q.
Proof.
  cbn [Zoom.setZoom Zoom.zoom].
  destruct (Q.max_spec (1 # 10) (Qmin 5 newZoom)) as [[H1 H2]|[H1 H2]];
    destruct (Q.min_spec 5 newZoom) as [[H3 H4]|[H3 H4]];
    rewrite H2; try rewrite H4 in *; lra.
Qed.

Lemma imageAt_rescaled (oldZoom newZoom scroll mouse : Q) :
  (0 < oldZoom)%Q -> (0 < newZoom)%Q ->
  (imageAt newZoom
           (scroll * (newZoom / oldZoom) + mouse * (newZoom / oldZoom - 1))
           mouse
   == imageAt oldZoom scroll mouse)%Q.
Proof.
  intros Hold Hnew. unfold imageAt. field. split; lra.
Qed.

End ZoomLaws.

(** X29.  Zooming with Ctrl and the wheel keeps the zoom level between 0.1
    and 5 and, in exact arithmetic, assigns scroll offsets under which the
    image point under the mouse stays under the mouse.  The click that
    zooms to 100% assigns scroll offsets with the same effect. *)
Theorem zoom_keeps_point_under_mouse :
  forall view mouseX mouseY deltaY,
    (0 < Zoom.zoom view)%Q ->
    let wheel := Zoom.wheelZoom view mouseX mouseY deltaY in
    let click := Zoom.clickToFullSize view mouseX mouseY in
    (1 # 10 <= Zoom.zoom wheel <= 5)%Q
    /\ (imageAt (Zoom.zoom wheel) (Zoom.scrollLeft wheel) mouseX
        == imageAt (Zoom.zoom view) (Zoom.scrollLeft view) mouseX)%Q
    /\ (imageAt (Zoom.zoom wheel) (Zoom.scrollTop wheel) mouseY
        == imageAt (Zoom.zoom view) (Zoom.scrollTop view) mouseY)%Q
    /\ (Zoom.zoom click == 1)%Q
    /\ (imageAt (Zoom.zoom click) (Zoom.scrollLeft click) mouseX
        == imageAt (Zoom.zoom view) (Zoom.scrollLeft view) mouseX)%Q
    /\ (imageAt (Zoom.zoom click) (Zoom.scrollTop click) mouseY
        == imageAt (Zoom.zoom view) (Zoom.scrollTop view) mouseY)%Q.
Proof.
  intros view mouseX mouseY deltaY Hzoom wheel click.
  pose proof (setZoom_range
                view
                (Zoom.zoom view
                 + (if Js.ltb 0 deltaY then - (1 # 10) else 1 # 10))) as Hrange.
  unfold wheel, Zoom.wheelZoom. cbn zeta.
  cbn [Zoom.zoom Zoom.scrollLeft Zoom.scrollTop].
  set (newZoom := Zoom.zoom (Zoom.setZoom view _)) in *.
  split; [exact Hrange|].
  split; [apply imageAt_rescaled; lra|].
  split; [apply imageAt_rescaled; lra|].
  unfold click, Zoom.clickToFullSize. cbn zeta.
  cbn [Zoom.zoom Zoom.scrollLeft Zoom.scrollTop Zoom.setZoom].
  assert (Hone : (Qmax (1 # 10) (Qmin 5 1) == 1)%Q) by reflexivity.
  split; [exact Hone|].
  unfold imageAt. rewrite Hone. split; field; lra.
Qed.

Lemma zoom_keeps_point_under_mouse_witness :
  (1 # 10 <= Zoom.zoom (Zoom.wheelZoom halfZoomView 200 150 (-100)) <= 5)%Q.
Proof.
  apply (zoom_keeps_point_under_mouse halfZoomView 200 150 (-100)).
  reflexivity.
Defined.

(** X30.  [fitToWindow] never enlarges the image and never goes below the
    smallest zoom level: the zoom is between 0.1 and 1.  When the zoom
    that fits is 0.1 or more, the image at the new zoom is no wider and no
    taller than the container less its 40 px; when it is less, the zoom
    stops at 0.1 and the image is wider or taller than that. *)
Theorem fitToWindow_fits :
  forall view imgWidth imgHeight containerWidth containerHeight,
    0 < imgWidth -> 0 < imgHeight ->
    let fit := Zoom.getFitZoom imgWidth imgHeight containerWidth containerHeight in
    let view' := Zoom.fitToWindow view imgWidth imgHeight
                                  containerWidth containerHeight in
    let availW := Qmax 1 (containerWidth - 40) in
    let availH := Qmax 1 (containerHeight - 40) in
    (0 < fit <= 1)%Q
    /\ (Zoom.zoom view' == Qmax (1 # 10) fit)%Q
    /\ (1 # 10 <= Zoom.zoom view' <= 1)%Q
    /\ ((1 # 10 <= fit)%Q ->
        (Zoom.zoom view' * inject_Z imgWidth <= availW)%Q
        /\ (Zoom.zoom view' * inject_Z imgHeight <= availH)%Q)
    /\ ((fit < 1 # 10)%Q ->
        (availW < Zoom.zoom view' * inject_Z imgWidth)%Q
        \/ (availH < Zoom.zoom view' * inject_Z imgHeight)%Q).
Proof.
  intros view imgWidth imgHeight containerWidth containerHeight Hw Hh
         fit view' availW availH.
  assert (HW : (0 < inject_Z imgWidth)%Q)
    by (change 0%Q with (inject_Z 0); rewrite <- Zlt_Qlt; exact Hw).
  assert (HH : (0 < inject_Z imgHeight)%Q)
    by (change 0%Q with (inject_Z 0); rewrite <- Zlt_Qlt; exact Hh).
  assert (HaW : (1 <= availW)%Q) by apply Q.le_max_l.
  assert (HaH : (1 <= availH)%Q) by apply Q.le_max_l.
  assert (Hfit : fit = Qmin (Qmin (availW / inject_Z imgWidth)
                                  (availH / inject_Z imgHeight)) 1).
  { unfold fit, Zoom.getFitZoom.
    replace (imgWidth =? 0) with false by (symmetry; apply Z.eqb_neq; lia).
    replace (imgHeight =? 0) with false by (symmetry; apply Z.eqb_neq; lia).
    reflexivity. }
  assert (Hview : Zoom.zoom view' = Qmax (1 # 10) (Qmin 5 fit)).
  { unfold view', Zoom.fitToWindow.
    replace (imgWidth =? 0) with false by (symmetry; apply Z.eqb_neq; lia).
    replace (imgHeight =? 0) with false by (symmetry; apply Z.eqb_neq; lia).
    cbn [orb Zoom.setZoom Zoom.zoom]. rewrite Hfit. reflexivity. }
  set (sx := (availW / inject_Z imgWidth)%Q) in *.
  set (sy := (availH / inject_Z imgHeight)%Q) in *.
  assert (Hsx : (sx * inject_Z imgWidth == availW)%Q)
    by (unfold sx; field; lra).
  assert (Hsy : (sy * inject_Z imgHeight == availH)%Q)
    by (unfold sy; field; lra).
  assert (Hsx0 : (0 < sx)%Q).
  { unfold sx. apply Qlt_shift_div_l; [exact HW|]. lra. }
  assert (Hsy0 : (0 < sy)%Q).
  { unfold sy. apply Qlt_shift_div_l; [exact HH|]. lra. }
  assert (Hrange : (0 < fit <= 1)%Q
                   /\ (fit <= sx)%Q /\ (fit <= sy)%Q
                   /\ ((fit == sx)%Q \/ (fit == sy)%Q \/ (fit == 1)%Q)).
  { rewrite Hfit.
    destruct (Q.min_spec (Qmin sx sy) 1) as [[H1 H2]|[H1 H2]];
      destruct (Q.min_spec sx sy) as [[H3 H4]|[H3 H4]];
      rewrite H2; rewrite ?H4 in *;
      (split; [lra|]); (split; [lra|]); (split; [lra|]);
      first [left; reflexivity | right; left; reflexivity
            | right; right; reflexivity]. }
  destruct Hrange as ((Hfit0 & Hfit1) & Hfx & Hfy & Hwhich).
  assert (Hzoom : (Zoom.zoom view' == Qmax (1 # 10) fit)%Q).
  { rewrite Hview.
    destruct (Q.min_spec 5 fit) as [[H1 H2]|[H1 H2]]; [lra|].
    rewrite H2. reflexivity. }
  split; [split; assumption|]. split; [exact Hzoom|].
  destruct (Q.max_spec (1 # 10) fit) as [[H1 H2]|[H1 H2]];
    rewrite H2 in Hzoom.
  - split; [lra|]. split; [|lra]. intros _.
    rewrite Hzoom. split.
    + rewrite <- Hsx. apply Qmult_le_compat_r; lra.
    + rewrite <- Hsy. apply Qmult_le_compat_r; lra.
  - split; [lra|]. split.
    + intros Hge. assert (Heq : (fit == 1 # 10)%Q) by lra.
      rewrite Hzoom, <- Heq. split.
      * rewrite <- Hsx. apply Qmult_le_compat_r; lra.
      * rewrite <- Hsy. apply Qmult_le_compat_r; lra.
    + intros Hlt. rewrite Hzoom.
      destruct Hwhich as [Hx|[Hy|Hone]]; [left|right|lra].
      * rewrite <- Hsx, <- Hx. apply Qmult_lt_compat_r; lra.
      * rewrite <- Hsy, <- Hy. apply Qmult_lt_compat_r; lra.
Qed.

Lemma fitToWindow_fits_witness :
  (0 < Zoom.getFitZoom 1920 3750 1280 800 <= 1)%Q.
Proof.
  apply (fitToWindow_fits halfZoomView 1920 3750 1280 800); reflexivity.
Defined.

(* ================================================================== *)
(** * The export of a canvas whose pixels cannot be read *)
(* ================================================================== *)

Section Rendering.

Import Viewer PdfExport.





End Rendering.



(* ================================================================== *)
(** * Paginator: the sequence of slices *)
(* ================================================================== *)

Section SliceReach.

Import Viewer.

Variable g : PageGeometry.
Variable allBands : option (list Band).

Hypothesis contentHPx_nonneg : (0 <= contentHPx g)%Q.
Hypothesis canvas_nonneg : 0 <= canvas_height g.


End SliceReach.

Section LastPage.

Import Viewer.

Variable g : PageGeometry.
Variable allBands : option (list Band).

Hypothesis scale_pos : (0 < scale g)%Q.
Hypothesis imgHeightMm_pos : (0 < imgHeightMm g)%Q.
Hypothesis imageContentH_pos : (0 < imageContentH g)%Q.
Hypothesis page_holds_a_row : (1 <= contentHPx g)%Q.


End LastPage.

Section SliceSequenceLaws.

Import Viewer.



End SliceSequenceLaws.
